(** * surat: speech-driven facial animation -- sampler, encoder shapes,
      losses and checkpointing

    A shallow embedding of [surat.py].  Python floats are binary64 and are
    modelled by Rocq's primitive floats; Python integers are [Z]; tensor
    payloads are rationals.  The loader's conversion to float32 and its
    halving are rounded to binary32 with SpecFloat's arithmetic at
    precision 24; the feature rows are only selected and moved, never
    recomputed; the losses are read over the rationals, and only
    properties that rounding cannot break are stated about them.
    Exceptions are values of the type [exn]; the global random source and
    the file system are threaded through a small state-and-exception
    monad. *)

From Stdlib Require Import ZArith List String Ascii Bool Lia QArith Lqa Floats.
From Stdlib Require Import DecimalString.
From Stdlib Require Uint63.
Import ListNotations.
Local Open Scope Z_scope.

Set Warnings "-inexact-float,-abstract-large-number".


(* ================================================================== *)
(** ** Python run-time: exceptions, integers and floats *)
(* ================================================================== *)

Module Py.

Inductive exn : Type :=
| ZeroDivisionError
| OverflowError
| ValueError
| RuntimeError
| AssertionError
| FileNotFoundError (path : string).

Inductive result (A : Type) : Type :=
| Ok (a : A)
| Raise (e : exn).
Arguments Ok {A} a.
Arguments Raise {A} e.

Definition rbind {A B} (r : result A) (k : A -> result B) : result B :=
  match r with
  | Ok a => k a
  | Raise e => Raise e
  end.

(** [float(z)]: the nearest binary64 value, ties to even; an integer too
    large for a float raises [OverflowError]. *)
Definition float_of_int (z : Z) : result float :=
  let f := SF2Prim (binary_normalize prec emax z 0 false) in
  if PrimFloat.is_infinity f then Raise OverflowError else Ok f.

(** Truncation toward zero of a finite [spec_float]. *)
Definition SFtrunc (x : spec_float) : result Z :=
  match x with
  | S754_zero _ => Ok 0
  | S754_finite s m e =>
      let a := Z.shiftl (Zpos m) e in
      Ok (if s then - a else a)
  | S754_infinity _ => Raise OverflowError
  | S754_nan => Raise ValueError
  end.

(** [int(f)] for a float [f]. *)
Definition int (f : float) : result Z := SFtrunc (Prim2SF f).

(** [a / b] for two integers (true division).  Tensor sizes and counts
    are far below [2^53], where CPython divides the two converted
    doubles. *)
Definition truediv (a b : Z) : result float :=
  if b =? 0 then Raise ZeroDivisionError
  else rbind (float_of_int a) (fun fa =>
       rbind (float_of_int b) (fun fb => Ok (fa / fb)%float)).

(** [z * f] and [f + z] with an integer operand: the integer is converted
    first. *)
Definition int_mul_float (z : Z) (f : float) : result float :=
  rbind (float_of_int z) (fun fz => Ok (fz * f)%float).

Definition float_add_int (f : float) (z : Z) : result float :=
  rbind (float_of_int z) (fun fz => Ok (f + fz)%float).

(** [round(f)]: nearest integer, ties to even. *)
Definition SFround (x : spec_float) : result Z :=
  match x with
  | S754_zero _ => Ok 0
  | S754_finite s m e =>
      let a :=
        match e with
        | Zneg p =>
            let d := Z.pow_pos 2 p in
            let q := Zpos m / d in
            let r := Zpos m mod d in
            match 2 * r ?= d with
            | Lt => q
            | Gt => q + 1
            | Eq => if Z.even q then q else q + 1
            end
        | _ => Z.shiftl (Zpos m) e
        end in
      Ok (if s then - a else a)
  | S754_infinity _ => Raise OverflowError
  | S754_nan => Raise ValueError
  end.

Definition round (f : float) : result Z := SFround (Prim2SF f).

(** The rational value of a finite [spec_float]. *)
Definition SF2Q (x : spec_float) : Q :=
  match x with
  | S754_finite s m e =>
      let v := match e with
               | Zneg p => (Zpos m # Pos.pow 2 p)%Q
               | _ => inject_Z (Zpos m * 2 ^ e)
               end in
      if s then Qopp v else v
  | _ => 0%Q
  end.

(** ['{:05d}'.format(n)]: sign-aware zero padding to width five. *)
Definition digits (n : Z) : string :=
  NilZero.string_of_uint (N.to_uint (Z.abs_N n)).

Fixpoint zeros (k : nat) : string :=
  match k with
  | O => EmptyString
  | S k' => String "0"%char (zeros k')
  end.

Definition format_05d (n : Z) : string :=
  let ds := digits n in
  if n <? 0
  then String "-"%char (zeros (4 - String.length ds) ++ ds)%string
  else (zeros (5 - String.length ds) ++ ds)%string.

(** [os.path.join] on a POSIX system. *)
Definition ends_with_sep (p : string) : bool :=
  match String.get (String.length p - 1) p with
  | Some c => Ascii.eqb c "/"%char
  | None => false
  end.

Definition starts_with_sep (p : string) : bool :=
  match p with
  | String c _ => Ascii.eqb c "/"%char
  | EmptyString => false
  end.

Definition join2 (path b : string) : string :=
  if starts_with_sep b then b
  else if orb (String.eqb path EmptyString) (ends_with_sep path)
       then (path ++ b)%string
       else (path ++ "/" ++ b)%string.

Definition path_join (a : string) (ps : list string) : string :=
  fold_left join2 ps a.

End Py.
Import Py.

Notation "x <- c1 ;; c2" := (rbind c1 (fun x => c2))
  (at level 61, c1 at next level, right associativity).

(* ================================================================== *)
(** ** Tensors *)
(* ================================================================== *)

(** A two-dimensional float tensor is kept as its list of rows; a tensor of
    any other rank as a shape with the row-major payload. *)
Definition matrix := list (list Q).

Record tensor : Type := mkTensor { shape : list Z; data : list Q }.

Definition numel (sh : list Z) : Z := fold_right Z.mul 1 sh.

Definition wf_matrix (width : nat) (m : matrix) : Prop :=
  Forall (fun r => List.length r = width) m.

Module Torch.

(** [torch.roll(x, shifts, dims=0)]: [out[j] = x[(j - shifts) mod n]]. *)
Definition roll {A} (x : list A) (shifts : Z) : list A :=
  let n := Z.of_nat (List.length x) in
  if n =? 0 then x
  else
    let k := Z.to_nat (n - shifts mod n) in
    skipn k x ++ firstn k x.

(** [x[:stop]] for a non-negative literal [stop]. *)
Definition take {A} (stop : nat) (x : list A) : list A := firstn stop x.

(** [x[start:stop]] along the first axis, with Python's treatment of
    negative and oversized bounds. *)
Definition clamp_index (n k : Z) : Z :=
  if k <? 0 then Z.max (k + n) 0 else Z.min k n.

Definition slice {A} (x : list A) (start stop : Z) : list A :=
  let n := Z.of_nat (List.length x) in
  let lo := clamp_index n start in
  let hi := clamp_index n stop in
  firstn (Z.to_nat (hi - lo)) (skipn (Z.to_nat lo) x).

(** [torch.cat((a, b), dim=0)] on tensors of equal row width. *)
Definition cat {A} (a b : list A) : list A := a ++ b.

(** [x.view(sh)] of a matrix: the element count must match. *)
Definition view (sh : list Z) (m : matrix) : result tensor :=
  let flat := List.concat m in
  if Z.of_nat (List.length flat) =? numel sh
  then Ok (mkTensor sh flat)
  else Raise RuntimeError.

(** [x.view(-1, cols)] of a flat array: as many rows as [cols] goes into
    the number of values, none for an empty array. *)
Definition view_rows (cols : Z) (flat : list Q) : result tensor :=
  let n := Z.of_nat (List.length flat) in
  if (cols <=? 0) || negb (n mod cols =? 0)
  then Raise RuntimeError
  else Ok (mkTensor [n / cols; cols] flat).

(** [x.view(rows, width)] of a flat payload, row by row. *)
Fixpoint chunks (rows width : nat) (flat : list Q) : matrix :=
  match rows with
  | O => []
  | S rows' => firstn width flat :: chunks rows' width (skipn width flat)
  end.

(** [x[0]]: the first slice along the leading axis. *)
Definition select0 (t : tensor) : result tensor :=
  match shape t with
  | n :: rest =>
      if 0 <? n
      then Ok (mkTensor rest (firstn (Z.to_nat (numel rest)) (data t)))
      else Raise RuntimeError
  | [] => Raise RuntimeError
  end.

(** [torch.zeros(sh)]. *)
Definition zeros (sh : list Z) : tensor :=
  mkTensor sh (repeat 0%Q (Z.to_nat (numel sh))).

(** [x.float()] on one value: the binary32 number nearest to the
    rational [v], ties to even.  SpecFloat divides the numerator by the
    denominator at precision 24 and rounds the quotient once.  A value
    beyond the binary32 range becomes infinite in the program; the
    rational payload has no infinity and keeps such a value as it is. *)
Definition f32_of_Q (v : Q) : spec_float :=
  match Qnum v with
  | Z0 => S754_zero false
  | Zpos n => SFdiv 24 128 (S754_finite false n 0) (S754_finite false (Qden v) 0)
  | Zneg n => SFdiv 24 128 (S754_finite true n 0) (S754_finite false (Qden v) 0)
  end.

Definition float32 (v : Q) : Q :=
  match f32_of_Q v with
  | S754_infinity _ | S754_nan => v
  | x => SF2Q x
  end.

(** [x * c] for a float32 tensor [x] and a Python float [c]: the scalar
    is taken to float32 and every product is rounded to float32. *)
Definition scale (c : Q) (t : tensor) : tensor :=
  mkTensor (shape t) (map (fun v => float32 (v * float32 c)) (data t)).

(** [torch.Tensor([i]).long()]: the integer goes through float32 and
    back (indices up to [2^24] are unchanged).  An index beyond the float32
    range has no defined conversion and is left as it is. *)
Definition f32_of_int (z : Z) : spec_float := binary_normalize 24 128 z 0 false.

Definition long_of_int (i : Z) : list Z :=
  match SFtrunc (f32_of_int i) with
  | Ok z => [z]
  | Raise _ => [i]
  end.

End Torch.

(* ================================================================== *)
(** ** The world a sampler call runs in *)
(* ================================================================== *)

(** [rand k] is the outcome of the [k]-th call of [random.randint(0, 1)];
    [disk] maps a path to the flattened array stored there. *)
Record env : Type := mkEnv {
  ROOT_PATH : string;
  rand : nat -> bool;
  disk : string -> option (list Q)
}.

(** [draws]: how many random numbers have been drawn so far; [opened]: the
    paths handed to [np.load], oldest first. *)
Record world : Type := mkWorld { draws : nat; opened : list string }.

Definition M (A : Type) : Type := world -> result A * world.

Definition ret {A} (a : A) : M A := fun w => (Ok a, w).

Definition bind {A B} (c : M A) (k : A -> M B) : M B :=
  fun w =>
    match c w with
    | (Ok a, w') => k a w'
    | (Raise e, w') => (Raise e, w')
    end.

Definition lift {A} (r : result A) : M A := fun w => (r, w).

Notation "x <~ c1 ;; c2" := (bind c1 (fun x => c2))
  (at level 61, c1 at next level, right associativity).

Definition randint01 (e : env) : M Z :=
  fun w => (Ok (Z.b2z (rand e (draws w))),
            mkWorld (S (draws w)) (opened w)).

Definition np_load (e : env) (path : string) : M (list Q) :=
  fun w =>
    let w' := mkWorld (draws w) (opened w ++ [path]) in
    match disk e path with
    | Some v => (Ok v, w')
    | None => (Raise (FileNotFoundError path), w')
    end.

(* ================================================================== *)
(** ** class Data *)
(* ================================================================== *)

Definition OUTPUT_COUNT : Z := 8320 * 3.

Definition animFPS : float := 29.97%float.

Record Data : Type := mkData {
  preview : bool;
  shiftRandom : bool;
  count : Z;
  MFCC : matrix
}.

Definition MFCCLen (d : Data) : Z := Z.of_nat (List.length (MFCC d)).

(** Line 39: [int(animFPS * (waveform.size()[1] / sampleRate))]. *)
Definition frameCount (size1 sampleRate : Z) : result Z :=
  q <- truediv size1 sampleRate ;;
  int (animFPS * q)%float.

(** [kaldi.mfcc] with [frame_length=256]: windows of 256 ms, which at the
    16 kHz the transform assumes are 4096 samples. *)
Definition window_size : Z := 4096.

(** [Data.__init__].  Audio decoding, resampling and the MFCC transform
    are library calls: [size1] and [sampleRate] describe the loaded
    waveform, [resampled] is its length after [Resample] (used when the
    rate is not 16 kHz), [features] the rows [kaldi.mfcc] returns.  The
    transform asserts that the waveform holds one window at least; the
    frame count of line 39 has been computed by then. *)
Definition Data_init (shiftRandom_arg : bool) (validationAudioPath : option string)
    (size1 sampleRate resampled : Z) (features : matrix) : result Data :=
  let preview := match validationAudioPath with Some _ => true | None => false end in
  let size16k := if sampleRate =? 16000 then size1 else resampled in
  c <- frameCount size16k 16000 ;;
  if size16k <? window_size then Raise AssertionError
  else Ok (mkData preview (shiftRandom_arg && negb preview) c features).

(** [Data.__len__]. *)
Definition Data_len (d : Data) : Z :=
  if preview d then count d else count d - 1.

(** Lines 64-65: [int(i * (self.MFCCLen / self.count) + randomShift)]. *)
Definition audioIdx (d : Data) (i randomShift : Z) : result Z :=
  q <- truediv (MFCCLen d) (count d) ;;
  p <- int_mul_float i q ;;
  s <- float_add_int p randomShift ;;
  int s.

(** Lines 60-65: the jitter draw and the two feature indices. *)
Definition audioIdxPair (e : env) (d : Data) (i : Z) : M (Z * Z) :=
  randomShift <~ (if shiftRandom d then randint01 e else ret 0) ;;
  audioIdxRoll <~ lift (audioIdx d i randomShift) ;;
  audioIdxRollPair <~ lift (audioIdx d (i + 1) randomShift) ;;
  ret (audioIdxRoll, audioIdxRollPair).

(** The test of line 66. *)
Definition near_edge (d : Data) (audioIdxRoll audioIdxRollPair : Z) : bool :=
  (audioIdxRoll <? 32) || (audioIdxRollPair <? 32)
  || (audioIdxRoll + 32 >? MFCCLen d) || (audioIdxRollPair + 32 >? MFCCLen d).

(** Lines 70-84: one 64-row window built from two rotations. *)
Definition rolledWindow (mfcc : matrix) (a : Z) : matrix :=
  Torch.cat (Torch.take 32 (Torch.roll mfcc ((a * -1) + 32)))
            (Torch.take 32 (Torch.roll mfcc (a * -1))).

(** Lines 66-119. *)
Definition inputValue (d : Data) (audioIdxRoll audioIdxRollPair : Z) : result tensor :=
  if near_edge d audioIdxRoll audioIdxRollPair
  then Torch.view [2; 1; 64; 32]
         (Torch.cat (rolledWindow (MFCC d) audioIdxRoll)
                    (rolledWindow (MFCC d) audioIdxRollPair))
  else Torch.view [2; 1; 64; 32]
         (Torch.cat (Torch.slice (MFCC d) (audioIdxRoll - 32) (audioIdxRoll + 32))
                    (Torch.slice (MFCC d) (audioIdxRollPair - 32) (audioIdxRollPair + 32))).

Definition mask_path (root : string) (frame : Z) : string :=
  path_join root
    ["data"; "samSoar"; "maskSeq"; "mask." ++ format_05d frame ++ ".npy"]%string.

(** Lines 128-143: [np.append] of the two loaded arrays, converted to
    float32 and viewed as rows of [OUTPUT_COUNT]. *)
Definition targetValue (e : env) (i : Z) : M tensor :=
  a <~ np_load e (mask_path (ROOT_PATH e) (i + 1)) ;;
  b <~ np_load e (mask_path (ROOT_PATH e) (i + 2)) ;;
  lift (Torch.view_rows OUTPUT_COUNT (map Torch.float32 (a ++ b))).

Record sample : Type := mkSample {
  index : list Z;
  input : tensor;
  target : tensor
}.

(** Line 57-58: negative indices are shifted by [self.count]. *)
Definition wrap_index (d : Data) (i : Z) : Z :=
  if i <? 0 then count d + i else i.

(** [Data.__getitem__]. *)
Definition getitem (e : env) (d : Data) (i : Z) : M sample :=
  let i := wrap_index d i in
  idxs <~ audioIdxPair e d i ;;
  inp <~ lift (inputValue d (fst idxs) (snd idxs)) ;;
  if preview d then
    inp0 <~ lift (Torch.select0 inp) ;;
    ret (mkSample (Torch.long_of_int i) inp0 (Torch.zeros [1; OUTPUT_COUNT]))
  else
    tgt <~ targetValue e i ;;
    ret (mkSample (Torch.long_of_int i) inp (Torch.scale (1 # 2) tgt)).

(* ================================================================== *)
(** ** class Model: the shapes the layers produce *)
(* ================================================================== *)

Module Shape.

Inductive layer : Type :=
| Conv2d (in_channels out_channels : Z) (kernel_size stride padding : Z * Z)
         (dilation : Z)
| BatchNorm2d (num_features : Z)
| LeakyReLU
| Dropout2d
| Linear (in_features out_features : Z)
| Tanh.

(** Output extent of a convolution along one axis. *)
Definition conv_out (size k s p d : Z) : Z :=
  (size + 2 * p - d * (k - 1) - 1) / s + 1.

(** The shape a layer returns, or the error it raises.  A convolution
    takes a batch [(n, c, h, w)] or a single image [(c, h, w)]; batch
    normalisation takes a batch only.  [training] is the module's mode:
    batch normalisation refuses a single value per channel while
    training. *)
Definition apply (training : bool) (l : layer) (sh : list Z) : result (list Z) :=
  match l, sh with
  | Conv2d cin cout (kh, kw) (sh_, sw) (ph, pw) d, [n; c; h; w] =>
      if negb (c =? cin) then Raise RuntimeError
      else if (h + 2 * ph <? d * (kh - 1) + 1) || (w + 2 * pw <? d * (kw - 1) + 1)
      then Raise RuntimeError
      else Ok [n; cout; conv_out h kh sh_ ph d; conv_out w kw sw pw d]
  | Conv2d cin cout (kh, kw) (sh_, sw) (ph, pw) d, [c; h; w] =>
      if negb (c =? cin) then Raise RuntimeError
      else if (h + 2 * ph <? d * (kh - 1) + 1) || (w + 2 * pw <? d * (kw - 1) + 1)
      then Raise RuntimeError
      else Ok [cout; conv_out h kh sh_ ph d; conv_out w kw sw pw d]
  | Conv2d _ _ _ _ _ _, _ => Raise RuntimeError
  | BatchNorm2d f, [n; c; h; w] =>
      if training && (n * h * w =? 1) then Raise ValueError
      else if negb (c =? f) then Raise RuntimeError
      else Ok sh
  | BatchNorm2d _, _ => Raise ValueError
  | LeakyReLU, _ => Ok sh
  | Dropout2d, _ => Ok sh
  | Tanh, _ => Ok sh
  | Linear fin fout, _ =>
      match rev sh with
      | last :: front =>
          if last =? fin then Ok (rev (fout :: front)) else Raise RuntimeError
      | [] => Raise RuntimeError
      end
  end.

(** [nn.Sequential]. *)
Fixpoint sequential (training : bool) (ls : list layer) (sh : list Z)
  : result (list Z) :=
  match ls with
  | [] => Ok sh
  | l :: ls' => sh' <- apply training l sh ;; sequential training ls' sh'
  end.

(** [t.view(sh)] where [sh] may hold one [-1]. *)
Definition view (from to : list Z) : result (list Z) :=
  let known := numel (filter (fun k => negb (k =? -1)) to) in
  let holes := List.length (filter (fun k => k =? -1) to) in
  match holes with
  | O => if numel from =? known then Ok to else Raise RuntimeError
  | 1%nat =>
      if (known =? 0) || negb (numel from mod known =? 0)
      then Raise RuntimeError
      else Ok (map (fun k => if k =? -1 then numel from / known else k) to)
  | _ => Raise RuntimeError
  end.

(** [t.expand(sh)]: every extent is kept or grown from one. *)
Fixpoint expand (from to : list Z) : result (list Z) :=
  match from, to with
  | [], [] => Ok []
  | a :: from', b :: to' =>
      if (a =? b) || (a =? 1)
      then rest <- expand from' to' ;; Ok (b :: rest)
      else Raise RuntimeError
  | _, _ => Raise RuntimeError
  end.

(** [torch.cat((a, b), dim=1)]. *)
Definition cat1 (a b : list Z) : result (list Z) :=
  match a, b with
  | n :: c :: rest, n' :: c' :: rest' =>
      if (n =? n') && forallb (fun p => fst p =? snd p) (combine rest rest')
         && (List.length rest =? List.length rest')%nat
      then Ok (n :: (c + c') :: rest)
      else Raise RuntimeError
  | _, _ => Raise RuntimeError
  end.

End Shape.
Import Shape.

Definition formantAnalysis : list layer :=
  [ Conv2d 1 72 (1, 3) (1, 2) (0, 1) 1; BatchNorm2d 72; LeakyReLU;
    Conv2d 72 108 (1, 3) (1, 2) (0, 1) 1; BatchNorm2d 108; LeakyReLU;
    Conv2d 108 162 (1, 3) (1, 2) (0, 1) 1; BatchNorm2d 162; LeakyReLU;
    Conv2d 162 243 (1, 3) (1, 2) (0, 1) 1; BatchNorm2d 243; LeakyReLU;
    Conv2d 243 256 (1, 2) (1, 2) (0, 0) 1; BatchNorm2d 256; LeakyReLU ].

Definition moodLen : Z := 16.

Definition articulation_block (kh sh_ : Z) : list layer :=
  [ Conv2d (256 + moodLen) (256 + moodLen) (kh, 1) (sh_, 1) (1, 0) 1;
    BatchNorm2d (256 + moodLen); LeakyReLU; Dropout2d ].

Definition articulation : list layer :=
  articulation_block 3 2 ++ articulation_block 3 2 ++ articulation_block 3 2
  ++ articulation_block 3 2 ++ articulation_block 4 4.

Definition output : list layer :=
  [ Linear (256 + moodLen) 128; Linear 128 OUTPUT_COUNT; Tanh ].

(** How [forward] is conditioned: a caller-supplied mood tensor (its
    shape), or an index tensor (its shape and its values) into the
    learned table [self.mood] of [moodSize] rows. *)
Inductive conditioning : Type :=
| ByVector (moodShape : list Z)
| ByIndex (moodSize : Z) (moodIndexShape : list Z) (moodIndex : list Z).

(** [self.mood[idx]]: one table row per index, so the shape of [idx]
    with [moodLen] appended.  An index counts from the end when negative;
    outside [-moodSize, moodSize) the gather stops the call, with
    RuntimeError on the CUDA device the table lives on. *)
Definition gather (moodSize : Z) (idxShape : list Z) (idx : list Z)
  : result (list Z) :=
  if forallb (fun v => (- moodSize <=? v) && (v <? moodSize)) idx
  then Ok (idxShape ++ [moodLen])
  else Raise RuntimeError.

(** [torch.cat((a, b), dim=0)] of two tensors of one shape. *)
Definition cat0_twice (a : list Z) : list Z := (2 * hd 0 a) :: tl a.

(** [Model.forward], on shapes. *)
Definition forward (training : bool) (inp : list Z) (c : conditioning)
  : result (list Z) :=
  out <- sequential training formantAnalysis inp ;;
  let n := hd 0 out in
  moodT <-
    match c with
    | ByVector moodShape =>
        flat <- Shape.view moodShape [-1; moodLen] ;;
        Shape.view moodShape [hd 0 flat; moodLen; 1; 1]
    | ByIndex moodSize sh idx =>
        rows <- gather moodSize sh idx ;;
        _ <- gather moodSize sh (map (fun v => v + 1) idx) ;;
        Shape.view (cat0_twice rows) [n; moodLen; 1; 1]
    end ;;
  moodE <- expand moodT [n; moodLen; 64; 1] ;;
  joined <- cat1 out moodE ;;
  out <- Shape.view joined [-1; 256 + moodLen; 64; 1] ;;
  out <- sequential training articulation out ;;
  out <- Shape.view out [-1; 256 + moodLen] ;;
  out <- sequential training output out ;;
  Shape.view out [-1; OUTPUT_COUNT].

(** Lines 241-246 on values.  [self.mood[idx]] picks one row of the
    table per index; the rows gathered for [moodIndex] and those gathered
    for [moodIndex + 1] are concatenated along axis 0, and the view gives
    one row of [moodLen] values to each of the [n] tiles. *)
Definition gather_rows (mood : matrix) (idx : list Z) : result matrix :=
  let moodSize := Z.of_nat (List.length mood) in
  if forallb (fun v => (- moodSize <=? v) && (v <? moodSize)) idx
  then Ok (map (fun v => nth (Z.to_nat (v mod moodSize)) mood []) idx)
  else Raise RuntimeError.

Definition moodOfTiles (mood : matrix) (moodIndex : list Z) (n : Z)
  : result matrix :=
  a <- gather_rows mood moodIndex ;;
  b <- gather_rows mood (map (fun v => v + 1) moodIndex) ;;
  let flat := List.concat (Torch.cat a b) in
  if Z.of_nat (List.length flat) =? n * moodLen
  then Ok (Torch.chunks (Z.to_nat n) (Z.to_nat moodLen) flat)
  else Raise RuntimeError.

(* ================================================================== *)
(** ** train: one batch *)
(* ================================================================== *)

(** Line 283: the DataLoader stacks the items of a batch, field by
    field.  [i] has the shape [(B, 1)], [inputData] the shape
    [(B, 2, 1, 64, 32)]. *)
Definition batch_index (items : list sample) : list Z :=
  List.concat (map index items).

Definition batch_input (items : list sample) : list Q :=
  List.concat (map (fun s => data (input s)) items).

(** Line 287: [inputData.view(-1, 1, 64, 32)], one row of [64 * 32]
    values per tile. *)
Definition tile_len : Z := 64 * 32.

Definition tiles (inputData : list Q) : result matrix :=
  let n := Z.of_nat (List.length inputData) in
  if n mod tile_len =? 0
  then Ok (Torch.chunks (Z.to_nat (n / tile_len)) (Z.to_nat tile_len) inputData)
  else Raise RuntimeError.

(* ================================================================== *)
(** ** train: the three losses *)
(* ================================================================== *)

(** A [(B, 2, OUTPUT_COUNT)] view is a list of [B] pairs of rows;
    [t[:, 0, :]] and [t[:, 1, :]] are its two projections. *)
Definition pairView := list (list Q * list Q).

Definition frame0 (t : pairView) : matrix := map fst t.
Definition frame1 (t : pairView) : matrix := map snd t.

Definition zipWith {A B C} (f : A -> B -> C) (a : list A) (b : list B) : list C :=
  map (fun p => f (fst p) (snd p)) (combine a b).

(** Elementwise difference of two equally shaped matrices. *)
Definition msub (a b : matrix) : matrix := zipWith (zipWith Qminus) a b.

(** [torch.nn.MSELoss(reduction='none')], over the rationals: the float32
    rounding of the squares and of the sums is left out, so a loss of
    zero here says less than in the program, where a tiny squared error
    rounds to zero. *)
Definition MSENoReductionCriterion (a b : matrix) : matrix :=
  zipWith (zipWith (fun x y => ((x - y) * (x - y))%Q)) a b.

Definition qsum (l : list Q) : Q := fold_right Qplus 0%Q l.

(** [torch.sum(m, dim=-1)]. *)
Definition sum_last (m : matrix) : list Q := map qsum m.

(** [torch.mean]; the mean of no element is NaN, here [None]. *)
Definition mean (l : list Q) : option Q :=
  match l with
  | [] => None
  | _ => Some (qsum l / inject_Z (Z.of_nat (List.length l)))%Q
  end.

Definition shapeLoss (modelResultPairView targetPairView : pairView) : option Q :=
  mean (sum_last (MSENoReductionCriterion
                    (frame0 modelResultPairView) (frame0 targetPairView))).

Definition motionLoss (modelResultPairView targetPairView : pairView) : option Q :=
  mean (sum_last (MSENoReductionCriterion
                    (msub (frame1 modelResultPairView) (frame0 modelResultPairView))
                    (msub (frame1 targetPairView) (frame0 targetPairView)))).

(** [mood_i] and [mood_i1] are the gathered rows [model.mood[i]] and
    [model.mood[i + 1]]. *)
Definition emotionLoss (mood_i mood_i1 : matrix) : option Q :=
  mean (sum_last (MSENoReductionCriterion mood_i mood_i1)).

(* ================================================================== *)
(** ** train: the epoch loop and its checkpoints *)
(* ================================================================== *)

Section Train.

(** The parameter state of the model, and the body of one epoch (the
    loop over batches of lines 282-320), which returns the new state
    with the three losses of its last batch, or raises. *)
Variable state_dict : Type.
Variable run_epoch : Z -> state_dict -> result (state_dict * (Q * Q * Q)).

Inductive event : Type :=
| add_scalar (tag : string) (value : Q) (step : Z)
| save (state : state_dict) (path : string).

Definition epochCount : Z := 50000.

Definition checkpoint_path (modelDir runStr : string) (epoch : Z) : string :=
  path_join modelDir [runStr ++ "_E" ++ format_05d epoch ++ ".pth"]%string.

Definition final_path (modelDir runStr : string) : string :=
  path_join modelDir [runStr ++ "_fin.pth"]%string.

(** What one pass of the [for epochIdx] body appends to the trace. *)
Definition epoch_events (modelDir runStr : string) (epochIdx : Z)
    (m : state_dict) (losses : Q * Q * Q) : list event :=
  let '(emotion, motion, shape_) := losses in
  [ add_scalar "emotion" emotion (epochIdx + 1);
    add_scalar "motion" motion (epochIdx + 1);
    add_scalar "shape" shape_ (epochIdx + 1) ]
  ++ (if (epochIdx + 1) mod 50 =? 0
      then [save m (checkpoint_path modelDir runStr (epochIdx + 1))]
      else []).

(** [for epochIdx in range(...)] over the indices [epochs]. *)
Fixpoint epoch_loop (modelDir runStr : string) (epochs : list Z)
    (m : state_dict) (trace : list event) : result state_dict * list event :=
  match epochs with
  | [] => (Ok m, trace)
  | epochIdx :: rest =>
      match run_epoch epochIdx m with
      | Raise e => (Raise e, trace)
      | Ok (m', losses) =>
          epoch_loop modelDir runStr rest m'
            (trace ++ epoch_events modelDir runStr epochIdx m' losses)
      end
  end.

Definition range (n : Z) : list Z := map Z.of_nat (seq 0 (Z.to_nat n)).

(** [train] with the epoch budget as a parameter. *)
Definition train_for (budget : Z) (root runStr : string) (m0 : state_dict)
  : result unit * list event :=
  let modelDir := path_join root ["model"; runStr]%string in
  match epoch_loop modelDir runStr (range budget) m0 [] with
  | (Ok m, trace) => (Ok tt, trace ++ [save m (final_path modelDir runStr)])
  | (Raise e, trace) => (Raise e, trace)
  end.

Definition train : string -> string -> state_dict -> result unit * list event :=
  train_for epochCount.

End Train.

Arguments add_scalar {state_dict} tag value step.
Arguments save {state_dict} state path.
Arguments epoch_events {state_dict} modelDir runStr epochIdx m losses.
Arguments epoch_loop {state_dict} run_epoch modelDir runStr epochs m trace.
Arguments train_for {state_dict} run_epoch budget root runStr m0.
Arguments train {state_dict} run_epoch _ _ _.

(* ================================================================== *)
(** ** What the specification says, as definitions *)
(* ================================================================== *)

(** Rows [audioIdx - 32, audioIdx + 32) of the feature sequence, every row
    number taken modulo its length [T]. *)
Definition circular_window (mfcc : matrix) (audioIdx_ : Z) : matrix :=
  let T := Z.of_nat (List.length mfcc) in
  map (fun j => nth (Z.to_nat ((audioIdx_ - 32 + Z.of_nat j) mod T)) mfcc [])
      (seq 0 64).

(** Line 39 as the specification words it: rounding to the nearest integer. *)
Definition frameCount_rounded (size1 sampleRate : Z) : result Z :=
  q <- truediv size1 sampleRate ;;
  round (animFPS * q)%float.

Definition SFfinite (x : spec_float) : bool :=
  match x with
  | S754_zero _ | S754_finite _ _ _ => true
  | S754_infinity _ | S754_nan => false
  end.

(** [c] is [v] with its fractional part dropped. *)
Definition truncation_of (v : Q) (c : Z) : Prop :=
  ((0 <= v -> inject_Z c <= v /\ v < inject_Z c + 1)
   /\ (v <= 0 -> inject_Z c - 1 < v /\ v <= inject_Z c))%Q.

(** Magnitude of a mantissa with its exponent: [0 <= m * 2^e < 2^B]. *)
Definition below (B m e : Z) : Prop := 0 <= m /\ e <= B /\ m < 2 ^ (B - e).

(** A float that is zero or finite, of magnitude below [2^B]. *)
Definition SFbelow (B : Z) (x : spec_float) : Prop :=
  match x with
  | S754_zero _ => True
  | S754_finite _ m e => below B (Zpos m) e
  | S754_infinity _ | S754_nan => False
  end.




(** Magnitude from below: [2^L <= m * 2^e], for a positive mantissa. *)
Definition atleast (L m e : Z) : Prop := 1 <= m /\ 2 ^ (L - e) <= m.

(** A float of magnitude [2^L] at least, infinity included. *)
Definition SFatleast (L : Z) (x : spec_float) : Prop :=
  match x with
  | S754_finite _ m e => atleast L (Zpos m) e
  | S754_infinity _ => True
  | S754_zero _ | S754_nan => False
  end.

(** Reading a frame number back from its decimal spelling. *)
Definition frame_number (s : string) : option Z :=
  match NilZero.uint_of_string s with
  | Some u => Some (Z.of_N (N.of_uint u))
  | None => None
  end.

(** [k] is spelled with five characters that read back as [k]. *)
Definition format_ok (k : Z) : bool :=
  (String.length (format_05d k) =? 5)%nat
  && match frame_number (format_05d k) with
     | Some z => z =? k
     | None => false
     end.

(** [p] holds of the [fuel] integers from [k] on. *)
Fixpoint all_from (fuel : nat) (k : Z) (p : Z -> bool) : bool :=
  match fuel with
  | O => true
  | S fuel' => p k && all_from fuel' (k + 1) p
  end.


Definition all_zero (l : list Q) : Prop := Forall (fun x => (x == 0)%Q) l.

(** In every pair the second frame equals the first, entry by entry. *)
Definition frames_agree (t : pairView) : Prop :=
  Forall (fun p => Forall2 Qeq (snd p) (fst p)) t.

(** The checkpoints of a trace, oldest first: path and saved state. *)
Definition saves {state_dict} (trace : list (event state_dict))
  : list (string * state_dict) :=
  flat_map (fun ev => match ev with
                      | save m path => [(path, m)]
                      | add_scalar _ _ _ => []
                      end) trace.

(** The epochs of a run, numbered from one. *)
Definition epoch_numbers (budget : Z) : list Z :=
  map Z.of_nat (seq 1 (Z.to_nat budget)).

Section TrainSpec.

Variable state_dict : Type.
Variable run_epoch : Z -> state_dict -> result (state_dict * (Q * Q * Q)).
Variables (root runStr : string) (m0 : state_dict).

(** The parameter state after the epochs [epochs], without the trace. *)
Fixpoint run_epochs (epochs : list Z) (m : state_dict) : result state_dict :=
  match epochs with
  | [] => Ok m
  | epochIdx :: rest =>
      match run_epoch epochIdx m with
      | Ok (m', _) => run_epochs rest m'
      | Raise e => Raise e
      end
  end.

Definition state_after (n : Z) : result state_dict := run_epochs (range n) m0.

(** What is expected of epoch number [e]: a file named after it when
    it is a multiple of 50, nothing otherwise. *)
Definition expected_checkpoint (st : Z -> state_dict) (e : Z)
  : list (string * state_dict) :=
  if e mod 50 =? 0
  then [(path_join (path_join root ["model"; runStr])
           [runStr ++ "_E" ++ format_05d e ++ ".pth"], st e)]%string
  else [].

End TrainSpec.

Arguments run_epochs {state_dict} run_epoch epochs m.
Arguments state_after {state_dict} run_epoch m0 n.
Arguments expected_checkpoint {state_dict} root runStr st e.

(* ================================================================== *)
(** ** Sample data *)
(* ================================================================== *)

(** A feature sequence of [n] rows; row [k] holds the number [k] 32 times. *)
Definition ramp (n : nat) : matrix :=
  map (fun k => repeat (inject_Z (Z.of_nat k)) 32) (seq 0 n).

(** One stored frame: [OUTPUT_COUNT] values, all at the top of the range. *)
Definition frame_file : list Q := repeat 2%Q (Z.to_nat OUTPUT_COUNT).

(** A disk holding the frames [mask.00001] to [mask.<n>] and nothing else. *)
Definition disk_frames (root : string) (n : nat) (path : string) : option (list Q) :=
  if existsb (String.eqb path) (map (fun k => mask_path root (Z.of_nat k)) (seq 1 n))
  then Some frame_file
  else None.

Definition w0 : world := mkWorld 0 [].

(** Root [/surat], a random source that always answers [jitter], and the
    first [frames] target files. *)
Definition env_of (jitter : bool) (frames : nat) : env :=
  mkEnv "/surat" (fun _ => jitter) (disk_frames "/surat" frames).

(** Clips, named by their number of feature rows. *)

(** A very short clip: one feature row, seven frames. *)
Definition short_clip : Data := mkData false false 7 (ramp 1).

(** A short clip: 31 feature rows for 36 frames. *)
Definition clip31 : Data := mkData false false 36 (ramp 31).

(** 40 feature rows for 45 frames. *)
Definition clip40 : Data := mkData false false 45 (ramp 40).

(** The same clip opened for preview. *)
Definition preview40 : Data := mkData true false 45 (ramp 40).

(** 55 feature rows for 60 frames. *)
Definition clip60 : Data := mkData false false 60 (ramp 55).

(** With augmentation: 512 feature rows for 498 frames. *)
Definition clip512 : Data := mkData false true 498 (ramp 512).

(** Two pairs of equal frames whose predictions are far from their
    targets. *)
Definition still_prediction : pairView :=
  [ ([1; 2; 3], [1; 2; 3]); ([0; 0; 1], [0; 0; 1]) ]%Q.

Definition still_target : pairView :=
  [ ([-1; 0; 1 # 2], [-1; 0; 1 # 2]); ([1; 1; 1], [1; 1; 1]) ]%Q.

(** A stand-in model whose state counts the epochs it has been through. *)
Definition counting_epoch (epochIdx : Z) (m : Z) : result (Z * (Q * Q * Q)) :=
  Ok (m + 1, (0, 0, 0)%Q).

(* ================================================================== *)
(** ** Further vocabulary: disks, traces, tiles, losses *)
(* ================================================================== *)

(** One target file per frame: the frames 1 to [n] are on the disk of
    [e], each with [OUTPUT_COUNT] values. *)
Definition frames_on_disk (e : env) (n : Z) : Prop :=
  forall k, 1 <= k <= n ->
    exists v, disk e (mask_path (ROOT_PATH e) k) = Some v
              /\ Z.of_nat (List.length v) = OUTPUT_COUNT.

(** A disk on which the two frames of the first pair are split unevenly:
    one and a half frames in the first file, half a frame in the second. *)
Definition uneven_env : env :=
  mkEnv "/surat" (fun _ => false)
    (fun path =>
       if String.eqb path (mask_path "/surat" 1)
       then Some (repeat 2%Q (Z.to_nat 37440))
       else if String.eqb path (mask_path "/surat" 2)
            then Some (repeat 2%Q (Z.to_nat 12480))
            else None).

(** The sign bit of [x] is [s], unless [x] is NaN. *)
Definition SFsigned (s : bool) (x : spec_float) : Prop :=
  match x with
  | S754_zero s' | S754_infinity s' | S754_finite s' _ _ => s' = s
  | S754_nan => True
  end.

(** Lines 227-249: the shape of the mood tensor before it is expanded,
    for a batch of [n] tiles. *)
Definition moodShape_of (n : Z) (c : conditioning) : result (list Z) :=
  match c with
  | ByVector moodShape =>
      flat <- Shape.view moodShape [-1; moodLen] ;;
      Shape.view moodShape [hd 0 flat; moodLen; 1; 1]
  | ByIndex moodSize sh idx =>
      rows <- gather moodSize sh idx ;;
      _ <- gather moodSize sh (map (fun v => v + 1) idx) ;;
      Shape.view (cat0_twice rows) [n; moodLen; 1; 1]
  end.

(** A mood table of [n] rows; row [k] holds the number [k] 16 times. *)
Definition mood_ramp (n : nat) : matrix :=
  map (fun k => repeat (inject_Z (Z.of_nat k)) 16) (seq 0 n).

(** Two items of [clip40], as [__getitem__] returns them for the indices
    3 and 20 (the targets play no part here and are left empty). *)
Definition two_items : list sample :=
  [ mkSample [3]
      (mkTensor [2; 1; 64; 32]
         (List.concat (circular_window (ramp 40) 2 ++ circular_window (ramp 40) 3)))
      (mkTensor [2; 0] []);
    mkSample [20]
      (mkTensor [2; 1; 64; 32]
         (List.concat (circular_window (ramp 40) 17 ++ circular_window (ramp 40) 18)))
      (mkTensor [2; 0] []) ].

(** Entry-wise equality of two matrices. *)
Definition meq (a b : matrix) : Prop := Forall2 (Forall2 Qeq) a b.

(** Two matrices with as many rows, of the same widths. *)
Definition same_shape (a b : matrix) : Prop :=
  Forall2 (fun r r' => List.length r = List.length r') a b.

(** Two losses that are equal, or both undefined. *)
Definition loss_eq (a b : option Q) : Prop :=
  match a, b with
  | Some x, Some y => (x == y)%Q
  | None, None => True
  | _, _ => False
  end.

(** The pairs [t] with the row [c_k] added to both frames of pair [k]. *)
Definition offset_pairs (cs : matrix) (t : pairView) : pairView :=
  zipWith (fun c p => (zipWith Qplus (fst p) c, zipWith Qplus (snd p) c)) cs t.

(** A prediction and a target that differ, pair by pair, by an offset. *)
Definition moving_prediction : pairView :=
  [ ([1; 2; 3], [2; 2; 2]); ([0; 0; 1], [1; 0; 0]) ]%Q.

Definition pair_offsets : matrix := [ [5; 5; 5]; [-1; 0; 1 # 3] ]%Q.

(** A prediction whose first frames are those of [still_target] and whose
    second frames are not. *)
Definition half_right_prediction : pairView :=
  [ ([-1; 0; 1 # 2], [7; 7; 7]); ([1; 1; 1], [0; 0; 0]) ]%Q.

(** The scalars of a trace, oldest first: tag, value and step. *)
Definition scalars {state_dict} (trace : list (event state_dict))
  : list (string * Q * Z) :=
  flat_map (fun ev => match ev with
                      | add_scalar tag value step => [(tag, value, step)]
                      | save _ _ => []
                      end) trace.

(** The three scalars lines 322-324 write for the epoch of index
    [epochIdx], given the losses of its last batch. *)
Definition expected_scalars (ls : Z -> Q * Q * Q) (epochIdx : Z)
  : list (string * Q * Z) :=
  let '(emotion, motion, shape_) := ls epochIdx in
  [ ("emotion", emotion, epochIdx + 1);
    ("motion", motion, epochIdx + 1);
    ("shape", shape_, epochIdx + 1) ]%string.

(** A stand-in model that counts its epochs and breaks down in the epoch
    of index [k]. *)
Definition failing_epoch (k : Z) (epochIdx : Z) (m : Z)
  : result (Z * (Q * Q * Q)) :=
  if epochIdx =? k then Raise RuntimeError else Ok (m + 1, (0, 0, 0)%Q).

(** Discharges the batch-normalisation test of every block once the batch
    is known to be large enough. *)
Ltac shapes :=
  cbn;
  repeat match goal with
         | |- context [(?x =? 1)] =>
             destruct (Z.eqb_spec x 1) as [?|?]; [exfalso; lia | cbn]
         end;
  try reflexivity.

(* ================================================================== *)
(** ** Lists: rotation, slices, flattening *)
(* ================================================================== *)

Section ListFacts.

Variable A : Type.
Implicit Types (x : list A) (d : A).

Lemma length_roll x s : List.length (Torch.roll x s) = List.length x.
Proof.
  unfold Torch.roll.
  destruct (Z.of_nat (List.length x) =? 0); [reflexivity|].
  rewrite length_app, Nat.add_comm, <- length_app.
  now rewrite firstn_skipn.
Qed.

Lemma nth_roll x s j d :
  (j < List.length x)%nat ->
  nth j (Torch.roll x s) d
  = nth (Z.to_nat ((Z.of_nat j - s) mod Z.of_nat (List.length x))) x d.
Proof.
  intros Hj. unfold Torch.roll.
  set (n := Z.of_nat (List.length x)).
  assert (Hn : 0 < n) by (unfold n; lia).
  destruct (Z.eqb_spec n 0) as [E|_]; [lia|].
  pose proof (Z.mod_pos_bound s n Hn) as Hm.
  rewrite <- Zminus_mod_idemp_r.
  set (m := s mod n) in *.
  destruct (Z_lt_le_dec (Z.of_nat j) m) as [Hlt|Hge].
  - (* the row comes from the tail of [x] *)
    rewrite app_nth1 by (rewrite length_skipn; unfold n in *; lia).
    rewrite nth_skipn. f_equal.
    replace (Z.of_nat j - m) with (Z.of_nat j - m + n + (-1) * n) by ring.
    rewrite Z.mod_add by lia.
    rewrite Z.mod_small by lia. lia.
  - (* the row comes from the head of [x] *)
    rewrite app_nth2 by (rewrite length_skipn; unfold n in *; lia).
    rewrite length_skipn, nth_firstn.
    rewrite Z.mod_small by (unfold n in *; lia).
    replace (j - (List.length x - Z.to_nat (n - m)))%nat
      with (Z.to_nat (Z.of_nat j - m)) by (unfold n in *; lia).
    destruct (Nat.ltb_spec (Z.to_nat (Z.of_nat j - m)) (Z.to_nat (n - m)));
      [reflexivity | unfold n in *; lia].
Qed.

Lemma firstn_as_map x k d :
  (k <= List.length x)%nat ->
  firstn k x = map (fun j => nth j x d) (seq 0 k).
Proof.
  revert x. induction k as [|k IH]; intros x Hk; [reflexivity|].
  destruct x as [|a x]; [simpl in Hk; lia|].
  simpl in Hk. cbn [firstn seq map nth]. f_equal.
  rewrite <- seq_shift, map_map. apply IH. lia.
Qed.

Lemma slice_as_map x lo hi d :
  0 <= lo <= hi -> hi <= Z.of_nat (List.length x) ->
  Torch.slice x lo hi
  = map (fun j => nth (Z.to_nat lo + j) x d) (seq 0 (Z.to_nat (hi - lo))).
Proof.
  intros Hlo Hhi. unfold Torch.slice, Torch.clamp_index.
  destruct (Z.ltb_spec lo 0); [lia|].
  destruct (Z.ltb_spec hi 0); [lia|].
  rewrite !Z.min_l by lia.
  rewrite firstn_as_map with (d := d) by (rewrite length_skipn; lia).
  apply map_ext. intros j. apply nth_skipn.
Qed.

End ListFacts.

Lemma length_concat_uniform (w : nat) (m : matrix) :
  wf_matrix w m -> List.length (List.concat m) = (List.length m * w)%nat.
Proof.
  induction 1 as [|r m Hr _ IH]; simpl; [reflexivity|].
  rewrite length_app, IH, Hr. reflexivity.
Qed.

Lemma wf_matrix_app w (a b : matrix) :
  wf_matrix w a -> wf_matrix w b -> wf_matrix w (a ++ b).
Proof. intros; now apply Forall_app. Qed.

(** The rotation of lines 70-84 is the window of the specification, as
    soon as the sequence has the 32 rows each half is cut from. *)
Lemma rolledWindow_circular (mfcc : matrix) (a : Z) :
  (32 <= List.length mfcc)%nat ->
  rolledWindow mfcc a = circular_window mfcc a.
Proof.
  intros HT. unfold rolledWindow, circular_window, Torch.cat, Torch.take.
  change (seq 0 64) with (seq 0 32 ++ seq 32 32).
  rewrite map_app. f_equal.
  - rewrite firstn_as_map with (d := []) by (rewrite length_roll; lia).
    apply map_ext_in. intros j Hj. apply in_seq in Hj.
    rewrite nth_roll by lia. do 3 f_equal. ring.
  - rewrite firstn_as_map with (d := []) by (rewrite length_roll; lia).
    change (seq 32 32) with (map (fun j => (j + 32)%nat) (seq 0 32)).
    rewrite map_map.
    apply map_ext_in. intros j Hj. apply in_seq in Hj.
    rewrite nth_roll by lia. do 3 f_equal. lia.
Qed.

Lemma circular_window_wf (mfcc : matrix) (a : Z) :
  wf_matrix 32 mfcc -> (0 < List.length mfcc)%nat ->
  wf_matrix 32 (circular_window mfcc a) /\ List.length (circular_window mfcc a) = 64%nat.
Proof.
  intros Hwf HT. unfold circular_window. split.
  - apply Forall_forall. intros r Hr.
    apply in_map_iff in Hr. destruct Hr as [j [<- _]].
    unfold wf_matrix in Hwf. rewrite Forall_forall in Hwf. apply Hwf.
    apply nth_In.
    pose proof (Z.mod_pos_bound (a - 32 + Z.of_nat j) (Z.of_nat (List.length mfcc))).
    lia.
  - now rewrite length_map, length_seq.
Qed.

(** Away from the edges the plain slice of line 111 is the same window. *)
Lemma slice_circular (mfcc : matrix) (a : Z) :
  32 <= a -> a + 32 <= Z.of_nat (List.length mfcc) ->
  Torch.slice mfcc (a - 32) (a + 32) = circular_window mfcc a.
Proof.
  intros Hlo Hhi. unfold circular_window.
  rewrite slice_as_map with (d := []) by lia.
  replace (Z.to_nat (a + 32 - (a - 32))) with 64%nat by lia.
  apply map_ext_in. intros j Hj. apply in_seq in Hj.
  rewrite Z.mod_small by lia. f_equal. lia.
Qed.

(* ================================================================== *)
(** ** Binary64 arithmetic on tensor-sized integers *)
(* ================================================================== *)

(** The index arithmetic of lines 64-65 converts, divides, multiplies and
    adds integers below [2^53]; the lemmas of this part bound the magnitude
    of every intermediate float, so that none is infinite or NaN and the
    final [int] returns. *)

Lemma shr_1_half (r : shr_record) :
  0 <= shr_m r -> shr_m (shr_1 r) = shr_m r / 2.
Proof.
  destruct r as [m b1 b2]. cbn [shr_m shr_1]. intros Hm.
  destruct m as [|p|p]; [reflexivity| |lia].
  destruct p as [p|p|]; cbn [shr_m].
  - rewrite Pos2Z.inj_xI. apply Z.div_unique with 1; lia.
  - rewrite Pos2Z.inj_xO. apply Z.div_unique with 0; lia.
  - reflexivity.
Qed.

Lemma iter_shr_1 (p : positive) :
  forall r, 0 <= shr_m r ->
  shr_m (iter_pos shr_1 p r) = shr_m r / 2 ^ Zpos p.
Proof.
  induction p as [p IH|p IH|]; intros r Hr; cbn [iter_pos].
  - assert (H1 : 0 <= shr_m (shr_1 r)) by (rewrite shr_1_half by lia; apply Z.div_pos; lia).
    assert (Hp : 0 < 2 ^ Zpos p) by (apply Z.pow_pos_nonneg; lia).
    assert (H2 : 0 <= shr_m (iter_pos shr_1 p (shr_1 r)))
      by (rewrite IH by lia; apply Z.div_pos; lia).
    rewrite IH, IH, shr_1_half by lia.
    rewrite !Z.div_div by lia. f_equal.
    change (2 * (2 ^ Z.pos p * 2 ^ Z.pos p)) with (2 ^ 1 * (2 ^ Z.pos p * 2 ^ Z.pos p)).
    rewrite <- !Z.pow_add_r by lia. f_equal. lia.
  - assert (Hp : 0 < 2 ^ Zpos p) by (apply Z.pow_pos_nonneg; lia).
    assert (H2 : 0 <= shr_m (iter_pos shr_1 p r))
      by (rewrite IH by lia; apply Z.div_pos; lia).
    rewrite IH, IH by lia. rewrite Z.div_div by lia. f_equal.
    rewrite <- Z.pow_add_r by lia. f_equal. lia.
  - rewrite shr_1_half by lia. reflexivity.
Qed.

Lemma digits2_pos_bound (m : positive) :
  2 ^ (Zpos (digits2_pos m) - 1) <= Zpos m < 2 ^ Zpos (digits2_pos m).
Proof.
  induction m as [m IH|m IH|]; cbn [digits2_pos]; [| |cbn; lia].
  - rewrite Pos2Z.inj_succ, Z.pow_succ_r by lia.
    replace (Z.succ (Z.pos (digits2_pos m)) - 1)
      with (Z.succ (Z.pos (digits2_pos m) - 1)) by lia.
    rewrite Z.pow_succ_r by lia.
    destruct IH as [IH1 IH2]. revert IH1 IH2.
    generalize (2 ^ (Z.pos (digits2_pos m) - 1)) (2 ^ Z.pos (digits2_pos m)). lia.
  - rewrite Pos2Z.inj_succ, Z.pow_succ_r by lia.
    replace (Z.succ (Z.pos (digits2_pos m)) - 1)
      with (Z.succ (Z.pos (digits2_pos m) - 1)) by lia.
    rewrite Z.pow_succ_r by lia.
    destruct IH as [IH1 IH2]. revert IH1 IH2.
    generalize (2 ^ (Z.pos (digits2_pos m) - 1)) (2 ^ Z.pos (digits2_pos m)). lia.
Qed.

Lemma Zdigits2_le (m k : Z) :
  0 <= m -> 0 <= k -> m < 2 ^ k -> Zdigits2 m <= k.
Proof.
  intros Hm Hk Hlt. destruct m as [|p|p]; cbn [Zdigits2]; [lia| |lia].
  destruct (Z_le_gt_dec (Zpos (digits2_pos p)) k) as [|Hgt]; [assumption|].
  pose proof (digits2_pos_bound p) as [Hlo _].
  assert (2 ^ k <= 2 ^ (Zpos (digits2_pos p) - 1)) by (apply Z.pow_le_mono_r; lia).
  lia.
Qed.

Lemma shr_m_of_loc (m : Z) (l : location) : shr_m (shr_record_of_loc m l) = m.
Proof. destruct l as [|[]]; reflexivity. Qed.

Lemma below_shift (B m e : Z) (p : positive) :
  below B m e -> e + Zpos p <= B -> below B (m / 2 ^ Zpos p) (e + Zpos p).
Proof.
  intros [Hm [He Hlt]] Hle.
  assert (0 < 2 ^ Zpos p) by (apply Z.pow_pos_nonneg; lia).
  repeat split; [apply Z.div_pos; lia | lia |].
  apply Z.div_lt_upper_bound; [lia|].
  rewrite <- Z.pow_add_r by lia.
  now replace (Z.pos p + (B - (e + Z.pos p))) with (B - e) by lia.
Qed.

Lemma shr_fexp_below (B m e : Z) (l : location) :
  -1074 <= B -> below B m e ->
  below B (shr_m (fst (shr_fexp prec emax m e l))) (snd (shr_fexp prec emax m e l)).
Proof.
  intros HB Hb. unfold shr_fexp, shr.
  destruct (fexp prec emax (Zdigits2 m + e) - e) as [|p|p] eqn:Hn;
    cbn [fst snd]; rewrite ?shr_m_of_loc; try assumption.
  rewrite iter_shr_1 by (rewrite shr_m_of_loc; apply Hb).
  rewrite shr_m_of_loc. apply below_shift; [assumption|].
  destruct Hb as [Hm [He Hlt]].
  pose proof (Zdigits2_le m (B - e) Hm ltac:(lia) Hlt) as Hd.
  unfold fexp, SpecFloat.emin in Hn. change prec with 53 in Hn.
  change (3 - emax - 53) with (-1074) in Hn. lia.
Qed.

Lemma round_nearest_even_below (B m e : Z) (l : location) :
  below B m e -> below (B + 1) (round_nearest_even m l) e.
Proof.
  intros [Hm [He Hlt]].
  assert (H2 : 2 ^ (B + 1 - e) = 2 * 2 ^ (B - e)).
  { replace (B + 1 - e) with (Z.succ (B - e)) by lia. apply Z.pow_succ_r. lia. }
  unfold below. rewrite H2.
  destruct l as [|[]]; cbn [round_nearest_even]; try destruct (Z.even m); lia.
Qed.

Lemma binary_round_aux_below (B : Z) (s : bool) (m e : Z) (l : location) :
  -1074 <= B -> B < 971 -> below B m e ->
  SFbelow (B + 1) (binary_round_aux prec emax s m e l).
Proof.
  intros HB HB' Hb. unfold binary_round_aux.
  pose proof (shr_fexp_below B m e l HB Hb) as H1.
  destruct (shr_fexp prec emax m e l) as [mrs' e']. cbn [fst snd] in H1.
  pose proof (round_nearest_even_below B _ e' (loc_of_shr_record mrs') H1) as H2.
  pose proof (shr_fexp_below (B + 1) _ e' loc_Exact ltac:(lia) H2) as H3.
  destruct (shr_fexp prec emax _ e' loc_Exact) as [mrs'' e'']. cbn [fst snd] in H3.
  destruct (shr_m mrs'') as [|p|p]; cbn [SFbelow]; [exact I| |destruct H3; lia].
  change (emax - prec) with 971.
  destruct (Z.leb_spec e'' 971) as [_|Hgt]; cbn [SFbelow]; [exact H3|].
  destruct H3 as [_ [He _]]. lia.
Qed.

Lemma below_weaken (B B' m e : Z) : B <= B' -> below B m e -> below B' m e.
Proof.
  intros HB [Hm [He Hlt]]. repeat split; try lia.
  assert (2 ^ (B - e) <= 2 ^ (B' - e)) by (apply Z.pow_le_mono_r; lia). lia.
Qed.

Lemma SFbelow_weaken (B B' : Z) (x : spec_float) :
  B <= B' -> SFbelow B x -> SFbelow B' x.
Proof. intros HB. destruct x; cbn [SFbelow]; auto. now apply below_weaken. Qed.

Lemma SFbelow_finite (B : Z) (x : spec_float) :
  SFbelow B x ->
  match x with S754_zero _ | S754_finite _ _ _ => True | _ => False end.
Proof. destruct x; cbn; auto. Qed.

Lemma iter_xO_value (m d : positive) :
  Zpos (Pos.iter xO m d) = Zpos m * 2 ^ Zpos d.
Proof.
  induction d as [|d IH] using Pos.peano_ind.
  - cbn. lia.
  - rewrite Pos.iter_succ, Pos2Z.inj_succ, Z.pow_succ_r by lia.
    change (Z.pos (Pos.iter xO m d)~0) with (2 * Z.pos (Pos.iter xO m d)).
    rewrite IH. ring.
Qed.

Lemma iter_xO_digits (m d : positive) :
  Zpos (digits2_pos (Pos.iter xO m d)) = Zpos (digits2_pos m) + Zpos d.
Proof.
  induction d as [|d IH] using Pos.peano_ind.
  - cbn [Pos.iter digits2_pos]. lia.
  - rewrite Pos.iter_succ. cbn [digits2_pos]. lia.
Qed.

Lemma shl_align_value (m : positive) (e e' : Z) :
  e' <= e ->
  Zpos (fst (shl_align m e e')) = Zpos m * 2 ^ (e - e')
  /\ snd (shl_align m e e') = e'.
Proof.
  intros Hle. unfold shl_align.
  destruct (e' - e) as [|p|p] eqn:Hd; cbn [fst snd]; [| lia |].
  - replace (e - e') with 0 by lia. split; lia.
  - rewrite iter_xO_value. replace (e - e') with (Zpos p) by lia. split; lia.
Qed.

Lemma shl_align_below (B : Z) (m : positive) (e e' : Z) :
  below B (Zpos m) e ->
  below B (Zpos (fst (shl_align m e e'))) (snd (shl_align m e e')).
Proof.
  intros Hb. unfold shl_align.
  destruct (e' - e) as [|p|p] eqn:Hd; cbn [fst snd]; try assumption.
  destruct Hb as [Hm [He Hlt]]. rewrite iter_xO_value. repeat split; try lia.
  assert (0 < 2 ^ Zpos p) by (apply Z.pow_pos_nonneg; lia).
  replace (B - e') with ((B - e) + Zpos p) by lia.
  rewrite Z.pow_add_r by lia. nia.
Qed.

Lemma binary_round_below (B : Z) (s : bool) (m : positive) (e : Z) :
  -1074 <= B -> B < 971 -> below B (Zpos m) e ->
  SFbelow (B + 1) (binary_round prec emax s m e).
Proof.
  intros HB HB' Hb. unfold binary_round.
  pose proof (shl_align_below B m e (fexp prec emax (Z.pos (digits2_pos m) + e)) Hb) as H.
  destruct (shl_align m e _) as [mz ez]. cbn [fst snd] in H.
  now apply binary_round_aux_below.
Qed.

Lemma binary_normalize_below (B z e : Z) (sz : bool) :
  -1074 <= B -> B < 971 -> below B (Z.abs z) e ->
  SFbelow (B + 1) (binary_normalize prec emax z e sz).
Proof.
  intros HB HB' Hb. destruct z as [|p|p]; cbn [binary_normalize SFbelow];
    [exact I | | ]; now apply binary_round_below.
Qed.

(** A mantissa of 53 digits with an exponent in the normal range is
    already rounded. *)
Lemma binary_round_aux_canonical (s : bool) (m : positive) (e : Z) :
  Zpos (digits2_pos m) = 53 -> -1021 <= e <= 971 ->
  binary_round_aux prec emax s (Zpos m) e loc_Exact = S754_finite s m e.
Proof.
  intros Hd He.
  assert (Hshr : shr_fexp prec emax (Zpos m) e loc_Exact
                 = (Build_shr_record (Zpos m) false false, e)).
  { unfold shr_fexp. cbn [Zdigits2]. rewrite Hd.
    replace (fexp prec emax (53 + e) - e) with 0; [reflexivity|].
    unfold fexp, SpecFloat.emin. change prec with 53. change emax with 1024. lia. }
  unfold binary_round_aux. rewrite Hshr. cbn [shr_m loc_of_shr_record round_nearest_even].
  rewrite Hshr. cbn [shr_m]. change (emax - prec) with 971.
  destruct (Z.leb_spec e 971); [reflexivity | lia].
Qed.

(** A positive integer below [2^53] converts exactly. *)
Lemma binary_normalize_int (z : positive) :
  Zpos z < 2 ^ 53 ->
  exists m e,
    binary_normalize prec emax (Zpos z) 0 false = S754_finite false m e
    /\ -52 <= e <= 0 /\ below 53 (Zpos m) e.
Proof.
  intros Hz. cbn [binary_normalize]. unfold binary_round.
  pose proof (digits2_pos_bound z) as [Hlo Hhi].
  assert (Hd : 1 <= Zpos (digits2_pos z) <= 53).
  { split; [lia|]. apply (Zdigits2_le (Zpos z) 53); lia. }
  assert (Hf : fexp prec emax (Z.pos (digits2_pos z) + 0) = Zpos (digits2_pos z) - 53).
  { unfold fexp, SpecFloat.emin. change prec with 53. change emax with 1024. lia. }
  rewrite Hf.
  assert (Hb : below 53 (Zpos z) 0) by (repeat split; lia).
  pose proof (shl_align_below 53 z 0 (Zpos (digits2_pos z) - 53) Hb) as Hb'.
  pose proof (shl_align_value z 0 (Zpos (digits2_pos z) - 53) ltac:(lia)) as [_ He].
  assert (Hdig : Zpos (digits2_pos (fst (shl_align z 0 (Zpos (digits2_pos z) - 53)))) = 53).
  { unfold shl_align.
    destruct (Zpos (digits2_pos z) - 53 - 0) as [|p|p] eqn:Hdiff; cbn [fst]; try lia.
    rewrite iter_xO_digits. lia. }
  destruct (shl_align z 0 _) as [mz ez]. cbn [fst snd] in *. subst ez.
  exists mz, (Zpos (digits2_pos z) - 53).
  rewrite binary_round_aux_canonical by lia. repeat split; try lia; apply Hb'.
Qed.

Lemma SFmul_below (Bx By : Z) (x y : spec_float) :
  -1074 <= Bx + By -> Bx + By < 971 ->
  SFbelow Bx x -> SFbelow By y ->
  SFbelow (Bx + By + 1) (SFmul prec emax x y).
Proof.
  intros HB HB' Hx Hy.
  destruct x as [sx|sx| |sx mx ex], y as [sy|sy| |sy my ey];
    cbn [SFbelow SFmul] in *; try exact I; try contradiction.
  apply binary_round_aux_below; try lia.
  destruct Hx as [_ [Hex Hmx]], Hy as [_ [Hey Hmy]].
  repeat split; try lia.
  replace (Bx + By - (ex + ey)) with ((Bx - ex) + (By - ey)) by lia.
  rewrite Z.pow_add_r by lia. rewrite Pos2Z.inj_mul.
  apply Z.mul_lt_mono_nonneg; lia.
Qed.

Lemma SFdiv_below (B K : Z) (x : spec_float) (sy : bool) (my : positive) (ey : Z) :
  -1074 <= B + K -> B + K < 971 -> - K <= ey ->
  SFbelow B x ->
  SFbelow (B + K + 1) (SFdiv prec emax x (S754_finite sy my ey)).
Proof.
  intros HB HB' HK Hx.
  destruct x as [sx|sx| |sx mx ex]; cbn [SFbelow SFdiv] in *;
    try exact I; try contradiction.
  unfold SFdiv_core_binary.
  set (e' := Z.min _ (ex - ey)).
  assert (He' : e' <= ex - ey) by apply Z.le_min_r.
  set (s := ex - ey - e').
  set (m' := match s with Zpos _ => Z.shiftl (Zpos mx) s | Z0 => Zpos mx | Zneg _ => 0 end).
  destruct Hx as [_ [Hex Hmx]].
  assert (Hm' : 0 <= m' < 2 ^ (B - ex + s)).
  { unfold m'. destruct s as [|p|p] eqn:Hs; try (unfold s in Hs; lia).
    - rewrite Z.add_0_r. lia.
    - rewrite Z.shiftl_mul_pow2 by lia.
      assert (0 < 2 ^ Zpos p) by (apply Z.pow_pos_nonneg; lia).
      rewrite Z.pow_add_r by lia. split; [lia|].
      apply Z.mul_lt_mono_pos_r; lia. }
  pose proof (Z.div_eucl_eq m' (Zpos my) ltac:(lia)) as Heq.
  pose proof (Z.mod_pos_bound m' (Zpos my) ltac:(lia)) as Hmod.
  unfold Z.modulo in Hmod.
  destruct (Z.div_eucl m' (Zpos my)) as [q r].
  apply binary_round_aux_below; try lia.
  assert (Hq : 0 <= q <= m') by nia.
  repeat split; try lia.
  assert (2 ^ (B - ex + s) <= 2 ^ (B + K - e')) by (apply Z.pow_le_mono_r; unfold s; lia).
  lia.
Qed.

Lemma SFadd_below (B : Z) (x y : spec_float) :
  -1074 <= B -> B + 1 < 971 ->
  SFbelow B x -> SFbelow B y ->
  SFbelow (B + 2) (SFadd prec emax x y).
Proof.
  intros HB HB' Hx Hy.
  destruct x as [sx|sx| |sx mx ex], y as [sy|sy| |sy my ey];
    cbn [SFbelow SFadd] in *; try contradiction.
  - destruct sx, sy; exact I.
  - apply below_weaken with B; [lia | assumption].
  - apply below_weaken with B; [lia | assumption].
  - set (ez := Z.min ex ey).
    pose proof (shl_align_value mx ex ez (Z.le_min_l _ _)) as [Vx _].
    pose proof (shl_align_value my ey ez (Z.le_min_r _ _)) as [Vy _].
    replace (B + 2) with (B + 1 + 1) by lia.
    apply binary_normalize_below; try lia.
    destruct Hx as [_ [Hex Hmx]], Hy as [_ [Hey Hmy]].
    assert (Hpx : Zpos mx * 2 ^ (ex - ez) < 2 ^ (B - ez)).
    { replace (B - ez) with ((B - ex) + (ex - ez)) by lia.
      rewrite Z.pow_add_r by (unfold ez; lia).
      apply Z.mul_lt_mono_pos_r; [apply Z.pow_pos_nonneg; unfold ez; lia | assumption]. }
    assert (Hpy : Zpos my * 2 ^ (ey - ez) < 2 ^ (B - ez)).
    { replace (B - ez) with ((B - ey) + (ey - ez)) by lia.
      rewrite Z.pow_add_r by (unfold ez; lia).
      apply Z.mul_lt_mono_pos_r; [apply Z.pow_pos_nonneg; unfold ez; lia | assumption]. }
    assert (H2 : 2 ^ (B + 1 - ez) = 2 * 2 ^ (B - ez)).
    { replace (B + 1 - ez) with (Z.succ (B - ez)) by lia.
      apply Z.pow_succ_r. unfold ez. lia. }
    repeat split; [lia | unfold ez; lia |].
    rewrite H2, Vx, Vy. unfold cond_Zopp.
    assert (0 < Zpos mx * 2 ^ (ex - ez)) by (apply Z.mul_pos_pos; [lia | apply Z.pow_pos_nonneg; unfold ez; lia]).
    assert (0 < Zpos my * 2 ^ (ey - ez)) by (apply Z.mul_pos_pos; [lia | apply Z.pow_pos_nonneg; unfold ez; lia]).
    destruct sx, sy; lia.
Qed.

Lemma is_infinity_below (B : Z) (f : float) :
  SFbelow B (Prim2SF f) -> PrimFloat.is_infinity f = false.
Proof.
  intros Hb. unfold PrimFloat.is_infinity. rewrite FloatAxioms.eqb_spec, abs_spec.
  change (Prim2SF infinity) with (S754_infinity false).
  destruct (Prim2SF f) as [s|s| |s m e]; cbn [SFbelow] in Hb; try contradiction;
    reflexivity.
Qed.

Lemma float_of_int_ok (z : Z) :
  0 <= z < 2 ^ 53 ->
  exists f, float_of_int z = Ok f
            /\ Prim2SF f = binary_normalize prec emax z 0 false
            /\ SFbelow 54 (Prim2SF f).
Proof.
  intros Hz. unfold float_of_int.
  set (x := binary_normalize prec emax z 0 false).
  assert (Hx : SFbelow 54 x).
  { apply (binary_normalize_below 53); try lia.
    repeat split; lia. }
  assert (Hv : valid_binary x = true).
  { replace x with (Prim2SF (of_uint63 (Uint63.of_Z z))); [apply Prim2SF_valid|].
    rewrite of_uint63_spec, Uint63.of_Z_spec. unfold x. f_equal.
    apply Z.mod_small. split; [lia|].
    apply Z.lt_trans with (2 ^ 53); [lia | reflexivity]. }
  pose proof (Prim2SF_SF2Prim x Hv) as Hr.
  rewrite (is_infinity_below 54) by (now rewrite Hr).
  exists (SF2Prim x). rewrite Hr. repeat split; assumption.
Qed.

(** The quotient of two tensor-sized integers is a finite float. *)
Lemma truediv_ok (a b : Z) :
  0 <= a < 2 ^ 53 -> 0 < b < 2 ^ 53 ->
  exists q, truediv a b = Ok q /\ SFbelow 107 (Prim2SF q).
Proof.
  intros Ha Hb.
  destruct (float_of_int_ok a Ha) as [fa [Ea [_ Ba]]].
  destruct (float_of_int_ok b ltac:(lia)) as [fb [Eb [Sb _]]].
  destruct b as [|b|b]; try lia.
  destruct (binary_normalize_int b ltac:(lia)) as [mb [eb [Nb [Heb _]]]].
  rewrite Nb in Sb.
  unfold truediv. cbn [Z.eqb]. rewrite Ea, Eb. cbn [rbind].
  eexists. split; [reflexivity|].
  rewrite div_spec, Sb. unfold SF64div.
  apply (SFdiv_below 54 52); try lia. assumption.
Qed.

Lemma SFbelow_SFfinite (B : Z) (x : spec_float) : SFbelow B x -> SFfinite x = true.
Proof. destruct x; cbn; intros H; (reflexivity || contradiction). Qed.

Lemma audioIdx_total (d : Data) (i r : Z) :
  0 <= i < 2 ^ 53 -> 0 <= r < 2 ^ 53 ->
  0 < count d < 2 ^ 53 -> MFCCLen d < 2 ^ 53 ->
  exists a, audioIdx d i r = Ok a.
Proof.
  intros Hi Hr Hc HT.
  assert (HT0 : 0 <= MFCCLen d) by (unfold MFCCLen; lia).
  destruct (truediv_ok (MFCCLen d) (count d) ltac:(lia) Hc) as [q [Eq Bq]].
  destruct (float_of_int_ok i Hi) as [fi [Ei [_ Bi]]].
  destruct (float_of_int_ok r Hr) as [fr [Er [_ Br]]].
  unfold audioIdx, int_mul_float, float_add_int.
  rewrite Eq. cbn [rbind]. rewrite Ei. cbn [rbind]. rewrite Er. cbn [rbind].
  unfold int.
  assert (Bp : SFbelow 162 (Prim2SF (fi * q))).
  { rewrite mul_spec. unfold SF64mul.
    apply (SFmul_below 54 107); try lia; assumption. }
  assert (Bs : SFbelow 164 (Prim2SF (fi * q + fr))).
  { rewrite add_spec. unfold SF64add.
    apply (SFadd_below 162); try lia; [assumption|].
    apply SFbelow_weaken with 54; [lia | assumption]. }
  destruct (Prim2SF (fi * q + fr)) as [s|s| |s m e];
    cbn [SFbelow] in Bs; try contradiction; cbn [SFtrunc]; eexists; reflexivity.
Qed.

(* ================================================================== *)
(** ** Rounding keeps a power of two as a bound *)
(* ================================================================== *)

(** Rounding to nearest is monotone, and a power of two within the range
    of the format is one of its values: a quantity of magnitude [2^k] at
    most is rounded to a float of magnitude [2^k] at most, and a quantity
    of magnitude [2^L] at least to one of magnitude [2^L] at least.  The
    lemmas of this part follow the mantissa through SpecFloat's rounding,
    for any precision. *)

Lemma pow2_split (a b : Z) : 0 <= a -> 0 <= b -> 2 ^ (a + b) = 2 ^ a * 2 ^ b.
Proof. intros. apply Z.pow_add_r; assumption. Qed.

Lemma pow2_pos (a : Z) : 0 <= a -> 0 < 2 ^ a.
Proof. intros. apply Z.pow_pos_nonneg; lia. Qed.




Section Rounding.

Variables p em : Z.
Hypothesis Hp : 1 <= p.




(** From below. *)
Lemma shr_fexp_atleast (L m e : Z) (l : location) :
  3 - em - p <= L ->
  atleast L m e ->
  atleast L (shr_m (fst (shr_fexp p em m e l))) (snd (shr_fexp p em m e l)).
Proof.
  intros HL [Hm1 Hm]. unfold shr_fexp, shr.
  destruct (fexp p em (Zdigits2 m + e) - e) as [|n|n] eqn:Hn;
    cbn [fst snd]; rewrite ?shr_m_of_loc; try (split; assumption).
  rewrite iter_shr_1 by (rewrite shr_m_of_loc; lia). rewrite shr_m_of_loc.
  assert (Hpn : 0 < 2 ^ Zpos n) by (apply pow2_pos; lia).
  destruct m as [|m|m]; try lia. cbn [Zdigits2] in Hn.
  pose proof (digits2_pos_bound m) as [Hlo Hhi].
  unfold fexp, SpecFloat.emin in Hn.
  assert (Hge : 2 ^ Zpos n <= Zpos m).
  { destruct (Z_le_gt_dec (3 - em - p) (Zpos (digits2_pos m) + e - p)) as [Hc|Hc].
    - assert (2 ^ Zpos n <= 2 ^ (Zpos (digits2_pos m) - 1))
        by (apply Z.pow_le_mono_r; lia). lia.
    - assert (2 ^ Zpos n <= 2 ^ (L - e)) by (apply Z.pow_le_mono_r; lia). lia. }
  split.
  - apply Z.div_le_lower_bound; lia.
  - destruct (Z_lt_le_dec (L - (e + Zpos n)) 0) as [Hneg|Hpos].
    + rewrite Z.pow_neg_r by lia. apply Z.div_pos; lia.
    + apply Z.div_le_lower_bound; [lia|].
      rewrite <- pow2_split by lia.
      now replace (Z.pos n + (L - (e + Z.pos n))) with (L - e) by lia.
Qed.

Lemma round_nearest_even_ge (m : Z) (l : location) :
  m <= round_nearest_even m l.
Proof.
  destruct l as [|[]]; cbn [round_nearest_even]; try destruct (Z.even m); lia.
Qed.

Lemma binary_round_aux_atleast (L : Z) (s : bool) (m e : Z) (l : location) :
  3 - em - p <= L ->
  atleast L m e ->
  SFatleast L (binary_round_aux p em s m e l).
Proof.
  intros HL Ha. unfold binary_round_aux.
  pose proof (shr_fexp_atleast L m e l HL Ha) as H1.
  destruct (shr_fexp p em m e l) as [mrs' e']. cbn [fst snd] in H1.
  set (m1 := round_nearest_even (shr_m mrs') (loc_of_shr_record mrs')).
  assert (H2 : atleast L m1 e').
  { pose proof (round_nearest_even_ge (shr_m mrs') (loc_of_shr_record mrs')).
    destruct H1. split; unfold m1; lia. }
  pose proof (shr_fexp_atleast L m1 e' loc_Exact HL H2) as H3.
  destruct (shr_fexp p em m1 e' loc_Exact) as [mrs'' e'']. cbn [fst snd] in H3.
  destruct (shr_m mrs'') as [|q|q] eqn:Hq; cbn [SFatleast]; try (destruct H3; lia).
  destruct (e'' <=? em - p); [exact H3 | exact I].
Qed.

Lemma SFmul_atleast (Lx Ly : Z) (x y : spec_float) :
  3 - em - p <= Lx + Ly ->
  SFatleast Lx x -> SFatleast Ly y ->
  SFatleast (Lx + Ly) (SFmul p em x y).
Proof.
  intros HL Hx Hy.
  destruct x as [sx|sx| |sx mx ex], y as [sy|sy| |sy my ey];
    cbn [SFatleast SFmul] in *; try exact I; try contradiction.
  apply binary_round_aux_atleast; [exact HL|].
  destruct Hx as [Hx1 Hx], Hy as [Hy1 Hy]. split; [nia|].
  rewrite Pos2Z.inj_mul.
  destruct (Z_lt_le_dec (Lx - ex) 0) as [Hnx|Hpx].
  - assert (2 ^ (Lx + Ly - (ex + ey)) <= 2 ^ (Ly - ey))
      by (apply Z.pow_le_mono_r; lia). nia.
  - destruct (Z_lt_le_dec (Ly - ey) 0) as [Hny|Hpy].
    + assert (2 ^ (Lx + Ly - (ex + ey)) <= 2 ^ (Lx - ex))
        by (apply Z.pow_le_mono_r; lia). nia.
    + replace (Lx + Ly - (ex + ey)) with ((Lx - ex) + (Ly - ey)) by lia.
      rewrite pow2_split by lia.
      assert (0 < 2 ^ (Lx - ex)) by (apply pow2_pos; lia).
      assert (0 < 2 ^ (Ly - ey)) by (apply pow2_pos; lia). nia.
Qed.

End Rounding.

(* ================================================================== *)
(** ** The conversion to float32 *)
(* ================================================================== *)








(* ================================================================== *)
(** ** Data.__getitem__: how a call runs *)
(* ================================================================== *)

Lemma numel_input : numel [2; 1; 64; 32] = 4096.
Proof. reflexivity. Qed.

(** With 32 rows or more, both branches of line 66 build the two circular
    windows, and the view succeeds. *)
Lemma inputValue_circular (d : Data) (a a' : Z) :
  wf_matrix 32 (MFCC d) -> (32 <= List.length (MFCC d))%nat ->
  inputValue d a a'
  = Ok (mkTensor [2; 1; 64; 32]
          (List.concat (circular_window (MFCC d) a ++ circular_window (MFCC d) a'))).
Proof.
  intros Hwf HT.
  assert (Hview : forall b b',
             Torch.view [2; 1; 64; 32]
               (Torch.cat (circular_window (MFCC d) b) (circular_window (MFCC d) b'))
             = Ok (mkTensor [2; 1; 64; 32]
                     (List.concat (circular_window (MFCC d) b
                                   ++ circular_window (MFCC d) b')))).
  { intros b b'. unfold Torch.view, Torch.cat.
    destruct (circular_window_wf (MFCC d) b Hwf) as [W1 L1]; [lia|].
    destruct (circular_window_wf (MFCC d) b' Hwf) as [W2 L2]; [lia|].
    rewrite (length_concat_uniform 32 _ (wf_matrix_app 32 _ _ W1 W2)).
    rewrite length_app, L1, L2. reflexivity. }
  unfold inputValue.
  destruct (near_edge d a a') eqn:Hedge.
  - rewrite !rolledWindow_circular by lia. apply Hview.
  - unfold near_edge, MFCCLen in Hedge.
    apply orb_false_elim in Hedge. destruct Hedge as [Hedge H4].
    apply orb_false_elim in Hedge. destruct Hedge as [Hedge H3].
    apply orb_false_elim in Hedge. destruct Hedge as [H1 H2].
    apply Z.ltb_ge in H1, H2.
    rewrite Z.gtb_ltb in H3, H4. apply Z.ltb_ge in H3, H4.
    rewrite !slice_circular by lia. apply Hview.
Qed.

(** Lines 60-65: at most one random number is drawn, and no file is
    touched. *)
Lemma audioIdxPair_run (e : env) (d : Data) (i : Z) (w : world) :
  let r := if shiftRandom d then Z.b2z (rand e (draws w)) else 0 in
  audioIdxPair e d i w
  = (a <- audioIdx d i r ;; a' <- audioIdx d (i + 1) r ;; Ok (a, a'),
     mkWorld (if shiftRandom d then S (draws w) else draws w) (opened w)).
Proof.
  unfold audioIdxPair, bind, lift, ret, randint01.
  destruct w as [n o]. destruct (shiftRandom d); cbn [draws opened];
    destruct (audioIdx d i _) as [a|x]; cbn [rbind]; try reflexivity;
    destruct (audioIdx d (i + 1) _) as [a'|x']; reflexivity.
Qed.

Lemma audioIdxPair_opened (e : env) (d : Data) (i : Z) (w : world) :
  opened (snd (audioIdxPair e d i w)) = opened w.
Proof. now rewrite audioIdxPair_run. Qed.

Lemma audioIdxPair_draws (e : env) (d : Data) (i : Z) (w : world) :
  draws (snd (audioIdxPair e d i w))
  = if shiftRandom d then S (draws w) else draws w.
Proof. now rewrite audioIdxPair_run. Qed.

(** On tensor-sized integers the index arithmetic always returns. *)
Lemma audioIdxPair_total (e : env) (d : Data) (i : Z) (w : world) :
  0 <= i -> i + 1 < 2 ^ 53 ->
  0 < count d < 2 ^ 53 -> MFCCLen d < 2 ^ 53 ->
  exists a a',
    audioIdxPair e d i w
    = (Ok (a, a'),
       mkWorld (if shiftRandom d then S (draws w) else draws w) (opened w)).
Proof.
  intros Hi Hi' Hc HT. rewrite audioIdxPair_run.
  set (r := if shiftRandom d then Z.b2z (rand e (draws w)) else 0).
  assert (Hr : 0 <= r < 2 ^ 53).
  { unfold r. destruct (shiftRandom d); [destruct (rand e (draws w))|]; cbn; lia. }
  destruct (audioIdx_total d i r ltac:(lia) Hr Hc HT) as [a Ha].
  destruct (audioIdx_total d (i + 1) r ltac:(lia) Hr Hc HT) as [a' Ha'].
  exists a, a'. rewrite Ha, Ha'. reflexivity.
Qed.

Lemma view_rows_pair (v1 v2 : list Q) :
  Z.of_nat (List.length v1) = OUTPUT_COUNT ->
  Z.of_nat (List.length v2) = OUTPUT_COUNT ->
  Torch.view_rows OUTPUT_COUNT (map Torch.float32 (v1 ++ v2))
  = Ok (mkTensor [2; OUTPUT_COUNT] (map Torch.float32 (v1 ++ v2))).
Proof.
  intros H1 H2. unfold Torch.view_rows.
  rewrite length_map, length_app, Nat2Z.inj_add, H1, H2. reflexivity.
Qed.

(** Lines 128-143 when both files are there and hold one frame each. *)
Lemma targetValue_run (e : env) (i : Z) (w : world) (v1 v2 : list Q) :
  disk e (mask_path (ROOT_PATH e) (i + 1)) = Some v1 ->
  disk e (mask_path (ROOT_PATH e) (i + 2)) = Some v2 ->
  Z.of_nat (List.length v1) = OUTPUT_COUNT ->
  Z.of_nat (List.length v2) = OUTPUT_COUNT ->
  targetValue e i w
  = (Ok (mkTensor [2; OUTPUT_COUNT] (map Torch.float32 (v1 ++ v2))),
     mkWorld (draws w) (opened w ++ [mask_path (ROOT_PATH e) (i + 1); mask_path (ROOT_PATH e) (i + 2)])).
Proof.
  intros D1 D2 L1 L2. unfold targetValue, bind, np_load, lift.
  rewrite D1. cbn [draws opened]. rewrite D2.
  rewrite (view_rows_pair _ _ L1 L2). cbn [draws opened].
  now rewrite <- app_assoc.
Qed.

(** [getitem] once the indices are known, in training mode. *)
Lemma getitem_train_run (e : env) (d : Data) (i : Z) (w w1 : world) (a a' : Z) :
  preview d = false ->
  audioIdxPair e d (wrap_index d i) w = (Ok (a, a'), w1) ->
  getitem e d i w
  = match inputValue d a a' with
    | Raise x => (Raise x, w1)
    | Ok inp =>
        match targetValue e (wrap_index d i) w1 with
        | (Ok tgt, w2) =>
            (Ok (mkSample (Torch.long_of_int (wrap_index d i)) inp
                          (Torch.scale (1 # 2) tgt)), w2)
        | (Raise x, w2) => (Raise x, w2)
        end
    end.
Proof.
  intros Hp Hidx. unfold getitem, bind at 1. rewrite Hidx.
  cbn [fst snd]. unfold bind at 1, lift at 1.
  destruct (inputValue d a a') as [inp|x]; [|reflexivity].
  rewrite Hp. unfold bind, ret.
  destruct (targetValue e (wrap_index d i) w1) as [[tgt|x] w2]; reflexivity.
Qed.

(** [getitem] once the indices are known, in preview mode. *)
Lemma getitem_preview_run (e : env) (d : Data) (i : Z) (w w1 : world) (a a' : Z) :
  preview d = true ->
  audioIdxPair e d (wrap_index d i) w = (Ok (a, a'), w1) ->
  getitem e d i w
  = match inputValue d a a' with
    | Raise x => (Raise x, w1)
    | Ok inp =>
        match Torch.select0 inp with
        | Ok inp0 =>
            (Ok (mkSample (Torch.long_of_int (wrap_index d i)) inp0
                          (Torch.zeros [1; OUTPUT_COUNT])), w1)
        | Raise x => (Raise x, w1)
        end
    end.
Proof.
  intros Hp Hidx. unfold getitem, bind at 1. rewrite Hidx.
  cbn [fst snd]. unfold bind at 1, lift at 1.
  destruct (inputValue d a a') as [inp|x]; [|reflexivity].
  rewrite Hp. unfold bind, ret, lift.
  destruct (Torch.select0 inp) as [inp0|x]; reflexivity.
Qed.

(** A training call on a sequence of at least 32 rows, with both files
    present. *)
Lemma getitem_train_ok
    (e : env) (d : Data) (i : Z) (w w1 : world) (a a' : Z) (v1 v2 : list Q) :
  preview d = false ->
  wf_matrix 32 (MFCC d) ->
  (32 <= List.length (MFCC d))%nat ->
  audioIdxPair e d (wrap_index d i) w = (Ok (a, a'), w1) ->
  disk e (mask_path (ROOT_PATH e) (wrap_index d i + 1)) = Some v1 ->
  disk e (mask_path (ROOT_PATH e) (wrap_index d i + 2)) = Some v2 ->
  Z.of_nat (List.length v1) = OUTPUT_COUNT ->
  Z.of_nat (List.length v2) = OUTPUT_COUNT ->
  getitem e d i w
  = (Ok (mkSample (Torch.long_of_int (wrap_index d i))
           (mkTensor [2; 1; 64; 32]
              (List.concat (circular_window (MFCC d) a ++ circular_window (MFCC d) a')))
           (Torch.scale (1 # 2)
                   (mkTensor [2; OUTPUT_COUNT] (map Torch.float32 (v1 ++ v2))))),
     mkWorld (draws w1)
       (opened w1 ++ [mask_path (ROOT_PATH e) (wrap_index d i + 1);
                      mask_path (ROOT_PATH e) (wrap_index d i + 2)])).
Proof.
  intros Hp Hwf HT Hidx D1 D2 L1 L2.
  rewrite (getitem_train_run e d i w w1 a a' Hp Hidx).
  rewrite (inputValue_circular d a a' Hwf HT).
  now rewrite (targetValue_run e _ w1 v1 v2 D1 D2 L1 L2).
Qed.

(** The two indices of a call, with the jitter it uses. *)
Lemma audioIdxPair_indices (e : env) (d : Data) (i : Z) (w : world) :
  0 <= i -> i + 1 < 2 ^ 53 ->
  0 < count d < 2 ^ 53 -> MFCCLen d < 2 ^ 53 ->
  let r := if shiftRandom d then Z.b2z (rand e (draws w)) else 0 in
  exists a a',
    audioIdx d i r = Ok a
    /\ audioIdx d (i + 1) r = Ok a'
    /\ audioIdxPair e d i w
       = (Ok (a, a'),
          mkWorld (if shiftRandom d then S (draws w) else draws w) (opened w)).
Proof.
  intros Hi Hi' Hc HT r.
  assert (Hr : 0 <= r < 2 ^ 53).
  { unfold r. destruct (shiftRandom d); [destruct (rand e (draws w))|]; cbn; lia. }
  destruct (audioIdx_total d i r ltac:(lia) Hr Hc HT) as [a Ha].
  destruct (audioIdx_total d (i + 1) r ltac:(lia) Hr Hc HT) as [a' Ha'].
  exists a, a'. split; [exact Ha|]. split; [exact Ha'|].
  rewrite audioIdxPair_run. fold r. rewrite Ha, Ha'. reflexivity.
Qed.

(* ================================================================== *)
(** ** Facts about the sample data *)
(* ================================================================== *)

Lemma wf_ramp (n : nat) : wf_matrix 32 (ramp n).
Proof.
  apply Forall_forall. intros r Hr. apply in_map_iff in Hr.
  destruct Hr as [k [<- _]]. apply repeat_length.
Qed.

Lemma length_ramp (n : nat) : List.length (ramp n) = n.
Proof. unfold ramp. now rewrite length_map, length_seq. Qed.

Lemma disk_frames_hit (root : string) (n k : nat) :
  (1 <= k <= n)%nat ->
  disk_frames root n (mask_path root (Z.of_nat k)) = Some frame_file.
Proof.
  intros Hk. unfold disk_frames.
  replace (existsb _ _) with true; [reflexivity|].
  symmetry. apply existsb_exists.
  exists (mask_path root (Z.of_nat k)). split.
  - apply in_map_iff. exists k. split; [reflexivity|]. apply in_seq. lia.
  - apply String.eqb_refl.
Qed.

Lemma length_frame_file : Z.of_nat (List.length frame_file) = OUTPUT_COUNT.
Proof. unfold frame_file. rewrite repeat_length. now apply Z2Nat.id. Qed.

(* ================================================================== *)
(** ** The sampler near the ends of the feature sequence *)
(* ================================================================== *)

(** The window of index 3 in a sequence of 40 rows starts at row 11 (that
    is, -29 modulo 40), runs over the end of the sequence and goes on from
    row 0: no row is repeated or filled with zeros. *)
Example circular_window_rows :
  map (fun r => hd 0%Q r) (circular_window (ramp 40) 3)
  = map (fun k => inject_Z (Z.of_nat k)) (seq 11 29 ++ seq 0 35)
  /\ rolledWindow (ramp 40) 3 = circular_window (ramp 40) 3.
Proof. split; reflexivity. Qed.

(** C1, as stated, fails: for the valid index 0 of [short_clip] (one
    feature row, seven frames) the window
    leaves the valid range, and [getitem] raises instead of returning the
    wrapped window. *)
Lemma getitem_edge_raises_on_short_sequence :
  0 <= 0 < Data_len short_clip
  /\ audioIdxPair (env_of false 7) short_clip 0 w0 = (Ok (0, 0), w0)
  /\ near_edge short_clip 0 0 = true
  /\ fst (getitem (env_of false 7) short_clip 0 w0) = Raise RuntimeError.
Proof. repeat split; vm_compute; congruence. Qed.

(** C1, amended: when the feature sequence has at least 32 rows (and the
    sizes are below 2^53), a call in training mode whose target files are
    readable returns, whether or not the window of frame i or of frame i+1
    leaves the valid range, and its input is the pair of circular windows:
    rows [audioIdx - 32, audioIdx + 32) modulo T of the feature sequence,
    for each of the two indices.  The rotation of lines 67-106 builds
    exactly these windows. *)
Theorem getitem_edge_window_circular
    (e : env) (d : Data) (i : Z) (w : world) (v1 v2 : list Q) :
  preview d = false ->
  wf_matrix 32 (MFCC d) ->
  (32 <= List.length (MFCC d))%nat ->
  MFCCLen d < 2 ^ 53 ->
  0 < count d < 2 ^ 53 ->
  0 <= wrap_index d i -> wrap_index d i + 1 < 2 ^ 53 ->
  disk e (mask_path (ROOT_PATH e) (wrap_index d i + 1)) = Some v1 ->
  disk e (mask_path (ROOT_PATH e) (wrap_index d i + 2)) = Some v2 ->
  Z.of_nat (List.length v1) = OUTPUT_COUNT ->
  Z.of_nat (List.length v2) = OUTPUT_COUNT ->
  exists a a' w1 w2,
    audioIdxPair e d (wrap_index d i) w = (Ok (a, a'), w1)
    /\ rolledWindow (MFCC d) a = circular_window (MFCC d) a
    /\ rolledWindow (MFCC d) a' = circular_window (MFCC d) a'
    /\ inputValue d a a'
       = Ok (mkTensor [2; 1; 64; 32]
               (List.concat (circular_window (MFCC d) a
                             ++ circular_window (MFCC d) a')))
    /\ getitem e d i w
       = (Ok (mkSample (Torch.long_of_int (wrap_index d i))
                (mkTensor [2; 1; 64; 32]
                   (List.concat (circular_window (MFCC d) a
                                 ++ circular_window (MFCC d) a')))
                (Torch.scale (1 # 2)
                   (mkTensor [2; OUTPUT_COUNT] (map Torch.float32 (v1 ++ v2))))),
          w2).
Proof.
  intros Hp Hwf HT HT' Hc Hi Hi' D1 D2 L1 L2.
  destruct (audioIdxPair_total e d (wrap_index d i) w Hi Hi' Hc HT') as [a [a' Hidx]].
  exists a, a'. eexists. eexists.
  split; [exact Hidx|].
  split; [now apply rolledWindow_circular|].
  split; [now apply rolledWindow_circular|].
  split; [now apply inputValue_circular|].
  rewrite (getitem_train_run e d i w _ a a' Hp Hidx).
  rewrite (inputValue_circular d a a' Hwf HT).
  rewrite (targetValue_run e _ _ v1 v2 D1 D2 L1 L2). reflexivity.
Qed.

Lemma getitem_edge_window_circular_witness :
  exists a a' w1 w2,
    audioIdxPair (env_of false 45) clip40 (wrap_index clip40 3) w0 = (Ok (a, a'), w1)
    /\ rolledWindow (MFCC clip40) a = circular_window (MFCC clip40) a
    /\ rolledWindow (MFCC clip40) a' = circular_window (MFCC clip40) a'
    /\ inputValue clip40 a a'
       = Ok (mkTensor [2; 1; 64; 32]
               (List.concat (circular_window (MFCC clip40) a
                             ++ circular_window (MFCC clip40) a')))
    /\ getitem (env_of false 45) clip40 3 w0
       = (Ok (mkSample (Torch.long_of_int (wrap_index clip40 3))
                (mkTensor [2; 1; 64; 32]
                   (List.concat (circular_window (MFCC clip40) a
                                 ++ circular_window (MFCC clip40) a')))
                (Torch.scale (1 # 2)
                   (mkTensor [2; OUTPUT_COUNT]
                      (map Torch.float32 (frame_file ++ frame_file))))),
          w2).
Proof.
  apply (getitem_edge_window_circular (env_of false 45) clip40 3 w0).
  - reflexivity.
  - apply wf_ramp.
  - vm_compute. lia.
  - vm_compute. reflexivity.
  - vm_compute. split; reflexivity.
  - vm_compute. discriminate.
  - vm_compute. reflexivity.
  - apply (disk_frames_hit "/surat" 45 4). lia.
  - apply (disk_frames_hit "/surat" 45 5). lia.
  - apply length_frame_file.
  - apply length_frame_file.
Defined.

(** On [clip40] the windows of index 3 are those of the feature rows 2 and
    3, both too close to the start. *)
Example clip40_index_3 :
  audioIdxPair (env_of false 45) clip40 3 w0 = (Ok (2, 3), w0)
  /\ near_edge clip40 2 3 = true.
Proof. split; vm_compute; reflexivity. Qed.

(* ================================================================== *)
(** ** Shapes of a training sample *)
(* ================================================================== *)

Lemma wrap_index_nonneg (d : Data) (i : Z) : 0 <= i -> wrap_index d i = i.
Proof. intros Hi. unfold wrap_index. destruct (Z.ltb_spec i 0); [lia|reflexivity]. Qed.

Lemma length_circular_pair (mfcc : matrix) (a a' : Z) :
  wf_matrix 32 mfcc -> (0 < List.length mfcc)%nat ->
  Z.of_nat (List.length (List.concat (circular_window mfcc a ++ circular_window mfcc a')))
  = 4096.
Proof.
  intros Hwf HT.
  destruct (circular_window_wf mfcc a Hwf HT) as [W1 L1].
  destruct (circular_window_wf mfcc a' Hwf HT) as [W2 L2].
  rewrite (length_concat_uniform 32 _ (wf_matrix_app 32 _ _ W1 W2)).
  rewrite length_app, L1, L2. reflexivity.
Qed.

Lemma length_concat_window (mfcc : matrix) (a : Z) :
  wf_matrix 32 mfcc -> (0 < List.length mfcc)%nat ->
  List.length (List.concat (circular_window mfcc a)) = 2048%nat.
Proof.
  intros Hwf HT. destruct (circular_window_wf mfcc a Hwf HT) as [W L].
  rewrite (length_concat_uniform 32 _ W), L. reflexivity.
Qed.

(** C2, as stated, fails: 10 is a valid index of [clip31], every target
    file is there, and no sample of any shape is returned. *)
Lemma getitem_valid_index_raises_on_short_sequence :
  0 <= 10 < count clip31 - 1
  /\ preview clip31 = false
  /\ audioIdxPair (env_of false 36) clip31 10 w0 = (Ok (8, 9), w0)
  /\ getitem (env_of false 36) clip31 10 w0 = (Raise RuntimeError, w0).
Proof. repeat split; vm_compute; congruence. Qed.

(** C2, amended: when the feature sequence has at least 32 rows of 32
    coefficients (sizes below 2^53) and the two target files hold one
    frame each, [getitem] (training mode) returns, for every index i in
    [0, frameCount - 1), an input of shape (2,1,64,32) and a target of
    shape (2, OUTPUT_COUNT), each with as many values as its shape says. *)
Theorem getitem_shapes
    (e : env) (d : Data) (i : Z) (w : world) (v1 v2 : list Q) :
  preview d = false ->
  wf_matrix 32 (MFCC d) ->
  (32 <= List.length (MFCC d))%nat ->
  MFCCLen d < 2 ^ 53 ->
  count d < 2 ^ 53 ->
  0 <= i < count d - 1 ->
  disk e (mask_path (ROOT_PATH e) (i + 1)) = Some v1 ->
  disk e (mask_path (ROOT_PATH e) (i + 2)) = Some v2 ->
  Z.of_nat (List.length v1) = OUTPUT_COUNT ->
  Z.of_nat (List.length v2) = OUTPUT_COUNT ->
  exists (s : sample) (w2 : world),
    getitem e d i w = (Ok s, w2)
    /\ shape (input s) = [2; 1; 64; 32]
    /\ shape (target s) = [2; OUTPUT_COUNT]
    /\ Z.of_nat (List.length (data (input s))) = numel (shape (input s))
    /\ Z.of_nat (List.length (data (target s))) = numel (shape (target s)).
Proof.
  intros Hp Hwf HT HT' Hc Hi D1 D2 L1 L2.
  assert (Hw : wrap_index d i = i) by (apply wrap_index_nonneg; lia).
  destruct (audioIdxPair_total e d i w ltac:(lia) ltac:(lia) ltac:(lia) HT')
    as [a [a' Hidx]].
  rewrite <- Hw in Hidx.
  eexists. eexists. split.
  - rewrite (getitem_train_run e d i w _ a a' Hp Hidx).
    rewrite (inputValue_circular d a a' Hwf HT), Hw.
    rewrite (targetValue_run e i _ v1 v2 D1 D2 L1 L2). reflexivity.
  - cbn [input target shape data Torch.scale]. repeat split.
    + rewrite length_circular_pair by (assumption || lia). reflexivity.
    + rewrite !length_map, length_app, Nat2Z.inj_add, L1, L2. reflexivity.
Qed.

Lemma getitem_shapes_witness :
  exists (s : sample) (w2 : world),
    getitem (env_of false 45) clip40 3 w0 = (Ok s, w2)
    /\ shape (input s) = [2; 1; 64; 32]
    /\ shape (target s) = [2; OUTPUT_COUNT]
    /\ Z.of_nat (List.length (data (input s))) = numel (shape (input s))
    /\ Z.of_nat (List.length (data (target s))) = numel (shape (target s)).
Proof.
  apply (getitem_shapes (env_of false 45) clip40 3 w0 frame_file frame_file).
  - reflexivity.
  - apply wf_ramp.
  - vm_compute. lia.
  - vm_compute. reflexivity.
  - vm_compute. reflexivity.
  - vm_compute. split; congruence.
  - apply (disk_frames_hit "/surat" 45 4). lia.
  - apply (disk_frames_hit "/surat" 45 5). lia.
  - apply length_frame_file.
  - apply length_frame_file.
Defined.

(* ================================================================== *)
(** ** The target loader *)
(* ================================================================== *)

Lemma all_from_spec (p : Z -> bool) (fuel : nat) :
  forall k, all_from fuel k p = true ->
  forall z, k <= z < k + Z.of_nat fuel -> p z = true.
Proof.
  induction fuel as [|fuel IH]; intros k H z Hz; [lia|].
  cbn [all_from] in H. apply andb_prop in H. destruct H as [Hk Hrest].
  destruct (Z.eq_dec z k) as [->|Hne]; [exact Hk|].
  apply (IH (k + 1) Hrest). lia.
Qed.

Lemma format_ok_below_100000 : all_from 100000 0 format_ok = true.
Proof. vm_compute. reflexivity. Qed.

(** Frame numbers below 100000 are spelled with exactly five digits, zeros
    in front, and read back as themselves. *)
Lemma format_05d_frame (n : Z) :
  0 <= n < 100000 ->
  String.length (format_05d n) = 5%nat /\ frame_number (format_05d n) = Some n.
Proof.
  intros Hn.
  assert (H : format_ok n = true).
  { apply (all_from_spec format_ok 100000 0 format_ok_below_100000).
    replace (Z.of_nat 100000) with 100000 by (vm_compute; reflexivity). lia. }
  unfold format_ok in H. apply andb_prop in H. destruct H as [H1 H2].
  split; [now apply Nat.eqb_eq|].
  destruct (frame_number (format_05d n)) as [z|]; [|discriminate].
  apply Z.eqb_eq in H2. now subst.
Qed.





(* ================================================================== *)
(** ** The frame count *)
(* ================================================================== *)

Lemma SFtrunc_spec (x : spec_float) :
  SFfinite x = true ->
  exists c, SFtrunc x = Ok c /\ truncation_of (SF2Q x) c.
Proof.
  destruct x as [s|s| |s m e]; try discriminate; intros _.
  - exists 0. split; [reflexivity|]. unfold truncation_of, SF2Q.
    split; intros _; split; unfold Qle, Qlt; simpl; lia.
  - cbn [SFtrunc SF2Q]. eexists. split; [reflexivity|].
    destruct e as [|p|p].
    + (* exponent 0 *)
      rewrite Z.shiftl_0_r, Z.pow_0_r, Z.mul_1_r.
      unfold truncation_of. destruct s; split; intros H; split;
        revert H; unfold Qle, Qlt; simpl; lia.
    + (* positive exponent: the value is an integer *)
      rewrite Z.shiftl_mul_pow2 by lia.
      assert (0 < 2 ^ Z.pos p) by (apply Z.pow_pos_nonneg; lia).
      set (n := Z.pos m * 2 ^ Z.pos p). assert (0 < n) by (unfold n; lia).
      unfold truncation_of. destruct s; split; intros H'; split;
        revert H'; unfold Qle, Qlt; simpl; lia.
    + (* negative exponent: floor of m / 2^p *)
      change (Z.shiftl (Z.pos m) (Z.neg p)) with (Z.shiftr (Z.pos m) (Z.pos p)).
      rewrite Z.shiftr_div_pow2 by lia.
      assert (HD : Z.pos (2 ^ p) = 2 ^ Z.pos p) by apply Pos2Z.inj_pow.
      assert (0 < 2 ^ Z.pos p) by (apply Z.pow_pos_nonneg; lia).
      pose proof (Z.mul_div_le (Z.pos m) (2 ^ Z.pos p) ltac:(lia)) as Hlo.
      pose proof (Z.mul_succ_div_gt (Z.pos m) (2 ^ Z.pos p) ltac:(lia)) as Hhi.
      set (c := Z.pos m / 2 ^ Z.pos p) in *.
      assert (0 <= c) by (apply Z.div_pos; lia).
      unfold truncation_of. destruct s; split; intros H'; split;
        revert H'; unfold Qle, Qlt; simpl; rewrite ?HD; nia.
Qed.

(** C4, as stated, fails: one second of audio gives 29 frames, while
    [29.97] rounds to 30 (the product exceeds 29.5). *)
Lemma frameCount_is_not_rounded :
  frameCount 16000 16000 = Ok 29
  /\ frameCount_rounded 16000 16000 = Ok 30
  /\ (inject_Z 29 + (1 # 2) < SF2Q (Prim2SF (animFPS * 1)))%Q.
Proof. repeat split; vm_compute; reflexivity. Qed.

(** C4, amended: for a waveform of fewer than 2^53 samples at a positive
    rate below 2^53, the frame count is returned and is the binary64
    product of 29.97 and the duration [size / sampleRate], truncated
    toward zero. *)
Theorem frameCount_truncates (size1 sampleRate : Z) :
  0 <= size1 < 2 ^ 53 ->
  0 < sampleRate < 2 ^ 53 ->
  exists q c,
    truediv size1 sampleRate = Ok q
    /\ frameCount size1 sampleRate = Ok c
    /\ truncation_of (SF2Q (Prim2SF (animFPS * q))) c.
Proof.
  intros Hs Hr.
  destruct (truediv_ok size1 sampleRate Hs Hr) as [q [Eq Bq]].
  assert (Bfps : SFbelow 5 (Prim2SF animFPS)) by (vm_compute; repeat split; congruence).
  assert (Bp : SFbelow 113 (Prim2SF (animFPS * q))).
  { rewrite mul_spec. unfold SF64mul.
    apply (SFmul_below 5 107); try lia; assumption. }
  destruct (SFtrunc_spec _ (SFbelow_SFfinite _ _ Bp)) as [c [Ec Hc]].
  exists q, c. split; [exact Eq|]. split; [|exact Hc].
  unfold frameCount. rewrite Eq. exact Ec.
Qed.

Lemma frameCount_truncates_witness :
  exists q c,
    truediv 265900 16000 = Ok q
    /\ frameCount 265900 16000 = Ok c
    /\ truncation_of (SF2Q (Prim2SF (animFPS * q))) c.
Proof.
  apply (frameCount_truncates 265900 16000); lia.
Defined.

(** 265900 samples at 16 kHz give 498 frames; two seconds give 59 frames,
    not 60. *)
Example frameCount_of_clips :
  frameCount 265900 16000 = Ok 498 /\ frameCount 32000 16000 = Ok 59.
Proof. split; vm_compute; reflexivity. Qed.

(** What [Data.__init__] stores: the truncated frame count of the 16 kHz
    waveform, the features, and no jitter in preview mode. *)
Lemma Data_init_fields (shiftRandom_arg : bool) (path : option string)
    (size1 sampleRate resampled : Z) (features : matrix) (d : Data) :
  Data_init shiftRandom_arg path size1 sampleRate resampled features = Ok d ->
  frameCount (if sampleRate =? 16000 then size1 else resampled) 16000 = Ok (count d)
  /\ MFCC d = features
  /\ (preview d = true <-> path <> None)
  /\ (preview d = true -> shiftRandom d = false).
Proof.
  unfold Data_init. intros H.
  destruct (frameCount _ 16000) as [c|x]; [|discriminate].
  cbn [rbind] in H. destruct (_ <? window_size); [discriminate|].
  injection H as <-. cbn [count MFCC preview shiftRandom].
  repeat split; try (destruct path; congruence).
  intros ->. apply andb_false_r.
Qed.

(* ================================================================== *)
(** ** Negative indices *)
(* ================================================================== *)

Lemma wrap_index_minus_one (d : Data) : wrap_index d (-1) = count d - 1.
Proof. unfold wrap_index. cbn. lia. Qed.

(** Index -1 is the frame [count - 1], for both modes: one past the last
    pair of the training set, whose length is [count - 1]. *)
Lemma getitem_minus_one (e : env) (d : Data) (w : world) :
  1 <= count d ->
  getitem e d (-1) w = getitem e d (count d - 1) w.
Proof.
  intros Hc. unfold getitem.
  rewrite wrap_index_minus_one, (wrap_index_nonneg d (count d - 1)) by lia.
  reflexivity.
Qed.

(** C5 on [clip60]: the training set has 59 items; item 58 (the last) is
    returned with index 58 from the files 59 and 60, whereas item -1 asks
    for the files 60 and 61 and fails on the second. *)
Theorem getitem_minus_one_reads_past_the_last_pair :
  Data_len clip60 = 59
  /\ fst (getitem (env_of false 60) clip60 (-1) w0)
     = Raise (FileNotFoundError "/surat/data/samSoar/maskSeq/mask.00061.npy")
  /\ exists s w',
       getitem (env_of false 60) clip60 (Data_len clip60 - 1) w0 = (Ok s, w')
       /\ index s = [58]
       /\ opened w' = [ "/surat/data/samSoar/maskSeq/mask.00059.npy";
                        "/surat/data/samSoar/maskSeq/mask.00060.npy" ]%string.
Proof.
  split; [reflexivity|]. split; [vm_compute; reflexivity|].
  eexists. eexists. split.
  - apply (getitem_train_ok (env_of false 60) clip60 58 w0 w0 53 54
             frame_file frame_file).
    + reflexivity.
    + apply wf_ramp.
    + vm_compute. lia.
    + vm_compute. reflexivity.
    + apply (disk_frames_hit "/surat" 60 59). lia.
    + apply (disk_frames_hit "/surat" 60 60). lia.
    + apply length_frame_file.
    + apply length_frame_file.
  - cbn [index opened]. split; reflexivity.
Qed.

(* ================================================================== *)
(** ** Preview mode *)
(* ================================================================== *)

Lemma zeros_all_zero (sh : list Z) :
  shape (Torch.zeros sh) = sh
  /\ Forall (fun v => v = 0%Q) (data (Torch.zeros sh)).
Proof.
  split; [reflexivity|]. apply Forall_forall. intros v Hv.
  now apply repeat_spec in Hv.
Qed.

Lemma select0_pair (mfcc : matrix) (a a' : Z) :
  wf_matrix 32 mfcc -> (0 < List.length mfcc)%nat ->
  Torch.select0
    (mkTensor [2; 1; 64; 32]
       (List.concat (circular_window mfcc a ++ circular_window mfcc a')))
  = Ok (mkTensor [1; 64; 32] (List.concat (circular_window mfcc a))).
Proof.
  intros Hwf HT. unfold Torch.select0. cbn [shape data Z.ltb Z.compare].
  destruct (circular_window_wf mfcc a Hwf HT) as [W L].
  rewrite concat_app. f_equal. f_equal.
  pose proof (length_concat_uniform 32 _ W) as Hlen. rewrite L in Hlen.
  replace (Z.to_nat (numel [1; 64; 32])) with (List.length (List.concat (circular_window mfcc a)) + 0)%nat
    by (rewrite Hlen; reflexivity).
  rewrite firstn_app_2. cbn [firstn]. destruct (List.concat (circular_window mfcc a'));
    now rewrite app_nil_r.
Qed.

(** A preview call on a sequence of at least 32 rows. *)
Lemma getitem_preview_ok
    (e : env) (d : Data) (i : Z) (w w1 : world) (a a' : Z) :
  preview d = true ->
  wf_matrix 32 (MFCC d) ->
  (32 <= List.length (MFCC d))%nat ->
  audioIdxPair e d (wrap_index d i) w = (Ok (a, a'), w1) ->
  getitem e d i w
  = (Ok (mkSample (Torch.long_of_int (wrap_index d i))
           (mkTensor [1; 64; 32] (List.concat (circular_window (MFCC d) a)))
           (Torch.zeros [1; OUTPUT_COUNT])),
     w1).
Proof.
  intros Hp Hwf HT Hidx.
  rewrite (getitem_preview_run e d i w w1 a a' Hp Hidx).
  rewrite (inputValue_circular d a a' Hwf HT).
  rewrite select0_pair by (assumption || lia). reflexivity.
Qed.

(** In preview mode the disk is never consulted. *)
Lemma getitem_preview_any_disk
    (e : env) (d : Data) (i : Z) (w : world) (disk' : string -> option (list Q)) :
  preview d = true ->
  getitem (mkEnv (ROOT_PATH e) (rand e) disk') d i w = getitem e d i w.
Proof.
  intros Hp.
  assert (H : audioIdxPair (mkEnv (ROOT_PATH e) (rand e) disk') d (wrap_index d i) w
              = audioIdxPair e d (wrap_index d i) w)
    by (rewrite !audioIdxPair_run; reflexivity).
  unfold getitem. rewrite Hp. unfold bind. rewrite H. reflexivity.
Qed.

(** C7, as stated, fails: the placeholder has one row, not the two rows of
    a training target. *)
Lemma preview_target_has_one_row :
  exists s w',
    getitem (env_of false 0) preview40 0 w0 = (Ok s, w')
    /\ shape (target s) = [1; OUTPUT_COUNT]
    /\ shape (target s) <> [2; OUTPUT_COUNT].
Proof.
  eexists. eexists. split.
  - apply (getitem_preview_ok (env_of false 0) preview40 0 w0 w0 0 0).
    + reflexivity.
    + apply wf_ramp.
    + vm_compute. lia.
    + vm_compute. reflexivity.
  - split; [reflexivity | discriminate].
Qed.

(** C7, amended: in preview mode (feature sequence of at least 32 rows,
    sizes below 2^53), [getitem] returns the index and the window of
    frame i alone: the 64 rows [a - 32, a + 32) modulo T of the feature
    sequence, [a] being the feature index of frame i, as a (1,64,32)
    tensor.  Its target is all zero and has the shape (1, OUTPUT_COUNT),
    one row and not the two of a training target.  The call opens no
    file, and returns the same whatever the disk holds. *)
Theorem getitem_preview_target
    (e : env) (d : Data) (i : Z) (w : world) :
  preview d = true ->
  wf_matrix 32 (MFCC d) ->
  (32 <= List.length (MFCC d))%nat ->
  MFCCLen d < 2 ^ 53 ->
  0 < count d < 2 ^ 53 ->
  0 <= wrap_index d i -> wrap_index d i + 1 < 2 ^ 53 ->
  let r := if shiftRandom d then Z.b2z (rand e (draws w)) else 0 in
  exists s w1 a,
    getitem e d i w = (Ok s, w1)
    /\ index s = Torch.long_of_int (wrap_index d i)
    /\ audioIdx d (wrap_index d i) r = Ok a
    /\ input s = mkTensor [1; 64; 32] (List.concat (circular_window (MFCC d) a))
    /\ Z.of_nat (List.length (data (input s))) = numel [1; 64; 32]
    /\ target s = Torch.zeros [1; OUTPUT_COUNT]
    /\ shape (target s) = [1; OUTPUT_COUNT]
    /\ Forall (fun v => v = 0%Q) (data (target s))
    /\ opened w1 = opened w
    /\ forall disk',
         getitem (mkEnv (ROOT_PATH e) (rand e) disk') d i w = (Ok s, w1).
Proof.
  intros Hp Hwf HT HT' Hc Hi Hi' r.
  destruct (audioIdxPair_indices e d (wrap_index d i) w Hi Hi' Hc HT')
    as [a [a' [Ha [_ Hidx]]]].
  pose proof (getitem_preview_ok e d i w _ a a' Hp Hwf HT Hidx) as Hrun.
  eexists. eexists. exists a. split; [exact Hrun|].
  cbn [index target input shape data opened].
  destruct (zeros_all_zero [1; OUTPUT_COUNT]) as [Hs Hz].
  split; [reflexivity|]. split; [exact Ha|]. split; [reflexivity|].
  split; [rewrite length_concat_window by (assumption || lia); reflexivity|].
  split; [reflexivity|]. split; [reflexivity|]. split; [exact Hz|].
  split; [reflexivity|].
  intros disk'. now rewrite getitem_preview_any_disk.
Qed.

Lemma getitem_preview_target_witness :
  let r := if shiftRandom preview40 then Z.b2z (rand (env_of false 0) (draws w0)) else 0 in
  exists s w1 a,
    getitem (env_of false 0) preview40 0 w0 = (Ok s, w1)
    /\ index s = Torch.long_of_int (wrap_index preview40 0)
    /\ audioIdx preview40 (wrap_index preview40 0) r = Ok a
    /\ input s = mkTensor [1; 64; 32] (List.concat (circular_window (MFCC preview40) a))
    /\ Z.of_nat (List.length (data (input s))) = numel [1; 64; 32]
    /\ target s = Torch.zeros [1; OUTPUT_COUNT]
    /\ shape (target s) = [1; OUTPUT_COUNT]
    /\ Forall (fun v => v = 0%Q) (data (target s))
    /\ opened w1 = opened w0
    /\ forall disk',
         getitem (mkEnv (ROOT_PATH (env_of false 0)) (rand (env_of false 0)) disk')
           preview40 0 w0 = (Ok s, w1).
Proof.
  apply (getitem_preview_target (env_of false 0) preview40 0 w0).
  - reflexivity.
  - apply wf_ramp.
  - vm_compute. lia.
  - vm_compute. reflexivity.
  - vm_compute. split; reflexivity.
  - vm_compute. discriminate.
  - vm_compute. reflexivity.
Defined.

(* ================================================================== *)
(** ** Jitter *)
(* ================================================================== *)

Lemma np_load_draws (e : env) (path : string) (w : world) :
  draws (snd (np_load e path w)) = draws w.
Proof. unfold np_load. now destruct (disk e path). Qed.

Lemma targetValue_draws (e : env) (i : Z) (w : world) :
  draws (snd (targetValue e i w)) = draws w.
Proof.
  unfold targetValue, bind, np_load, lift.
  destruct (disk e (mask_path (ROOT_PATH e) (i + 1))); [|reflexivity].
  destruct (disk e (mask_path (ROOT_PATH e) (i + 2))); reflexivity.
Qed.

(** Only lines 60-65 of a call draw random numbers. *)
Lemma getitem_draws (e : env) (d : Data) (i : Z) (w : world) :
  draws (snd (getitem e d i w))
  = draws (snd (audioIdxPair e d (wrap_index d i) w)).
Proof.
  unfold getitem, bind at 1.
  destruct (audioIdxPair e d (wrap_index d i) w) as [[[a a']|x] w1]; [|reflexivity].
  cbn [fst snd]. unfold bind at 1, lift at 1.
  destruct (inputValue d a a') as [inp|x]; [|reflexivity].
  destruct (preview d).
  - unfold bind, lift, ret. destruct (Torch.select0 inp); reflexivity.
  - unfold bind, ret.
    pose proof (targetValue_draws e (wrap_index d i) w1) as H.
    destruct (targetValue e (wrap_index d i) w1) as [[tgt|x] w2]; exact H.
Qed.

(** The index arithmetic of lines 64-65, float by float: the quotient
    [T / count], its product with the frame number, the sum with the
    jitter, and the truncation of that sum. *)
Lemma audioIdx_truncates (d : Data) (i r : Z) :
  0 <= i < 2 ^ 53 -> 0 <= r < 2 ^ 53 ->
  0 < count d < 2 ^ 53 -> MFCCLen d < 2 ^ 53 ->
  exists q p fr a,
    truediv (MFCCLen d) (count d) = Ok q
    /\ int_mul_float i q = Ok p
    /\ float_of_int r = Ok fr
    /\ audioIdx d i r = Ok a
    /\ truncation_of (SF2Q (Prim2SF (p + fr))) a.
Proof.
  intros Hi Hr Hc HT.
  assert (HT0 : 0 <= MFCCLen d) by (unfold MFCCLen; lia).
  destruct (truediv_ok (MFCCLen d) (count d) ltac:(lia) Hc) as [q [Eq Bq]].
  destruct (float_of_int_ok i Hi) as [fi [Ei [_ Bi]]].
  destruct (float_of_int_ok r Hr) as [fr [Er [_ Br]]].
  assert (Bp : SFbelow 162 (Prim2SF (fi * q))).
  { rewrite mul_spec. unfold SF64mul.
    apply (SFmul_below 54 107); try lia; assumption. }
  assert (Bs : SFbelow 164 (Prim2SF (fi * q + fr))).
  { rewrite add_spec. unfold SF64add.
    apply (SFadd_below 162); try lia; [assumption|].
    apply SFbelow_weaken with 54; [lia | assumption]. }
  destruct (SFtrunc_spec _ (SFbelow_SFfinite _ _ Bs)) as [a [Ea Ha]].
  exists q, (fi * q)%float, fr, a.
  split; [exact Eq|]. split; [unfold int_mul_float; now rewrite Ei|].
  split; [exact Er|]. split; [|exact Ha].
  unfold audioIdx, int_mul_float, float_add_int.
  rewrite Eq. cbn [rbind]. rewrite Ei. cbn [rbind]. rewrite Er. exact Ea.
Qed.

(** The float the jitter is added as holds its value exactly. *)
Lemma float_of_jitter (b : bool) (fr : float) :
  float_of_int (Z.b2z b) = Ok fr ->
  (SF2Q (Prim2SF fr) == inject_Z (Z.b2z b))%Q.
Proof.
  destruct b; cbn [Z.b2z]; intros H.
  - assert (E : float_of_int 1 = Ok 1%float) by (vm_compute; reflexivity).
    rewrite E in H. injection H as <-. vm_compute. reflexivity.
  - assert (E : float_of_int 0 = Ok 0%float) by (vm_compute; reflexivity).
    rewrite E in H. injection H as <-. vm_compute. reflexivity.
Qed.

(** C10, as stated, fails: for the valid index 248 of [clip512] the two
    windows are one row apart without jitter (254 and 255) and two rows
    apart with jitter 1 (255 and 257), because the sum is rounded before
    it is truncated. *)
Lemma jitter_changes_spacing :
  0 <= 248 < Data_len clip512
  /\ fst (audioIdxPair (env_of false 498) clip512 248 w0) = Ok (254, 255)
  /\ fst (audioIdxPair (env_of true 498) clip512 248 w0) = Ok (255, 257).
Proof. repeat split; vm_compute; congruence. Qed.

(** C10, amended: with augmentation enabled (sizes below 2^53, a positive
    frame count), a call draws exactly one random number r, 0 or 1.  The
    two feature positions are the binary64 products [p = i * (T / count)]
    and [p' = (i + 1) * (T / count)]; the same r, converted exactly, is
    added to each, and each index is its rounded sum with the fractional
    part dropped: [a = trunc (p + r)] and [a' = trunc (p' + r)]. *)
Theorem jitter_drawn_once_and_shared (e : env) (d : Data) (i : Z) (w : world) :
  shiftRandom d = true ->
  MFCCLen d < 2 ^ 53 ->
  0 < count d < 2 ^ 53 ->
  0 <= wrap_index d i -> wrap_index d i + 1 < 2 ^ 53 ->
  let r := Z.b2z (rand e (draws w)) in
  exists (q p p' fr : float) (a a' : Z),
    (r = 0 \/ r = 1)
    /\ truediv (MFCCLen d) (count d) = Ok q
    /\ int_mul_float (wrap_index d i) q = Ok p
    /\ int_mul_float (wrap_index d i + 1) q = Ok p'
    /\ float_of_int r = Ok fr
    /\ (SF2Q (Prim2SF fr) == inject_Z r)%Q
    /\ truncation_of (SF2Q (Prim2SF (p + fr))) a
    /\ truncation_of (SF2Q (Prim2SF (p' + fr))) a'
    /\ audioIdxPair e d (wrap_index d i) w
       = (Ok (a, a'), mkWorld (S (draws w)) (opened w))
    /\ draws (snd (getitem e d i w)) = S (draws w).
Proof.
  intros Hs HT Hc Hi Hi' r.
  assert (Hr : 0 <= r < 2 ^ 53) by (unfold r; destruct (rand e (draws w)); cbn; lia).
  destruct (audioIdx_truncates d (wrap_index d i) r ltac:(lia) Hr Hc HT)
    as [q [p [fr [a [Eq [Ep [Er [Ea Ha]]]]]]]].
  destruct (audioIdx_truncates d (wrap_index d i + 1) r ltac:(lia) Hr Hc HT)
    as [q' [p' [fr' [a' [Eq' [Ep' [Er' [Ea' Ha']]]]]]]].
  assert (q' = q) by congruence. assert (fr' = fr) by congruence. subst q' fr'.
  exists q, p, p', fr, a, a'.
  split; [unfold r; destruct (rand e (draws w)); [right|left]; reflexivity|].
  split; [exact Eq|]. split; [exact Ep|]. split; [exact Ep'|]. split; [exact Er|].
  split; [exact (float_of_jitter _ fr Er)|].
  split; [exact Ha|]. split; [exact Ha'|]. split.
  - rewrite audioIdxPair_run, Hs. fold r. rewrite Ea, Ea'. reflexivity.
  - rewrite getitem_draws, audioIdxPair_draws, Hs. reflexivity.
Qed.

Lemma jitter_drawn_once_and_shared_witness :
  let r := Z.b2z (rand (env_of true 498) (draws w0)) in
  exists (q p p' fr : float) (a a' : Z),
    (r = 0 \/ r = 1)
    /\ truediv (MFCCLen clip512) (count clip512) = Ok q
    /\ int_mul_float (wrap_index clip512 248) q = Ok p
    /\ int_mul_float (wrap_index clip512 248 + 1) q = Ok p'
    /\ float_of_int r = Ok fr
    /\ (SF2Q (Prim2SF fr) == inject_Z r)%Q
    /\ truncation_of (SF2Q (Prim2SF (p + fr))) a
    /\ truncation_of (SF2Q (Prim2SF (p' + fr))) a'
    /\ audioIdxPair (env_of true 498) clip512 (wrap_index clip512 248) w0
       = (Ok (a, a'), mkWorld (S (draws w0)) (opened w0))
    /\ draws (snd (getitem (env_of true 498) clip512 248 w0)) = S (draws w0).
Proof.
  apply (jitter_drawn_once_and_shared (env_of true 498) clip512 248 w0).
  - reflexivity.
  - vm_compute. reflexivity.
  - vm_compute. split; reflexivity.
  - vm_compute. discriminate.
  - vm_compute. reflexivity.
Defined.

(* ================================================================== *)
(** ** The encoder *)
(* ================================================================== *)

Lemma filter_no_hole (l : list Z) :
  forallb (fun k => negb (k =? -1)) l = true ->
  filter (fun k => negb (k =? -1)) l = l
  /\ filter (fun k => k =? -1) l = []
  /\ forall v, map (fun k => if k =? -1 then v else k) l = l.
Proof.
  induction l as [|k l IH]; intros H; [repeat split|].
  cbn [forallb] in H. apply andb_prop in H. destruct H as [Hk Hl].
  destruct (IH Hl) as [F1 [F2 F3]]. cbn [filter map].
  rewrite Hk. apply negb_true_iff in Hk. rewrite Hk, F1, F2.
  repeat split. intros v. now rewrite F3.
Qed.

(** [t.view(-1, rest')] of a tensor [(b, rest)] with as many values per
    leading index keeps the leading extent. *)
Lemma view_lead (b : Z) (rest rest' : list Z) :
  forallb (fun k => negb (k =? -1)) rest' = true ->
  numel rest = numel rest' ->
  (numel rest' =? 0) = false ->
  Shape.view (b :: rest) (-1 :: rest') = Ok (b :: rest').
Proof.
  intros Hno Heq Hnz. unfold Shape.view.
  destruct (filter_no_hole rest' Hno) as [F1 [F2 F3]].
  cbn [filter Z.eqb Pos.eqb negb]. rewrite F1, F2. cbn [List.length].
  rewrite Hnz. cbn [orb].
  assert (Hn : numel (b :: rest) = b * numel rest') by (cbn [numel fold_right]; now rewrite <- Heq).
  apply Z.eqb_neq in Hnz.
  rewrite Hn, Z.mod_mul by assumption. cbn [Z.eqb Pos.eqb negb map].
  rewrite Z.div_mul by assumption. now rewrite F3.
Qed.

(** [Model.forward] on a batch, conditioned by one supplied mood vector:
    the 64 rows the encoder leaves are the axis the mood is expanded
    along and the one [articulation] collapses. *)
Lemma forward_shape (training : bool) (batch : Z) :
  (if training then 2 else 1) <= batch ->
  forward training [batch; 1; 64; 32] (ByVector [moodLen])
  = Ok [batch; OUTPUT_COUNT].
Proof.
  intros Hb.
  assert (Henc : sequential training formantAnalysis [batch; 1; 64; 32]
                 = Ok [batch; 256; 64; 1])
    by (destruct training; shapes).
  assert (Hexp : expand [1; moodLen; 1; 1] [batch; moodLen; 64; 1]
                 = Ok [batch; moodLen; 64; 1])
    by (cbn; now rewrite orb_true_r).
  assert (Hcat : cat1 [batch; 256; 64; 1] [batch; moodLen; 64; 1]
                 = Ok [batch; 256 + moodLen; 64; 1])
    by (unfold cat1; now rewrite Z.eqb_refl).
  assert (Hart : sequential training articulation [batch; 256 + moodLen; 64; 1]
                 = Ok [batch; 256 + moodLen; 1; 1])
    by (destruct training; shapes).
  assert (Hout : sequential training output [batch; 256 + moodLen]
                 = Ok [batch; OUTPUT_COUNT])
    by reflexivity.
  unfold forward. rewrite Henc. cbn [rbind hd].
  change (flat <- Shape.view [moodLen] [-1; moodLen] ;;
          Shape.view [moodLen] [hd 0 flat; moodLen; 1; 1])
    with (Ok [1; moodLen; 1; 1]).
  cbn [rbind]. rewrite Hexp. cbn [rbind]. rewrite Hcat. cbn [rbind].
  rewrite view_lead by reflexivity. cbn [rbind].
  rewrite Hart. cbn [rbind].
  rewrite view_lead by reflexivity. cbn [rbind].
  rewrite Hout. cbn [rbind].
  now rewrite view_lead by reflexivity.
Qed.

(** C6, as stated, fails: the 64-row axis is still there after the fifth
    block. *)
Lemma formantAnalysis_keeps_64_rows :
  sequential true formantAnalysis [1; 1; 64; 32] = Ok [1; 256; 64; 1]
  /\ sequential true formantAnalysis [1; 1; 64; 32] <> Ok [1; 256; 1; 1].
Proof. split; [reflexivity | discriminate]. Qed.

(** C6, amended: on a tile (batch,1,64,32) the five blocks give the
    channel widths 72, 108, 162, 243 and 256 while the last axis shrinks
    32 -> 16 -> 8 -> 4 -> 2 -> 1; the output is (batch,256,64,1).  The last
    block collapses the 32-wide coefficient axis; the 64 rows are kept, and
    [forward] attaches the mood along them. *)
Theorem formantAnalysis_shape (training : bool) (batch : Z) :
  1 <= batch ->
  sequential training (firstn 3 formantAnalysis) [batch; 1; 64; 32]
  = Ok [batch; 72; 64; 16]
  /\ sequential training (firstn 6 formantAnalysis) [batch; 1; 64; 32]
     = Ok [batch; 108; 64; 8]
  /\ sequential training (firstn 9 formantAnalysis) [batch; 1; 64; 32]
     = Ok [batch; 162; 64; 4]
  /\ sequential training (firstn 12 formantAnalysis) [batch; 1; 64; 32]
     = Ok [batch; 243; 64; 2]
  /\ sequential training formantAnalysis [batch; 1; 64; 32]
     = Ok [batch; 256; 64; 1]
  /\ forward false [batch; 1; 64; 32] (ByVector [moodLen])
     = Ok [batch; OUTPUT_COUNT].
Proof.
  intros Hb. repeat split.
  6: exact (forward_shape false batch Hb).
  all: destruct training; shapes.
Qed.

Lemma formantAnalysis_shape_witness :
  sequential true (firstn 3 formantAnalysis) [1024; 1; 64; 32]
  = Ok [1024; 72; 64; 16]
  /\ sequential true (firstn 6 formantAnalysis) [1024; 1; 64; 32]
     = Ok [1024; 108; 64; 8]
  /\ sequential true (firstn 9 formantAnalysis) [1024; 1; 64; 32]
     = Ok [1024; 162; 64; 4]
  /\ sequential true (firstn 12 formantAnalysis) [1024; 1; 64; 32]
     = Ok [1024; 243; 64; 2]
  /\ sequential true formantAnalysis [1024; 1; 64; 32]
     = Ok [1024; 256; 64; 1]
  /\ forward false [1024; 1; 64; 32] (ByVector [moodLen])
     = Ok [1024; OUTPUT_COUNT].
Proof. apply (formantAnalysis_shape true 1024). lia. Defined.

(** One training batch: the pairs 0 to 1023 of a clip of 4000 frames,
    conditioned by index. *)
Example forward_training_batch :
  forward true [2048; 1; 64; 32]
    (ByIndex 4000 [1024; 1] (map Z.of_nat (seq 0 1024)))
  = Ok [2048; OUTPUT_COUNT].
Proof. vm_compute. reflexivity. Qed.

(* ================================================================== *)
(** ** The motion loss *)
(* ================================================================== *)

Lemma qsum_all_zero (l : list Q) : all_zero l -> (qsum l == 0)%Q.
Proof.
  induction 1 as [|x l Hx _ IH]; cbn [qsum fold_right]; [reflexivity|].
  fold (qsum l). rewrite Hx, IH. reflexivity.
Qed.

Lemma zipWith_cons {A B C} (f : A -> B -> C) a l b l' :
  zipWith f (a :: l) (b :: l') = f a b :: zipWith f l l'.
Proof. reflexivity. Qed.

(** The difference of two rows that agree entry by entry. *)
Lemma delta_of_equal_rows (r1 r0 : list Q) :
  Forall2 Qeq r1 r0 -> all_zero (zipWith Qminus r1 r0).
Proof.
  induction 1 as [|x y l l' Hxy _ IH]; [constructor|].
  rewrite zipWith_cons. constructor; [|exact IH].
  rewrite Hxy. ring.
Qed.

(** The squared error between two rows of zeros. *)
Lemma squared_error_of_zero_rows (a b : list Q) :
  all_zero a -> all_zero b ->
  all_zero (zipWith (fun x y => ((x - y) * (x - y))%Q) a b).
Proof.
  intros Ha. revert b. induction Ha as [|x l Hx _ IH]; intros b Hb; [constructor|].
  destruct Hb as [|y l' Hy Hl']; [constructor|].
  rewrite zipWith_cons. constructor; [|now apply IH].
  rewrite Hx, Hy. ring.
Qed.

Lemma delta_of_still_pairs (t : pairView) :
  frames_agree t -> Forall all_zero (msub (frame1 t) (frame0 t)).
Proof.
  induction 1 as [|p t Hp _ IH]; [constructor|].
  unfold msub, frame1, frame0. cbn [map]. rewrite zipWith_cons.
  constructor; [now apply delta_of_equal_rows | exact IH].
Qed.

Lemma per_example_error_zero (a b : matrix) :
  Forall all_zero a -> Forall all_zero b ->
  all_zero (sum_last (MSENoReductionCriterion a b)).
Proof.
  intros Ha. revert b. induction Ha as [|x l Hx _ IH]; intros b Hb; [constructor|].
  destruct Hb as [|y l' Hy Hl']; [constructor|].
  unfold MSENoReductionCriterion. rewrite zipWith_cons. cbn [sum_last map].
  constructor; [|now apply IH].
  apply qsum_all_zero. now apply squared_error_of_zero_rows.
Qed.

Lemma length_zipWith {A B C} (f : A -> B -> C) (a : list A) (b : list B) :
  List.length (zipWith f a b) = Nat.min (List.length a) (List.length b).
Proof. unfold zipWith. now rewrite length_map, length_combine. Qed.

Lemma mean_all_zero (l : list Q) :
  l <> [] -> all_zero l -> exists q, mean l = Some q /\ (q == 0)%Q.
Proof.
  intros Hne Hz. destruct l as [|x l]; [congruence|].
  eexists. split; [reflexivity|].
  rewrite (qsum_all_zero _ Hz). unfold Qdiv. ring.
Qed.

(** C9: for a non-empty batch in which, for every pair, the second
    prediction equals the first and the second target equals the first,
    the motion loss is zero, whatever the predictions and targets are (no
    relation between them is assumed); the shape loss is left free. *)
Theorem motionLoss_zero_for_still_pairs (modelResultPairView targetPairView : pairView) :
  modelResultPairView <> [] ->
  List.length modelResultPairView = List.length targetPairView ->
  frames_agree modelResultPairView ->
  frames_agree targetPairView ->
  exists q, motionLoss modelResultPairView targetPairView = Some q /\ (q == 0)%Q.
Proof.
  intros Hne Hlen Hp Ht. unfold motionLoss.
  apply mean_all_zero.
  - intros Hnil. apply (f_equal (@List.length Q)) in Hnil.
    unfold sum_last, MSENoReductionCriterion, msub, frame1, frame0 in Hnil.
    rewrite length_map, !length_zipWith, !length_map, <- Hlen in Hnil.
    destruct modelResultPairView; [congruence | discriminate].
  - apply per_example_error_zero; now apply delta_of_still_pairs.
Qed.

Lemma motionLoss_zero_for_still_pairs_witness :
  exists q, motionLoss still_prediction still_target = Some q /\ (q == 0)%Q.
Proof.
  apply (motionLoss_zero_for_still_pairs still_prediction still_target).
  - discriminate.
  - reflexivity.
  - repeat constructor.
  - repeat constructor.
Defined.

(** On the same batch the shape loss is not zero. *)
Example shapeLoss_of_still_pairs :
  exists q, shapeLoss still_prediction still_target = Some q /\ ~ (q == 0)%Q.
Proof. eexists. split; [reflexivity|]. vm_compute. discriminate. Qed.

(* ================================================================== *)
(** ** Checkpoints *)
(* ================================================================== *)

Section TrainFacts.

Variable state_dict : Type.
Variable run_epoch : Z -> state_dict -> result (state_dict * (Q * Q * Q)).
Variables (root runStr : string) (m0 : state_dict).

Let modelDir : string := path_join root ["model"; runStr]%string.

Lemma run_epochs_app (l l' : list Z) (m : state_dict) :
  run_epochs run_epoch (l ++ l') m
  = (m' <- run_epochs run_epoch l m ;; run_epochs run_epoch l' m').
Proof.
  revert m. induction l as [|k l IH]; intros m; [reflexivity|].
  cbn [app run_epochs]. destruct (run_epoch k m) as [[m' ?]|x]; [apply IH|reflexivity].
Qed.

Lemma range_succ (a : nat) :
  range (Z.of_nat (S a)) = range (Z.of_nat a) ++ [Z.of_nat a].
Proof.
  unfold range. rewrite !Nat2Z.id, seq_S, map_app. reflexivity.
Qed.

Variable st : Z -> state_dict.
Variable budget : Z.
Hypothesis completes :
  forall j, 0 <= j <= budget -> state_after run_epoch m0 j = Ok (st j).

(** Each epoch of a completed run takes the state [st a] to [st (a+1)]. *)
Lemma epoch_step (a : nat) :
  Z.of_nat a < budget ->
  exists losses,
    run_epoch (Z.of_nat a) (st (Z.of_nat a)) = Ok (st (Z.of_nat a + 1), losses).
Proof.
  intros Ha.
  pose proof (completes (Z.of_nat a) ltac:(lia)) as H0.
  pose proof (completes (Z.of_nat (S a)) ltac:(lia)) as H1.
  unfold state_after in H0, H1.
  rewrite range_succ, run_epochs_app, H0 in H1. cbn [rbind run_epochs] in H1.
  destruct (run_epoch (Z.of_nat a) (st (Z.of_nat a))) as [[m' losses]|x];
    [|discriminate].
  exists losses. injection H1 as ->. do 3 f_equal. lia.
Qed.

Lemma saves_app (t1 t2 : list (event state_dict)) :
  saves (t1 ++ t2) = saves t1 ++ saves t2.
Proof. apply flat_map_app. Qed.

Lemma saves_epoch_events (epochIdx : Z) (losses : Q * Q * Q) :
  saves (epoch_events modelDir runStr epochIdx (st (epochIdx + 1)) losses)
  = expected_checkpoint root runStr st (epochIdx + 1).
Proof.
  unfold epoch_events, expected_checkpoint, checkpoint_path.
  destruct losses as [[emotion motion] shape_].
  destruct ((epochIdx + 1) mod 50 =? 0); reflexivity.
Qed.

(** The loop from epoch index [a] on, started in the state [st a]. *)
Lemma epoch_loop_run (len : nat) :
  forall (a : nat) (trace : list (event state_dict)),
    Z.of_nat (a + len) <= budget ->
    exists tail,
      epoch_loop run_epoch modelDir runStr (map Z.of_nat (seq a len))
        (st (Z.of_nat a)) trace
      = (Ok (st (Z.of_nat (a + len))), trace ++ tail)
      /\ saves tail
         = flat_map (expected_checkpoint root runStr st) (map Z.of_nat (seq (S a) len)).
Proof.
  induction len as [|len IH]; intros a trace Hle.
  - exists []. rewrite Nat.add_0_r, app_nil_r. split; reflexivity.
  - cbn [seq map epoch_loop].
    assert (Ha : Z.of_nat a < budget) by lia.
    assert (Hle' : Z.of_nat (S a + len) <= budget) by lia.
    destruct (epoch_step a Ha) as [losses Hstep]. rewrite Hstep.
    replace (Z.of_nat a + 1) with (Z.of_nat (S a)) by lia.
    destruct (IH (S a)
                (trace ++ epoch_events modelDir runStr (Z.of_nat a)
                            (st (Z.of_nat (S a))) losses)
                Hle') as [tail [Hrun Hsaves]].
    exists (epoch_events modelDir runStr (Z.of_nat a) (st (Z.of_nat (S a))) losses
            ++ tail).
    split.
    + rewrite Hrun, <- app_assoc. do 3 f_equal. lia.
    + rewrite saves_app, Hsaves. cbn [flat_map]. f_equal.
      replace (Z.of_nat (S a)) with (Z.of_nat a + 1) by lia.
      apply saves_epoch_events.
Qed.

(** A completed run: the checkpoints written, in order. *)
Lemma train_for_saves :
  0 <= budget ->
  exists trace,
    train_for run_epoch budget root runStr m0 = (Ok tt, trace)
    /\ saves trace
       = flat_map (expected_checkpoint root runStr st) (epoch_numbers budget)
         ++ [(path_join modelDir [runStr ++ "_fin.pth"]%string, st budget)].
Proof.
  intros Hb. unfold train_for. fold modelDir.
  assert (H0 : m0 = st 0).
  { pose proof (completes 0 ltac:(lia)) as H. unfold state_after in H.
    cbn in H. congruence. }
  assert (Hle : Z.of_nat (0 + Z.to_nat budget) <= budget) by lia.
  destruct (epoch_loop_run (Z.to_nat budget) 0 [] Hle) as [tail [Hrun Hsaves]].
  replace (Z.of_nat (0 + Z.to_nat budget)) with budget in Hrun by lia.
  unfold range. cbn [Z.of_nat] in Hrun. rewrite <- H0 in Hrun. rewrite Hrun.
  eexists. split; [reflexivity|].
  cbn [app]. rewrite saves_app, Hsaves. reflexivity.
Qed.

End TrainFacts.

(** C8: in a run of [train] that completes, where [st e] is the parameter
    state after [e] epochs, the files written are, in this order,
    [<run>_E<e, five digits>.pth] holding [st e] for exactly the epochs [e]
    of 1..50000 that are multiples of 50, and then [<run>_fin.pth] holding
    the final state; nothing else is saved. *)
Theorem train_checkpoints
    (state_dict : Type)
    (run_epoch : Z -> state_dict -> result (state_dict * (Q * Q * Q)))
    (root runStr : string) (m0 : state_dict) (st : Z -> state_dict) :
  (forall j, 0 <= j <= epochCount -> state_after run_epoch m0 j = Ok (st j)) ->
  let modelDir := path_join root ["model"; runStr]%string in
  let checkpoint e :=
    path_join modelDir [runStr ++ "_E" ++ format_05d e ++ ".pth"]%string in
  let final := path_join modelDir [runStr ++ "_fin.pth"]%string in
  exists trace,
    train run_epoch root runStr m0 = (Ok tt, trace)
    /\ saves trace
       = flat_map (fun e => if e mod 50 =? 0 then [(checkpoint e, st e)] else [])
           (epoch_numbers epochCount)
         ++ [(final, st epochCount)]
    /\ forall p m,
         In (p, m) (saves trace)
         <-> (p = final /\ m = st epochCount)
             \/ exists e, 1 <= e <= epochCount /\ e mod 50 = 0
                          /\ p = checkpoint e /\ m = st e.
Proof.
  intros Hst modelDir checkpoint final.
  destruct (train_for_saves state_dict run_epoch root runStr m0 st epochCount Hst)
    as [trace [Hrun Hsaves]]; [unfold epochCount; lia|].
  exists trace. split; [exact Hrun|]. split; [exact Hsaves|].
  intros p m. rewrite Hsaves, in_app_iff, in_flat_map. split.
  - intros [[e [He Hin]]|Hin].
    + right. unfold epoch_numbers in He. apply in_map_iff in He.
      destruct He as [k [<- Hk]]. apply in_seq in Hk.
      unfold expected_checkpoint in Hin.
      destruct (Z.eqb_spec (Z.of_nat k mod 50) 0) as [Hmod|_]; [|destruct Hin].
      destruct Hin as [Hin|[]]. injection Hin as <- <-.
      exists (Z.of_nat k). unfold epochCount in *. repeat split; try lia; reflexivity.
    + left. destruct Hin as [Hin|[]]. injection Hin as <- <-. now split.
  - intros [[-> ->]|[e [He [Hmod [-> ->]]]]].
    + right. now left.
    + left. exists e. split.
      * unfold epoch_numbers. apply in_map_iff. exists (Z.to_nat e).
        split; [lia|]. apply in_seq. lia.
      * unfold expected_checkpoint. rewrite Hmod. now left.
Qed.

Lemma counting_run (epochs : list Z) (m : Z) :
  run_epochs counting_epoch epochs m = Ok (m + Z.of_nat (List.length epochs)).
Proof.
  revert m. induction epochs as [|k l IH]; intros m; cbn [run_epochs counting_epoch].
  - f_equal. cbn. lia.
  - rewrite IH. f_equal. cbn [List.length]. lia.
Qed.

Lemma counting_state_after (j : Z) :
  0 <= j -> state_after counting_epoch 0 j = Ok j.
Proof.
  intros Hj. unfold state_after. rewrite counting_run. unfold range.
  rewrite length_map, length_seq. f_equal. lia.
Qed.

Lemma train_checkpoints_witness :
  let modelDir := path_join "/surat" ["model"; "26_11_03_10_00_00"]%string in
  let checkpoint e :=
    path_join modelDir ["26_11_03_10_00_00" ++ "_E" ++ format_05d e ++ ".pth"]%string in
  let final := path_join modelDir ["26_11_03_10_00_00" ++ "_fin.pth"]%string in
  exists trace,
    train counting_epoch "/surat" "26_11_03_10_00_00" 0 = (Ok tt, trace)
    /\ saves trace
       = flat_map (fun e => if e mod 50 =? 0 then [(checkpoint e, e)] else [])
           (epoch_numbers epochCount)
         ++ [(final, epochCount)]
    /\ forall p m,
         In (p, m) (saves trace)
         <-> (p = final /\ m = epochCount)
             \/ exists e, 1 <= e <= epochCount /\ e mod 50 = 0
                          /\ p = checkpoint e /\ m = e.
Proof.
  apply (train_checkpoints Z counting_epoch "/surat" "26_11_03_10_00_00" 0
           (fun j => j)).
  intros j Hj. apply counting_state_after. lia.
Defined.

(** A run of 100 epochs, in full: two numbered checkpoints and the final
    one. *)
Example train_for_100_epochs :
  saves (snd (train_for counting_epoch 100 "/surat" "run" 0))
  = [ ("/surat/model/run/run_E00050.pth", 50);
      ("/surat/model/run/run_E00100.pth", 100);
      ("/surat/model/run/run_fin.pth", 100) ]%string.
Proof. vm_compute. reflexivity. Qed.

(* ================================================================== *)
(** ** The sampler: length, missing files, effects *)
(* ================================================================== *)

Lemma targetValue_first_missing (e : env) (i : Z) (w : world) :
  disk e (mask_path (ROOT_PATH e) (i + 1)) = None ->
  targetValue e i w
  = (Raise (FileNotFoundError (mask_path (ROOT_PATH e) (i + 1))),
     mkWorld (draws w) (opened w ++ [mask_path (ROOT_PATH e) (i + 1)])).
Proof.
  intros D1. unfold targetValue, bind, np_load. now rewrite D1.
Qed.

Lemma targetValue_second_missing (e : env) (i : Z) (w : world) (v1 : list Q) :
  disk e (mask_path (ROOT_PATH e) (i + 1)) = Some v1 ->
  disk e (mask_path (ROOT_PATH e) (i + 2)) = None ->
  targetValue e i w
  = (Raise (FileNotFoundError (mask_path (ROOT_PATH e) (i + 2))),
     mkWorld (draws w)
       (opened w ++ [mask_path (ROOT_PATH e) (i + 1);
                     mask_path (ROOT_PATH e) (i + 2)])).
Proof.
  intros D1 D2. unfold targetValue, bind, np_load. rewrite D1.
  cbn [draws opened]. rewrite D2. now rewrite <- app_assoc.
Qed.

Lemma frames_on_disk_env_of (jitter : bool) (n : nat) :
  frames_on_disk (env_of jitter n) (Z.of_nat n).
Proof.
  intros k Hk. exists frame_file. split; [|apply length_frame_file].
  cbn [env_of disk ROOT_PATH].
  rewrite <- (Z2Nat.id k) by lia. apply disk_frames_hit. lia.
Qed.

(** X1.  [__len__] is exactly the number of indices [__getitem__] can
    serve.  In training mode, on a clip of at least 32 feature rows with
    one target file per frame (frames 1 to [count]), every index from 0
    to [len - 1] returns a sample; the index [len] itself asks for the
    frame [count + 1] and raises FileNotFoundError when that file is not
    there. *)
Theorem Data_len_is_the_served_range (e : env) (d : Data) (w : world) :
  preview d = false ->
  wf_matrix 32 (MFCC d) ->
  (32 <= List.length (MFCC d))%nat ->
  MFCCLen d < 2 ^ 53 ->
  1 <= count d < 2 ^ 53 - 1 ->
  frames_on_disk e (count d) ->
  disk e (mask_path (ROOT_PATH e) (count d + 1)) = None ->
  (forall i, 0 <= i < Data_len d ->
     exists s w', getitem e d i w = (Ok s, w')
                  /\ shape (input s) = [2; 1; 64; 32]
                  /\ shape (target s) = [2; OUTPUT_COUNT])
  /\ fst (getitem e d (Data_len d) w)
     = Raise (FileNotFoundError (mask_path (ROOT_PATH e) (count d + 1))).
Proof.
  intros Hp Hwf HT HT' Hc Hdisk Hnone.
  unfold Data_len. rewrite Hp. split.
  - intros i Hi.
    destruct (Hdisk (i + 1) ltac:(lia)) as [v1 [D1 L1]].
    destruct (Hdisk (i + 2) ltac:(lia)) as [v2 [D2 L2]].
    assert (Hw : wrap_index d i = i) by (apply wrap_index_nonneg; lia).
    destruct (audioIdxPair_total e d i w ltac:(lia) ltac:(lia) ltac:(lia) HT')
      as [a [a' Hidx]].
    rewrite <- Hw in Hidx, D1, D2.
    eexists. eexists. split.
    + apply (getitem_train_ok e d i w _ a a' v1 v2 Hp Hwf HT Hidx D1 D2 L1 L2).
    + split; reflexivity.
  - destruct (Hdisk (count d - 1 + 1) ltac:(lia)) as [v1 [D1 L1]].
    assert (Hw : wrap_index d (count d - 1) = count d - 1)
      by (apply wrap_index_nonneg; lia).
    destruct (audioIdxPair_total e d (count d - 1) w
                ltac:(lia) ltac:(lia) ltac:(lia) HT') as [a [a' Hidx]].
    rewrite <- Hw in Hidx.
    rewrite (getitem_train_run e d (count d - 1) w _ a a' Hp Hidx).
    rewrite (inputValue_circular d a a' Hwf HT), Hw.
    replace (count d + 1) with (count d - 1 + 2) in Hnone |- * by lia.
    now rewrite (targetValue_second_missing e _ _ v1 D1 Hnone).
Qed.

Lemma Data_len_is_the_served_range_witness :
  (forall i, 0 <= i < Data_len clip60 ->
     exists s w', getitem (env_of false 60) clip60 i w0 = (Ok s, w')
                  /\ shape (input s) = [2; 1; 64; 32]
                  /\ shape (target s) = [2; OUTPUT_COUNT])
  /\ fst (getitem (env_of false 60) clip60 (Data_len clip60) w0)
     = Raise (FileNotFoundError
                (mask_path (ROOT_PATH (env_of false 60)) (count clip60 + 1))).
Proof.
  apply (Data_len_is_the_served_range (env_of false 60) clip60 w0).
  - reflexivity.
  - apply wf_ramp.
  - vm_compute. lia.
  - vm_compute. reflexivity.
  - vm_compute. split; congruence.
  - apply (frames_on_disk_env_of false 60).
  - vm_compute. reflexivity.
Defined.

(** X2.  A missing target file.  In training mode, on a clip of at least
    32 feature rows, a call whose first file (frame [i + 1]) is missing
    raises FileNotFoundError for that path and does not try the second
    file; a call whose second file (frame [i + 2]) is missing raises for
    the second path after opening both.  Either way the jitter draw has
    already been made. *)
Theorem getitem_missing_file (e : env) (d : Data) (i : Z) (w : world) :
  preview d = false ->
  wf_matrix 32 (MFCC d) ->
  (32 <= List.length (MFCC d))%nat ->
  MFCCLen d < 2 ^ 53 ->
  0 < count d < 2 ^ 53 ->
  0 <= i -> i + 1 < 2 ^ 53 ->
  (disk e (mask_path (ROOT_PATH e) (i + 1)) = None ->
   getitem e d i w
   = (Raise (FileNotFoundError (mask_path (ROOT_PATH e) (i + 1))),
      mkWorld (if shiftRandom d then S (draws w) else draws w)
        (opened w ++ [mask_path (ROOT_PATH e) (i + 1)])))
  /\ (forall v1,
        disk e (mask_path (ROOT_PATH e) (i + 1)) = Some v1 ->
        disk e (mask_path (ROOT_PATH e) (i + 2)) = None ->
        getitem e d i w
        = (Raise (FileNotFoundError (mask_path (ROOT_PATH e) (i + 2))),
           mkWorld (if shiftRandom d then S (draws w) else draws w)
             (opened w ++ [mask_path (ROOT_PATH e) (i + 1);
                           mask_path (ROOT_PATH e) (i + 2)]))).
Proof.
  intros Hp Hwf HT HT' Hc Hi Hi'.
  assert (Hw : wrap_index d i = i) by (apply wrap_index_nonneg; lia).
  destruct (audioIdxPair_total e d i w Hi Hi' Hc HT') as [a [a' Hidx]].
  rewrite <- Hw in Hidx.
  pose proof (getitem_train_run e d i w _ a a' Hp Hidx) as Hrun.
  rewrite (inputValue_circular d a a' Hwf HT), Hw in Hrun.
  split.
  - intros D1. rewrite Hrun, (targetValue_first_missing e i _ D1). reflexivity.
  - intros v1 D1 D2. rewrite Hrun, (targetValue_second_missing e i _ v1 D1 D2).
    reflexivity.
Qed.

Lemma getitem_missing_file_witness :
  getitem (env_of false 60) clip60 60 w0
  = (Raise (FileNotFoundError (mask_path "/surat" (60 + 1))),
     mkWorld 0 ([] ++ [mask_path "/surat" (60 + 1)])).
Proof.
  apply (getitem_missing_file (env_of false 60) clip60 60 w0).
  - reflexivity.
  - apply wf_ramp.
  - vm_compute. lia.
  - vm_compute. reflexivity.
  - vm_compute. split; reflexivity.
  - lia.
  - vm_compute. reflexivity.
  - vm_compute. reflexivity.
Defined.

(** X3.  The loader checks the total size only.  When both files are
    there, the target has one row per [OUTPUT_COUNT] values of the two
    arrays taken together, however the values are split between the
    files, and no row at all when both arrays are empty; a total that is
    not a multiple of [OUTPUT_COUNT] raises RuntimeError.  Both files
    have been opened in every case. *)
Theorem targetValue_rows (e : env) (i : Z) (w : world) (v1 v2 : list Q) :
  disk e (mask_path (ROOT_PATH e) (i + 1)) = Some v1 ->
  disk e (mask_path (ROOT_PATH e) (i + 2)) = Some v2 ->
  let total := Z.of_nat (List.length v1) + Z.of_nat (List.length v2) in
  let w' := mkWorld (draws w)
              (opened w ++ [mask_path (ROOT_PATH e) (i + 1);
                            mask_path (ROOT_PATH e) (i + 2)]) in
  (forall k, total = k * OUTPUT_COUNT ->
     exists t, targetValue e i w = (Ok t, w')
               /\ shape t = [k; OUTPUT_COUNT]
               /\ Z.of_nat (List.length (data t)) = total)
  /\ (total mod OUTPUT_COUNT <> 0 ->
      targetValue e i w = (Raise RuntimeError, w')).
Proof.
  intros D1 D2 total w'.
  assert (Hrun : targetValue e i w
                 = (Torch.view_rows OUTPUT_COUNT (map Torch.float32 (v1 ++ v2)), w')).
  { unfold targetValue, bind, np_load, lift. rewrite D1. cbn [draws opened].
    rewrite D2. cbn [draws opened]. unfold w'. now rewrite <- app_assoc. }
  rewrite Hrun. unfold Torch.view_rows.
  rewrite length_map, length_app, Nat2Z.inj_add. fold total.
  change (OUTPUT_COUNT <=? 0) with false. cbn [orb]. split.
  - intros k Ht. rewrite Ht.
    rewrite Z.mod_mul, Z.div_mul by (unfold OUTPUT_COUNT; lia).
    cbn [Z.eqb negb]. eexists. split; [reflexivity|]. cbn [shape data].
    split; [reflexivity|].
    rewrite length_map, length_app, Nat2Z.inj_add. exact Ht.
  - intros Hm.
    destruct (Z.eqb_spec (total mod OUTPUT_COUNT) 0) as [?|_]; [contradiction|].
    reflexivity.
Qed.

Lemma targetValue_rows_witness :
  exists t,
    targetValue uneven_env 0 w0
    = (Ok t,
       mkWorld (draws w0)
         (opened w0 ++ [mask_path (ROOT_PATH uneven_env) (0 + 1);
                        mask_path (ROOT_PATH uneven_env) (0 + 2)]))
    /\ shape t = [2; OUTPUT_COUNT]
    /\ Z.of_nat (List.length (data t))
       = Z.of_nat (List.length (repeat 2%Q (Z.to_nat 37440)))
         + Z.of_nat (List.length (repeat 2%Q (Z.to_nat 12480))).
Proof.
  apply (targetValue_rows uneven_env 0 w0
           (repeat 2%Q (Z.to_nat 37440)) (repeat 2%Q (Z.to_nat 12480))).
  - reflexivity.
  - reflexivity.
  - rewrite !repeat_length, !Z2Nat.id by lia. reflexivity.
Defined.

(** X5.  What a call touches.  Whatever the outcome, [__getitem__] draws
    at most one random number (none without augmentation) and opens at
    most two files, namely the two target files of the wrapped index, in
    order; in preview mode it opens none. *)
Theorem getitem_footprint (e : env) (d : Data) (i : Z) (w : world) :
  let w' := snd (getitem e d i w) in
  let p1 := mask_path (ROOT_PATH e) (wrap_index d i + 1) in
  let p2 := mask_path (ROOT_PATH e) (wrap_index d i + 2) in
  draws w' = (if shiftRandom d then S (draws w) else draws w)
  /\ (opened w' = opened w
      \/ (preview d = false
          /\ (opened w' = opened w ++ [p1] \/ opened w' = opened w ++ [p1; p2]))).
Proof.
  cbv zeta. split.
  - rewrite getitem_draws. apply audioIdxPair_draws.
  - pose proof (audioIdxPair_opened e d (wrap_index d i) w) as Ho.
    destruct (audioIdxPair e d (wrap_index d i) w) as [[[a a']|x] w1] eqn:Hidx.
    + cbn [snd] in Ho. destruct (preview d) eqn:Hp.
      * left. rewrite (getitem_preview_run e d i w w1 a a' Hp Hidx).
        destruct (inputValue d a a') as [inp|x]; [|exact Ho].
        destruct (Torch.select0 inp); exact Ho.
      * rewrite (getitem_train_run e d i w w1 a a' Hp Hidx).
        destruct (inputValue d a a') as [inp|x]; [|left; exact Ho].
        right. split; [reflexivity|]. rewrite <- Ho.
        unfold targetValue, bind, np_load, lift.
        destruct (disk e (mask_path (ROOT_PATH e) (wrap_index d i + 1))) as [v1|];
          [|left; reflexivity].
        right. cbn [draws opened]. rewrite <- app_assoc.
        destruct (disk e (mask_path (ROOT_PATH e) (wrap_index d i + 2))) as [v2|];
          [|reflexivity].
        destruct (Torch.view_rows OUTPUT_COUNT (map Torch.float32 (v1 ++ v2)));
          reflexivity.
    + left. unfold getitem, bind at 1. rewrite Hidx. exact Ho.
Qed.

(* ================================================================== *)
(** ** The window, row by row *)
(* ================================================================== *)

Lemma nth_circular_window (mfcc : matrix) (a : Z) (j : nat) :
  (j < 64)%nat ->
  nth j (circular_window mfcc a) []
  = nth (Z.to_nat ((a - 32 + Z.of_nat j) mod Z.of_nat (List.length mfcc))) mfcc [].
Proof.
  intros Hj. unfold circular_window.
  set (f := fun j => nth (Z.to_nat ((a - 32 + Z.of_nat j)
                                    mod Z.of_nat (List.length mfcc))) mfcc []).
  rewrite (nth_indep _ [] (f 0%nat)) by (rewrite length_map, length_seq; exact Hj).
  rewrite (map_nth f), seq_nth by exact Hj. reflexivity.
Qed.

Lemma length_circular_window (mfcc : matrix) (a : Z) :
  List.length (circular_window mfcc a) = 64%nat.
Proof. unfold circular_window. now rewrite length_map, length_seq. Qed.

(** X6.  The test of line 66 only selects a cheaper way to cut the same
    window: when the window fits ([32 <= a] and [a + 32 <= T]), the
    rotations of lines 70-84 give exactly the plain slice of line 111,
    which is the 64 consecutive rows starting at row [a - 32]. *)
Theorem rolledWindow_is_slice_inside (mfcc : matrix) (a : Z) :
  32 <= a -> a + 32 <= Z.of_nat (List.length mfcc) ->
  rolledWindow mfcc a = Torch.slice mfcc (a - 32) (a + 32)
  /\ Torch.slice mfcc (a - 32) (a + 32) = firstn 64 (skipn (Z.to_nat (a - 32)) mfcc)
  /\ List.length (Torch.slice mfcc (a - 32) (a + 32)) = 64%nat.
Proof.
  intros Hlo Hhi.
  assert (Hs : Torch.slice mfcc (a - 32) (a + 32)
               = firstn 64 (skipn (Z.to_nat (a - 32)) mfcc)).
  { unfold Torch.slice, Torch.clamp_index.
    destruct (Z.ltb_spec (a - 32) 0); [lia|].
    destruct (Z.ltb_spec (a + 32) 0); [lia|].
    rewrite !Z.min_l by lia. f_equal. lia. }
  split; [|split; [exact Hs|]].
  - rewrite rolledWindow_circular by lia. symmetry. now apply slice_circular.
  - rewrite Hs, length_firstn, length_skipn. lia.
Qed.

Lemma rolledWindow_is_slice_inside_witness :
  rolledWindow (ramp 100) 40 = Torch.slice (ramp 100) (40 - 32) (40 + 32)
  /\ Torch.slice (ramp 100) (40 - 32) (40 + 32)
     = firstn 64 (skipn (Z.to_nat (40 - 32)) (ramp 100))
  /\ List.length (Torch.slice (ramp 100) (40 - 32) (40 + 32)) = 64%nat.
Proof.
  apply (rolledWindow_is_slice_inside (ramp 100) 40).
  - lia.
  - vm_compute. discriminate.
Defined.

(** X7.  What the windows at the two ends of a clip hold.  For a clip
    of [T >= 64] rows: a window centred less than 32 rows from the start
    ([0 <= a < 32]) begins with the last [32 - a] rows of the clip,
    followed by its first [a + 32] rows; a window centred less than 32
    rows from the end ([T - 32 < a <= T]) holds the rows from [a - 32] to
    the last one, followed by the first [a + 32 - T] rows of the clip. *)
Theorem rolledWindow_at_the_ends (mfcc : matrix) (a : Z) :
  (64 <= List.length mfcc)%nat ->
  (0 <= a < 32 ->
   rolledWindow mfcc a
   = skipn (List.length mfcc - Z.to_nat (32 - a)) mfcc
     ++ firstn (Z.to_nat (a + 32)) mfcc)
  /\ (Z.of_nat (List.length mfcc) - 32 < a <= Z.of_nat (List.length mfcc) ->
      rolledWindow mfcc a
      = skipn (Z.to_nat (a - 32)) mfcc
        ++ firstn (Z.to_nat (a + 32 - Z.of_nat (List.length mfcc))) mfcc).
Proof.
  intros HT. set (T := List.length mfcc) in *.
  split; intros Ha; rewrite rolledWindow_circular by lia.
  - apply nth_ext with (d := []) (d' := []).
    + rewrite length_circular_window, length_app, length_skipn, length_firstn.
      fold T. lia.
    + rewrite length_circular_window. intros j Hj.
      rewrite nth_circular_window by exact Hj. fold T.
      destruct (Z_lt_le_dec (Z.of_nat j) (32 - a)) as [Hlt|Hge].
      * rewrite app_nth1 by (rewrite length_skipn; fold T; lia).
        rewrite nth_skipn. f_equal.
        replace (a - 32 + Z.of_nat j)
          with (a - 32 + Z.of_nat j + Z.of_nat T + (-1) * Z.of_nat T) by ring.
        rewrite Z.mod_add by lia. rewrite Z.mod_small by lia. lia.
      * rewrite app_nth2 by (rewrite length_skipn; fold T; lia).
        rewrite length_skipn. fold T.
        rewrite nth_firstn.
        destruct (Nat.ltb_spec (j - (T - (T - Z.to_nat (32 - a))))
                    (Z.to_nat (a + 32))) as [_|Hbad]; [|lia].
        f_equal. rewrite Z.mod_small by lia. lia.
  - apply nth_ext with (d := []) (d' := []).
    + rewrite length_circular_window, length_app, length_skipn, length_firstn.
      fold T. lia.
    + rewrite length_circular_window. intros j Hj.
      rewrite nth_circular_window by exact Hj. fold T.
      destruct (Z_lt_le_dec (a - 32 + Z.of_nat j) (Z.of_nat T)) as [Hlt|Hge].
      * rewrite app_nth1 by (rewrite length_skipn; fold T; lia).
        rewrite nth_skipn. f_equal. rewrite Z.mod_small by lia. lia.
      * rewrite app_nth2 by (rewrite length_skipn; fold T; lia).
        rewrite length_skipn. fold T.
        rewrite nth_firstn.
        destruct (Nat.ltb_spec (j - (T - Z.to_nat (a - 32)))
                    (Z.to_nat (a + 32 - Z.of_nat T))) as [_|Hbad]; [|lia].
        f_equal.
        replace (a - 32 + Z.of_nat j)
          with (a - 32 + Z.of_nat j - Z.of_nat T + 1 * Z.of_nat T) by ring.
        rewrite Z.mod_add by lia. rewrite Z.mod_small by lia. lia.
Qed.

Lemma rolledWindow_at_the_ends_witness :
  rolledWindow (ramp 100) 0
  = skipn (List.length (ramp 100) - Z.to_nat (32 - 0)) (ramp 100)
    ++ firstn (Z.to_nat (0 + 32)) (ramp 100).
Proof.
  apply (rolledWindow_at_the_ends (ramp 100) 0).
  - vm_compute. lia.
  - lia.
Defined.

(* ================================================================== *)
(** ** Data.__init__ and the sign of the frame count *)
(* ================================================================== *)

Lemma binary_round_aux_signed (p em : Z) (s : bool) (m e : Z) (l : location) :
  SFsigned s (binary_round_aux p em s m e l).
Proof.
  unfold binary_round_aux.
  destruct (shr_fexp p em m e l) as [mrs' e'].
  destruct (shr_fexp p em _ e' loc_Exact) as [mrs'' e''].
  destruct (shr_m mrs''); cbn [SFsigned]; try reflexivity.
  destruct (e'' <=? em - p); reflexivity.
Qed.

Lemma binary_normalize_signed (z : Z) :
  0 <= z -> SFsigned false (binary_normalize prec emax z 0 false).
Proof.
  intros Hz. destruct z as [|p|p]; [reflexivity| |lia].
  cbn [binary_normalize]. unfold binary_round.
  destruct (shl_align p 0 _) as [mz ez]. apply binary_round_aux_signed.
Qed.

Lemma SFmul_signed (x y : spec_float) :
  SFsigned false x -> SFsigned false y -> SFsigned false (SFmul prec emax x y).
Proof.
  destruct x as [sx|sx| |sx mx ex], y as [sy|sy| |sy my ey];
    cbn [SFsigned SFmul]; intros Hx Hy; subst; try reflexivity; try exact I.
  apply binary_round_aux_signed.
Qed.

Lemma SFdiv_signed (x y : spec_float) :
  SFsigned false x -> SFsigned false y -> SFsigned false (SFdiv prec emax x y).
Proof.
  destruct x as [sx|sx| |sx mx ex], y as [sy|sy| |sy my ey];
    cbn [SFsigned SFdiv]; intros Hx Hy; subst; try reflexivity; try exact I.
  destruct (SFdiv_core_binary _ _ _ _ _ _) as [[mz ez] lz].
  apply binary_round_aux_signed.
Qed.

Lemma SFtrunc_signed (x : spec_float) (c : Z) :
  SFsigned false x -> SFtrunc x = Ok c -> 0 <= c.
Proof.
  destruct x as [s|s| |s m e]; cbn [SFsigned SFtrunc]; intros Hs H;
    try discriminate; injection H as <-; [lia|]. subst s.
  apply Z.shiftl_nonneg. lia.
Qed.

(** The frame count of line 39 is returned and is not negative. *)
Lemma frameCount_nonneg (size1 sampleRate : Z) :
  0 <= size1 < 2 ^ 53 -> 0 < sampleRate < 2 ^ 53 ->
  exists c, frameCount size1 sampleRate = Ok c /\ 0 <= c.
Proof.
  intros Hs Hr.
  destruct (float_of_int_ok size1 Hs) as [fa [Ea [Sa Ba]]].
  destruct (float_of_int_ok sampleRate ltac:(lia)) as [fb [Eb [Sb _]]].
  destruct (truediv_ok size1 sampleRate Hs Hr) as [q [Eq Bq]].
  assert (Hq : q = (fa / fb)%float).
  { unfold truediv in Eq. destruct (Z.eqb_spec sampleRate 0); [lia|].
    rewrite Ea, Eb in Eq. cbn [rbind] in Eq. congruence. }
  assert (Sq : SFsigned false (Prim2SF q)).
  { rewrite Hq, div_spec. unfold SF64div. rewrite Sa, Sb.
    apply SFdiv_signed; apply binary_normalize_signed; lia. }
  assert (Bfps : SFbelow 5 (Prim2SF animFPS)) by (vm_compute; repeat split; congruence).
  assert (Bp : SFbelow 113 (Prim2SF (animFPS * q))).
  { rewrite mul_spec. unfold SF64mul. apply (SFmul_below 5 107); try lia; assumption. }
  assert (Sp : SFsigned false (Prim2SF (animFPS * q))).
  { rewrite mul_spec. unfold SF64mul. apply SFmul_signed; [reflexivity | exact Sq]. }
  destruct (SFtrunc_spec _ (SFbelow_SFfinite _ _ Bp)) as [c [Ec _]].
  exists c. split.
  - unfold frameCount. rewrite Eq. exact Ec.
  - exact (SFtrunc_signed _ c Sp Ec).
Qed.

Lemma shl_align_atleast (L : Z) (m : positive) (e e' : Z) :
  atleast L (Zpos m) e ->
  atleast L (Zpos (fst (shl_align m e e'))) (snd (shl_align m e e')).
Proof.
  intros Ha. unfold shl_align.
  destruct (e' - e) as [|d|d] eqn:Hd; cbn [fst snd]; try assumption.
  destruct Ha as [H1 H2]. rewrite iter_xO_value.
  assert (Hd' : 0 < 2 ^ Zpos d) by (apply pow2_pos; lia).
  split; [nia|].
  destruct (Z_lt_le_dec (L - e) 0) as [Hn|Hp].
  - assert (2 ^ (L - e') <= 2 ^ Zpos d) by (apply Z.pow_le_mono_r; lia). nia.
  - replace (L - e') with ((L - e) + Zpos d) by lia.
    rewrite pow2_split by lia. nia.
Qed.

Section RoundingFromBelow.

Variables p em : Z.
Hypothesis Hp : 1 <= p.

Lemma binary_normalize_atleast (L : Z) (z : positive) :
  3 - em - p <= L -> 2 ^ L <= Zpos z ->
  SFatleast L (binary_normalize p em (Zpos z) 0 false).
Proof.
  intros HL Hz. cbn [binary_normalize]. unfold binary_round.
  assert (Ha : atleast L (Zpos z) 0) by (split; [lia | now rewrite Z.sub_0_r]).
  pose proof (shl_align_atleast L z 0 (fexp p em (Z.pos (digits2_pos z) + 0)) Ha) as H.
  destruct (shl_align z 0 _) as [mz ez]. cbn [fst snd] in H.
  now apply binary_round_aux_atleast.
Qed.

Lemma SFdiv_atleast (Lx Uy : Z) (sx sy : bool) (mx my : positive) (ex ey : Z) :
  3 - em - p <= Lx - Uy ->
  atleast Lx (Zpos mx) ex ->
  Zpos my < 2 ^ (Uy - ey) ->
  SFatleast (Lx - Uy) (SFdiv p em (S754_finite sx mx ex) (S754_finite sy my ey)).
Proof.
  intros HL [Hx1 Hx] Hy. cbn [SFdiv]. unfold SFdiv_core_binary.
  cbn [Zdigits2].
  set (D := Zpos (digits2_pos mx) + ex - (Zpos (digits2_pos my) + ey)).
  set (e' := Z.min (fexp p em D) (ex - ey)).
  assert (He' : e' <= ex - ey) by apply Z.le_min_r.
  assert (Hf : e' <= fexp p em D) by apply Z.le_min_l.
  set (s := ex - ey - e').
  set (m' := match s with Zpos _ => Z.shiftl (Zpos mx) s | Z0 => Zpos mx | Zneg _ => 0 end).
  assert (Hs0 : 0 <= s) by (unfold s; lia).
  assert (Hm' : m' = Zpos mx * 2 ^ s).
  { unfold m'. destruct s as [|t|t] eqn:Hs; try lia.
    apply Z.shiftl_mul_pow2. lia. }
  assert (Hs : 0 < 2 ^ s) by (apply pow2_pos; lia).
  assert (HUy : 0 < Uy - ey).
  { destruct (Z_lt_le_dec 0 (Uy - ey)) as [|Hle]; [assumption|].
    assert (2 ^ (Uy - ey) <= 2 ^ 0) by (apply Z.pow_le_mono_r; lia).
    change (2 ^ 0) with 1 in *. lia. }
  pose proof (Z.div_eucl_eq m' (Zpos my) ltac:(lia)) as Heq.
  pose proof (Z.mod_pos_bound m' (Zpos my) ltac:(lia)) as Hmod.
  unfold Z.modulo in Hmod.
  destruct (Z.div_eucl m' (Zpos my)) as [q r].
  apply binary_round_aux_atleast; [exact Hp | exact HL |].
  assert (Hq0 : 0 <= q) by nia.
  (* the bound, when the exponent is below it *)
  assert (Hlow : 0 <= Lx - Uy - e' -> 2 ^ (Lx - Uy - e') <= q).
  { intros Hpos.
    assert (Hb : 2 ^ (Lx - Uy - e') * Zpos my <= m').
    { assert (H1 : 2 ^ (Lx - Uy - e') * 2 ^ (Uy - ey) = 2 ^ (Lx - ex + s)).
      { rewrite <- pow2_split by lia. f_equal. unfold s. lia. }
      assert (H2 : 2 ^ (Lx - ex + s) <= Zpos mx * 2 ^ s).
      { destruct (Z_lt_le_dec (Lx - ex) 0) as [Hn|Hpx].
        - assert (2 ^ (Lx - ex + s) <= 2 ^ s) by (apply Z.pow_le_mono_r; lia). nia.
        - rewrite pow2_split by lia. nia. }
      assert (0 < 2 ^ (Lx - Uy - e')) by (apply pow2_pos; lia).
      rewrite Hm'. nia. }
    nia. }
  split.
  - destruct (Z_le_gt_dec e' (Lx - Uy)) as [Hle|Hgt].
    + assert (0 < 2 ^ (Lx - Uy - e')) by (apply pow2_pos; lia).
      specialize (Hlow ltac:(lia)). lia.
    + (* a normal quotient: the dividend was given enough digits *)
      pose proof (digits2_pos_bound mx) as [Hxlo _].
      pose proof (digits2_pos_bound my) as [_ Hyhi].
      unfold fexp, SpecFloat.emin in Hf.
      assert (Hsd : Zpos (digits2_pos my) <= Zpos (digits2_pos mx) - 1 + s)
        by (unfold s, D in *; lia).
      assert (H1 : 2 ^ Zpos (digits2_pos my) <= 2 ^ (Zpos (digits2_pos mx) - 1 + s))
        by (apply Z.pow_le_mono_r; lia).
      rewrite pow2_split in H1 by lia.
      assert (H2 : 2 ^ (Zpos (digits2_pos mx) - 1) * 2 ^ s <= Zpos mx * 2 ^ s)
        by (apply Z.mul_le_mono_nonneg_r; lia).
      assert (H3 : Zpos my <= m') by (rewrite Hm'; lia).
      destruct (Z_le_gt_dec 1 q) as [|Hq1]; [assumption|].
      assert (q = 0) by lia. subst q. lia.
  - destruct (Z_lt_le_dec (Lx - Uy - e') 0) as [Hn|Hpos].
    + rewrite Z.pow_neg_r by lia. exact Hq0.
    + now apply Hlow.
Qed.

End RoundingFromBelow.

Lemma SFtrunc_atleast (L : Z) (x : spec_float) (c : Z) :
  0 <= L -> SFsigned false x -> SFatleast L x -> SFtrunc x = Ok c -> 2 ^ L <= c.
Proof.
  intros HL Hs Ha H. destruct x as [s|s| |s m e]; cbn [SFatleast SFtrunc] in *;
    try contradiction; try discriminate.
  cbn [SFsigned] in Hs. subst s. injection H as <-.
  destruct Ha as [H1 H2].
  destruct e as [|q|q].
  - rewrite Z.shiftl_0_r. now rewrite Z.sub_0_r in H2.
  - rewrite Z.shiftl_mul_pow2 by lia.
    assert (0 < 2 ^ Zpos q) by (apply pow2_pos; lia).
    destruct (Z_lt_le_dec (L - Zpos q) 0) as [Hn|Hp].
    + assert (2 ^ L <= 2 ^ Zpos q) by (apply Z.pow_le_mono_r; lia). nia.
    + replace L with ((L - Zpos q) + Zpos q) at 1 by lia.
      rewrite pow2_split by lia. nia.
  - change (Z.shiftl (Z.pos m) (Z.neg q)) with (Z.shiftr (Z.pos m) (Z.pos q)).
    rewrite Z.shiftr_div_pow2 by lia.
    assert (0 < 2 ^ Zpos q) by (apply pow2_pos; lia).
    apply Z.div_le_lower_bound; [lia|].
    rewrite <- pow2_split by lia.
    now replace (Z.pos q + L) with (L - Z.neg q) by lia.
Qed.

(** A waveform that holds one window of [kaldi.mfcc] has four frames at
    least: 4096 samples at 16 kHz are more than a quarter of a second,
    and 29.97 is more than 16. *)
Lemma frameCount_window (size1 : Z) :
  window_size <= size1 < 2 ^ 53 ->
  exists c, frameCount size1 16000 = Ok c /\ 4 <= c.
Proof.
  intros Hs. unfold window_size in Hs.
  destruct (float_of_int_ok size1 ltac:(lia)) as [fa [Ea [Sa Ba]]].
  destruct (float_of_int_ok 16000 ltac:(lia)) as [fb [Eb [Sb _]]].
  destruct (truediv_ok size1 16000 ltac:(lia) ltac:(lia)) as [q [Eq Bq]].
  assert (Hq : q = (fa / fb)%float).
  { unfold truediv in Eq. cbn [Z.eqb] in Eq.
    rewrite Ea, Eb in Eq. cbn [rbind] in Eq. congruence. }
  assert (Sq : SFsigned false (Prim2SF q)).
  { rewrite Hq, div_spec. unfold SF64div. rewrite Sa, Sb.
    apply SFdiv_signed; apply binary_normalize_signed; lia. }
  assert (Aa : SFatleast 12 (Prim2SF fa)).
  { rewrite Sa. destruct size1 as [|z|z]; try lia.
    apply binary_normalize_atleast; [unfold prec; lia | unfold prec, emax; lia |].
    change (2 ^ 12) with 4096. lia. }
  assert (Sb' : Prim2SF fb = S754_finite false 8796093022208000 (-39))
    by (rewrite Sb; vm_compute; reflexivity).
  assert (Aq : SFatleast (12 - 14) (Prim2SF q)).
  { rewrite Hq, div_spec. unfold SF64div. rewrite Sb'.
    destruct (Prim2SF fa) as [s|s| |s m e] eqn:Hfa; cbn [SFatleast SFbelow] in Aa, Ba;
      try contradiction.
    apply SFdiv_atleast; [unfold prec; lia | unfold prec, emax; lia | exact Aa |].
    vm_compute. reflexivity. }
  assert (Afps : SFatleast 4 (Prim2SF animFPS)) by (vm_compute; split; congruence).
  assert (Bfps : SFbelow 5 (Prim2SF animFPS)) by (vm_compute; repeat split; congruence).
  assert (Bp : SFbelow 113 (Prim2SF (animFPS * q))).
  { rewrite mul_spec. unfold SF64mul. apply (SFmul_below 5 107); try lia; assumption. }
  assert (Sp : SFsigned false (Prim2SF (animFPS * q))).
  { rewrite mul_spec. unfold SF64mul. apply SFmul_signed; [reflexivity | exact Sq]. }
  assert (Ap : SFatleast 2 (Prim2SF (animFPS * q))).
  { rewrite mul_spec. unfold SF64mul.
    apply (SFmul_atleast prec emax ltac:(unfold prec; lia) 4 (12 - 14));
      [unfold prec, emax; lia | exact Afps | exact Aq]. }
  destruct (SFtrunc_spec _ (SFbelow_SFfinite _ _ Bp)) as [c [Ec _]].
  exists c. split.
  - unfold frameCount. rewrite Eq. exact Ec.
  - exact (SFtrunc_atleast 2 _ c ltac:(lia) Sp Ap Ec).
Qed.

Lemma float_of_int_raises (z : Z) (x : exn) :
  float_of_int z = Raise x -> x = OverflowError.
Proof.
  unfold float_of_int. destruct (PrimFloat.is_infinity _); congruence.
Qed.

Lemma SFtrunc_raises (f : spec_float) (x : exn) :
  SFtrunc f = Raise x -> x = OverflowError \/ x = ValueError.
Proof.
  destruct f; cbn [SFtrunc]; intros H; try discriminate;
    injection H as <-; auto.
Qed.

(** Line 64 divides by the frame count and by nothing else. *)
Lemma audioIdx_raises (d : Data) (i r : Z) (x : exn) :
  count d <> 0 -> audioIdx d i r = Raise x -> x <> ZeroDivisionError.
Proof.
  intros Hc. unfold audioIdx, truediv, int_mul_float, float_add_int, int.
  destruct (Z.eqb_spec (count d) 0) as [?|_]; [contradiction|].
  destruct (float_of_int (MFCCLen d)) as [fa|xa] eqn:Ea; cbn [rbind];
    [|intros H; injection H as <-; now rewrite (float_of_int_raises _ _ Ea)].
  destruct (float_of_int (count d)) as [fb|xb] eqn:Eb; cbn [rbind];
    [|intros H; injection H as <-; now rewrite (float_of_int_raises _ _ Eb)].
  destruct (float_of_int i) as [fi|xi] eqn:Ei; cbn [rbind];
    [|intros H; injection H as <-; now rewrite (float_of_int_raises _ _ Ei)].
  destruct (float_of_int r) as [fr|xr] eqn:Er; cbn [rbind];
    [|intros H; injection H as <-; now rewrite (float_of_int_raises _ _ Er)].
  intros H. destruct (SFtrunc_raises _ _ H) as [-> | ->]; discriminate.
Qed.

Lemma view_raises (sh : list Z) (m : matrix) (x : exn) :
  Torch.view sh m = Raise x -> x = RuntimeError.
Proof. unfold Torch.view. destruct (_ =? _); congruence. Qed.

Lemma inputValue_raises (d : Data) (a a' : Z) (x : exn) :
  inputValue d a a' = Raise x -> x = RuntimeError.
Proof. unfold inputValue. destruct (near_edge d a a'); apply view_raises. Qed.

Lemma select0_raises (t : tensor) (x : exn) :
  Torch.select0 t = Raise x -> x = RuntimeError.
Proof.
  unfold Torch.select0. destruct (shape t) as [|n rest]; [congruence|].
  destruct (0 <? n); congruence.
Qed.

Lemma targetValue_raises (e : env) (i : Z) (w : world) (x : exn) :
  fst (targetValue e i w) = Raise x -> x <> ZeroDivisionError.
Proof.
  unfold targetValue, bind, np_load, lift.
  destruct (disk e (mask_path (ROOT_PATH e) (i + 1))) as [v1|]; cbn [fst];
    [|congruence].
  destruct (disk e (mask_path (ROOT_PATH e) (i + 2))) as [v2|]; cbn [fst];
    [|congruence].
  unfold Torch.view_rows. destruct (_ || _); congruence.
Qed.

(** With a frame count other than zero, no call of [__getitem__] raises
    ZeroDivisionError. *)
Lemma getitem_never_divides_by_zero (e : env) (d : Data) (i : Z) (w : world) :
  count d <> 0 -> fst (getitem e d i w) <> Raise ZeroDivisionError.
Proof.
  intros Hc. unfold getitem, bind at 1. rewrite audioIdxPair_run.
  set (r := if shiftRandom d then _ else 0).
  destruct (audioIdx d (wrap_index d i) r) as [a|x] eqn:Ea; cbn [rbind];
    [|cbn [fst]; intros H; injection H as ->; exact (audioIdx_raises _ _ _ _ Hc Ea eq_refl)].
  destruct (audioIdx d (wrap_index d i + 1) r) as [a'|x] eqn:Ea'; cbn [rbind];
    [|cbn [fst]; intros H; injection H as ->; exact (audioIdx_raises _ _ _ _ Hc Ea' eq_refl)].
  cbn [fst snd]. unfold bind at 1, lift at 1.
  destruct (inputValue d a a') as [inp|x] eqn:Ein;
    [|cbn [fst]; rewrite (inputValue_raises _ _ _ _ Ein); discriminate].
  destruct (preview d).
  - unfold bind, lift, ret.
    destruct (Torch.select0 inp) as [inp0|x] eqn:Es; cbn [fst];
      [discriminate | rewrite (select0_raises _ _ Es); discriminate].
  - unfold bind, ret.
    pose proof (targetValue_raises e (wrap_index d i)
                  (mkWorld (if shiftRandom d then S (draws w) else draws w) (opened w)))
      as Ht.
    destruct (targetValue e (wrap_index d i) _) as [[tgt|x] w2]; cbn [fst] in *;
      [discriminate|].
    intros H. injection H as ->. exact (Ht _ eq_refl eq_refl).
Qed.

(** X8.  What [Data.__init__] builds.  A waveform of fewer than 4096
    samples at 16 kHz, one window of the MFCC transform, stops it with
    AssertionError.  From 4096 samples on (and below 2^53) the data set
    is built, with four frames at least, whatever rate the file was
    stored at: the division of line 39 is by 16000 and the frame count
    depends on the length at 16 kHz only.  So no data set that
    [__init__] has built divides by zero at line 64. *)
Theorem Data_init_total (shiftRandom_arg : bool) (path : option string)
    (size1 sampleRate resampled : Z) (features : matrix) :
  let size16k := if sampleRate =? 16000 then size1 else resampled in
  0 <= size16k < 2 ^ 53 ->
  (size16k < window_size ->
   Data_init shiftRandom_arg path size1 sampleRate resampled features
   = Raise AssertionError)
  /\ (window_size <= size16k ->
      exists d,
        Data_init shiftRandom_arg path size1 sampleRate resampled features = Ok d
        /\ 4 <= count d
        /\ frameCount size16k 16000 = Ok (count d)
        /\ MFCC d = features
        /\ forall e i w, fst (getitem e d i w) <> Raise ZeroDivisionError).
Proof.
  intros size16k Hs. unfold Data_init. fold size16k. split.
  - intros Hlt.
    destruct (frameCount_nonneg size16k 16000 Hs ltac:(lia)) as [c [Ec _]].
    rewrite Ec. cbn [rbind].
    destruct (Z.ltb_spec size16k window_size); [reflexivity | lia].
  - intros Hge.
    destruct (frameCount_window size16k ltac:(lia)) as [c [Ec Hc]].
    rewrite Ec. cbn [rbind].
    destruct (Z.ltb_spec size16k window_size); [lia|].
    eexists. split; [reflexivity|]. cbn [count MFCC].
    split; [exact Hc|]. split; [reflexivity|]. split; [reflexivity|].
    intros e i w. apply getitem_never_divides_by_zero. cbn [count]. lia.
Qed.

Lemma Data_init_total_witness :
  exists d,
    Data_init true (Some "take.wav"%string) 88200 44100 32000 (ramp 100) = Ok d
    /\ 4 <= count d
    /\ frameCount (if 44100 =? 16000 then 88200 else 32000) 16000 = Ok (count d)
    /\ MFCC d = ramp 100
    /\ forall e i w, fst (getitem e d i w) <> Raise ZeroDivisionError.
Proof.
  apply (Data_init_total true (Some "take.wav"%string) 88200 44100 32000 (ramp 100)).
  - vm_compute. split; [discriminate | reflexivity].
  - vm_compute. discriminate.
Defined.

(** X9.  A preview set built by [Data.__init__] is sampled without any
    effect: a call draws no random number and opens no file, and its
    result does not depend on the random source, the disk or the root
    path. *)
Theorem preview_sampling_is_pure (shiftRandom_arg : bool) (path : string)
    (size1 sampleRate resampled : Z) (features : matrix) (d : Data) :
  Data_init shiftRandom_arg (Some path) size1 sampleRate resampled features = Ok d ->
  forall (e e' : env) (i : Z) (w : world),
    snd (getitem e d i w) = w
    /\ getitem e' d i w = getitem e d i w.
Proof.
  intros Hd e e' i w.
  destruct (Data_init_fields _ _ _ _ _ _ d Hd) as [_ [_ [Hp Hs]]].
  assert (Hprev : preview d = true) by (apply Hp; discriminate).
  specialize (Hs Hprev).
  assert (Hidx : forall e0, audioIdxPair e0 d (wrap_index d i) w
                            = (a <- audioIdx d (wrap_index d i) 0 ;;
                               a' <- audioIdx d (wrap_index d i + 1) 0 ;; Ok (a, a'), w)).
  { intros e0. rewrite audioIdxPair_run, Hs. now destruct w. }
  split.
  - unfold getitem, bind at 1. rewrite (Hidx e).
    destruct (a <- audioIdx d (wrap_index d i) 0 ;; _) as [[a a']|x]; [|reflexivity].
    cbn [fst snd]. unfold bind at 1, lift at 1.
    destruct (inputValue d a a') as [inp|x]; [|reflexivity].
    rewrite Hprev. unfold bind, lift, ret.
    destruct (Torch.select0 inp); reflexivity.
  - unfold getitem. rewrite Hprev. unfold bind. now rewrite (Hidx e), (Hidx e').
Qed.

Lemma preview_sampling_is_pure_witness :
  snd (getitem (env_of true 0) (mkData true false 59 (ramp 100)) 7 w0) = w0
  /\ getitem (env_of false 45) (mkData true false 59 (ramp 100)) 7 w0
     = getitem (env_of true 0) (mkData true false 59 (ramp 100)) 7 w0.
Proof.
  apply (preview_sampling_is_pure true "take.wav" 88200 44100 32000 (ramp 100)).
  vm_compute. reflexivity.
Defined.

(** X10.  Negative indices in preview mode follow Python's convention
    with respect to [__len__]: for every [k] from 1 to [len], the item
    [-k] is the item [len - k].  (In training mode [len] is [count - 1]
    while the shift is still by [count], so the same does not hold.) *)
Theorem preview_negative_index (e : env) (d : Data) (k : Z) (w : world) :
  preview d = true ->
  1 <= k <= Data_len d ->
  getitem e d (- k) w = getitem e d (Data_len d - k) w.
Proof.
  intros Hp Hk. unfold Data_len in *. rewrite Hp in *.
  unfold getitem, wrap_index.
  destruct (Z.ltb_spec (- k) 0) as [_|H]; [|lia].
  destruct (Z.ltb_spec (count d - k) 0) as [H|_]; [lia|].
  replace (count d + - k) with (count d - k) by lia. reflexivity.
Qed.

Lemma preview_negative_index_witness :
  getitem (env_of false 0) preview40 (- 1) w0
  = getitem (env_of false 0) preview40 (Data_len preview40 - 1) w0.
Proof.
  apply (preview_negative_index (env_of false 0) preview40 1 w0).
  - reflexivity.
  - vm_compute. split; discriminate.
Defined.

(* ================================================================== *)
(** ** The index tensor *)
(* ================================================================== *)

(** A mantissa of 24 digits with an exponent in the normal range of
    binary32 is already rounded. *)
Lemma binary_round_aux_canonical32 (s : bool) (m : positive) (e : Z) :
  Zpos (digits2_pos m) = 24 -> -149 <= e <= 104 ->
  binary_round_aux 24 128 s (Zpos m) e loc_Exact = S754_finite s m e.
Proof.
  intros Hd He.
  assert (Hshr : shr_fexp 24 128 (Zpos m) e loc_Exact
                 = (Build_shr_record (Zpos m) false false, e)).
  { unfold shr_fexp. cbn [Zdigits2]. rewrite Hd.
    replace (fexp 24 128 (24 + e) - e) with 0; [reflexivity|].
    unfold fexp, SpecFloat.emin. lia. }
  unfold binary_round_aux. rewrite Hshr. cbn [shr_m loc_of_shr_record round_nearest_even].
  rewrite Hshr. cbn [shr_m]. change (128 - 24) with 104.
  destruct (Z.leb_spec e 104); [reflexivity | lia].
Qed.

(** A positive integer below [2^24] is a binary32 value. *)
Lemma binary_round32_int (s : bool) (z : positive) :
  Zpos z < 2 ^ 24 ->
  exists m e,
    binary_round 24 128 s z 0 = S754_finite s m e
    /\ e <= 0 /\ Zpos m = Zpos z * 2 ^ (- e).
Proof.
  intros Hz. unfold binary_round.
  pose proof (digits2_pos_bound z) as [Hlo Hhi].
  assert (Hd : 1 <= Zpos (digits2_pos z) <= 24).
  { split; [lia|]. apply (Zdigits2_le (Zpos z) 24); lia. }
  assert (Hf : fexp 24 128 (Z.pos (digits2_pos z) + 0) = Zpos (digits2_pos z) - 24).
  { unfold fexp, SpecFloat.emin. lia. }
  rewrite Hf.
  pose proof (shl_align_value z 0 (Zpos (digits2_pos z) - 24) ltac:(lia)) as [Hv He].
  assert (Hdig : Zpos (digits2_pos (fst (shl_align z 0 (Zpos (digits2_pos z) - 24)))) = 24).
  { unfold shl_align.
    destruct (Zpos (digits2_pos z) - 24 - 0) as [|p|p] eqn:Hdiff; cbn [fst]; try lia.
    rewrite iter_xO_digits. lia. }
  destruct (shl_align z 0 _) as [mz ez]. cbn [fst snd] in *. subst ez.
  exists mz, (Zpos (digits2_pos z) - 24).
  rewrite binary_round_aux_canonical32 by lia.
  split; [reflexivity|]. split; [lia|].
  rewrite Hv. replace (0 - (Z.pos (digits2_pos z) - 24)) with (- (Z.pos (digits2_pos z) - 24)) by lia.
  reflexivity.
Qed.

Lemma shiftl_exact (m z e : Z) :
  e <= 0 -> m = z * 2 ^ (- e) -> Z.shiftl m e = z.
Proof.
  intros He ->. destruct e as [|p|p]; try lia.
  - rewrite Z.shiftl_0_r. cbn. lia.
  - change (Z.shiftl (z * 2 ^ (- Z.neg p)) (Z.neg p))
      with (Z.shiftr (z * 2 ^ Z.pos p) (Z.pos p)).
    rewrite Z.shiftr_div_pow2 by lia. apply Z.div_mul.
    apply Z.pow_nonzero; lia.
Qed.

(** X11.  The index a sample carries.  [torch.Tensor([i]).long()] goes
    through float32; for every index of magnitude up to 2^24 the value
    that comes back is the index itself. *)
Theorem long_of_int_exact (i : Z) :
  - 2 ^ 24 <= i <= 2 ^ 24 ->
  Torch.long_of_int i = [i].
Proof.
  intros Hi.
  destruct (Z.eq_dec i (2 ^ 24)) as [->|Hhi]; [vm_compute; reflexivity|].
  destruct (Z.eq_dec i (- 2 ^ 24)) as [->|Hlo]; [vm_compute; reflexivity|].
  unfold Torch.long_of_int, Torch.f32_of_int.
  destruct i as [|p|p]; [reflexivity| |]; cbn [binary_normalize].
  - destruct (binary_round32_int false p ltac:(lia)) as [m [e [-> [He Hm]]]].
    cbn [SFtrunc]. now rewrite (shiftl_exact _ (Zpos p) e He Hm).
  - destruct (binary_round32_int true p ltac:(lia)) as [m [e [-> [He Hm]]]].
    cbn [SFtrunc]. now rewrite (shiftl_exact _ (Zpos p) e He Hm).
Qed.

Lemma long_of_int_exact_witness : Torch.long_of_int 58 = [58].
Proof. apply (long_of_int_exact 58). lia. Defined.

(** Beyond 2^24 the index need not come back: 2^24 + 1 returns as 2^24. *)
Example long_of_int_above_2_24 :
  Torch.long_of_int (2 ^ 24 + 1) = [2 ^ 24].
Proof. vm_compute. reflexivity. Qed.

(* ================================================================== *)
(** ** Model.forward: which batches it accepts *)
(* ================================================================== *)

Lemma apply_conv_row (training : bool) (n cin cout h w kw sw pw w' : Z) :
  1 <= h -> (w + 2 * pw <? kw) = false -> conv_out w kw sw pw 1 = w' ->
  apply training (Conv2d cin cout (1, kw) (1, sw) (0, pw) 1) [n; cin; h; w]
  = Ok [n; cout; h; w'].
Proof.
  intros Hh Hw Hout. cbn [apply]. rewrite Z.eqb_refl. cbn [negb].
  replace (h + 2 * 0 <? 1 * (1 - 1) + 1) with false
    by (symmetry; apply Z.ltb_ge; lia).
  replace (w + 2 * pw <? 1 * (kw - 1) + 1) with false
    by (symmetry; apply Z.ltb_ge; apply Z.ltb_ge in Hw; lia).
  cbn [orb]. rewrite Hout. do 4 f_equal.
  unfold conv_out. rewrite Z.div_1_r. lia.
Qed.

Lemma apply_bn (training : bool) (n c h w : Z) :
  n * h * w <> 1 ->
  apply training (BatchNorm2d c) [n; c; h; w] = Ok [n; c; h; w].
Proof.
  intros H. cbn [apply]. rewrite Z.eqb_refl. cbn [negb].
  destruct (Z.eqb_spec (n * h * w) 1); [contradiction|].
  now rewrite andb_false_r.
Qed.

Lemma apply_LeakyReLU (training : bool) (sh : list Z) :
  apply training LeakyReLU sh = Ok sh.
Proof. reflexivity. Qed.

Lemma encoder_shape_gen (training : bool) (n h : Z) :
  1 <= n -> 1 <= h ->
  sequential training formantAnalysis [n; 1; h; 32]
  = if training && (n * h =? 1) then Raise ValueError else Ok [n; 256; h; 1].
Proof.
  intros Hn Hh. assert (1 <= n * h) by nia.
  unfold formantAnalysis. cbn [sequential].
  rewrite (apply_conv_row training n 1 72 h 32 3 2 1 16) by (lia || reflexivity).
  cbn [rbind]. rewrite apply_bn by lia. cbn [rbind].
  rewrite apply_LeakyReLU. cbn [rbind].
  rewrite (apply_conv_row training n 72 108 h 16 3 2 1 8) by (lia || reflexivity).
  cbn [rbind]. rewrite apply_bn by lia. cbn [rbind].
  rewrite apply_LeakyReLU. cbn [rbind].
  rewrite (apply_conv_row training n 108 162 h 8 3 2 1 4) by (lia || reflexivity).
  cbn [rbind]. rewrite apply_bn by lia. cbn [rbind].
  rewrite apply_LeakyReLU. cbn [rbind].
  rewrite (apply_conv_row training n 162 243 h 4 3 2 1 2) by (lia || reflexivity).
  cbn [rbind]. rewrite apply_bn by lia. cbn [rbind].
  rewrite apply_LeakyReLU. cbn [rbind].
  rewrite (apply_conv_row training n 243 256 h 2 2 2 0 1) by (lia || reflexivity).
  cbn [rbind]. cbn [apply]. rewrite Z.mul_1_r.
  destruct (training && (n * h =? 1)); reflexivity.
Qed.

Lemma encoder_shape (training : bool) (n h : Z) :
  1 <= n -> 2 <= h ->
  sequential training formantAnalysis [n; 1; h; 32] = Ok [n; 256; h; 1].
Proof.
  intros Hn Hh. rewrite encoder_shape_gen by lia.
  destruct (Z.eqb_spec (n * h) 1); [nia|]. now rewrite andb_false_r.
Qed.

(** [forward] after the mood tensor has been shaped. *)
Lemma forward_unfold (training : bool) (n h : Z) (c : conditioning) :
  1 <= n -> 2 <= h ->
  forward training [n; 1; h; 32] c
  = (moodT <- moodShape_of n c ;;
     moodE <- expand moodT [n; moodLen; 64; 1] ;;
     joined <- cat1 [n; 256; h; 1] moodE ;;
     out <- Shape.view joined [-1; 256 + moodLen; 64; 1] ;;
     out <- sequential training articulation out ;;
     out <- Shape.view out [-1; 256 + moodLen] ;;
     out <- sequential training output out ;;
     Shape.view out [-1; OUTPUT_COUNT]).
Proof.
  intros Hn Hh. unfold forward. rewrite (encoder_shape training n h Hn Hh).
  cbn [rbind hd]. destruct c; reflexivity.
Qed.

(** What follows the concatenation, on 64-row tiles. *)
Lemma decoder_shape (training : bool) (n : Z) :
  1 <= n ->
  (joined <- cat1 [n; 256; 64; 1] [n; moodLen; 64; 1] ;;
   out <- Shape.view joined [-1; 256 + moodLen; 64; 1] ;;
   out <- sequential training articulation out ;;
   out <- Shape.view out [-1; 256 + moodLen] ;;
   out <- sequential training output out ;;
   Shape.view out [-1; OUTPUT_COUNT])
  = if training && (n =? 1) then Raise ValueError else Ok [n; OUTPUT_COUNT].
Proof.
  intros Hn.
  assert (Hcat : cat1 [n; 256; 64; 1] [n; moodLen; 64; 1]
                 = Ok [n; 256 + moodLen; 64; 1])
    by (unfold cat1; now rewrite Z.eqb_refl).
  rewrite Hcat. cbn [rbind]. rewrite view_lead by reflexivity. cbn [rbind].
  destruct training; cbn [andb].
  - destruct (Z.eqb_spec n 1) as [->|Hn1]; [reflexivity|].
    assert (Hart : sequential true articulation [n; 256 + moodLen; 64; 1]
                   = Ok [n; 256 + moodLen; 1; 1]) by shapes.
    rewrite Hart. cbn [rbind]. rewrite view_lead by reflexivity. cbn [rbind].
    assert (Hout : sequential true output [n; 256 + moodLen] = Ok [n; OUTPUT_COUNT])
      by reflexivity.
    rewrite Hout. cbn [rbind]. now rewrite view_lead by reflexivity.
  - assert (Hart : sequential false articulation [n; 256 + moodLen; 64; 1]
                   = Ok [n; 256 + moodLen; 1; 1]) by reflexivity.
    rewrite Hart. cbn [rbind]. rewrite view_lead by reflexivity. cbn [rbind].
    assert (Hout : sequential false output [n; 256 + moodLen] = Ok [n; OUTPUT_COUNT])
      by reflexivity.
    rewrite Hout. cbn [rbind]. now rewrite view_lead by reflexivity.
Qed.

Lemma view_exact (from to : list Z) :
  forallb (fun k => negb (k =? -1)) to = true ->
  Shape.view from to
  = if numel from =? numel to then Ok to else Raise RuntimeError.
Proof.
  intros Hno. unfold Shape.view.
  destruct (filter_no_hole to Hno) as [F1 [F2 _]]. now rewrite F1, F2.
Qed.

Lemma no_hole_lead (n : Z) (rest : list Z) :
  0 <= n -> forallb (fun k => negb (k =? -1)) rest = true ->
  forallb (fun k => negb (k =? -1)) (n :: rest) = true.
Proof.
  intros Hn Hr. cbn [forallb]. rewrite Hr.
  destruct (Z.eqb_spec n (-1)); [lia | reflexivity].
Qed.

Lemma gather_pair (moodSize : Z) (sh idx : list Z) :
  (rows <- gather moodSize sh idx ;;
   _ <- gather moodSize sh (map (fun v => v + 1) idx) ;;
   Ok rows)
  = if forallb (fun v => (- moodSize <=? v) && (v + 1 <? moodSize)) idx
    then Ok (sh ++ [moodLen]) else Raise RuntimeError.
Proof.
  unfold gather.
  assert (H : forallb (fun v => (- moodSize <=? v) && (v + 1 <? moodSize)) idx
              = forallb (fun v => (- moodSize <=? v) && (v <? moodSize)) idx
                && forallb (fun v => (- moodSize <=? v) && (v <? moodSize))
                     (map (fun v => v + 1) idx)).
  { induction idx as [|v idx IH]; [reflexivity|]. cbn [forallb map]. rewrite IH.
    destruct (Z.leb_spec (- moodSize) v), (Z.ltb_spec v moodSize),
      (Z.leb_spec (- moodSize) (v + 1)), (Z.ltb_spec (v + 1) moodSize);
      cbn [andb]; try lia; try reflexivity;
      repeat match goal with |- context [forallb ?f ?l] => destruct (forallb f l) end;
      reflexivity. }
  rewrite H. clear H.
  set (b1 := forallb (fun v => (- moodSize <=? v) && (v <? moodSize)) idx).
  set (b2 := forallb _ (map _ idx)).
  destruct b1, b2; reflexivity.
Qed.

Lemma moodShape_of_index (n moodSize : Z) (sh idx : list Z) :
  moodShape_of n (ByIndex moodSize sh idx)
  = if forallb (fun v => (- moodSize <=? v) && (v + 1 <? moodSize)) idx
    then Shape.view (cat0_twice (sh ++ [moodLen])) [n; moodLen; 1; 1]
    else Raise RuntimeError.
Proof.
  pose proof (gather_pair moodSize sh idx) as H. unfold moodShape_of.
  destruct (gather moodSize sh idx) as [rows|x] eqn:Hg; cbn [rbind] in *.
  - destruct (gather moodSize sh (map _ idx)) as [rows'|x] eqn:Hg'; cbn [rbind] in *.
    + destruct (forallb _ idx); [|discriminate].
      unfold gather in Hg. destruct (forallb _ idx) in Hg; [|discriminate].
      now injection Hg as <-.
    + destruct (forallb _ idx); [discriminate|].
      unfold gather in Hg'. destruct (forallb _ (map _ idx)) in Hg'; [discriminate|].
      now injection Hg' as <-.
  - destruct (forallb _ idx); [discriminate|].
    unfold gather in Hg. destruct (forallb _ idx) in Hg; [discriminate|].
    now injection Hg as <-.
Qed.

(** X12.  Conditioning by index.  On a batch of [n >= 1] tiles with an
    index tensor of shape [(B, 1)] into a table of [moodSize] rows,
    [forward] gathers the rows [idx] and the rows [idx + 1]: it raises
    RuntimeError as soon as one index lies outside
    [-moodSize, moodSize - 1), whatever the batch.  With every index in
    that range it returns [(n, OUTPUT_COUNT)] when [n = 2 * B], in
    training as in evaluation mode, and raises RuntimeError otherwise
    (the gathered rows cannot be viewed as one row per tile).  So the
    indices 0 to [moodSize - 2] pass, and the index [moodSize - 1], the
    last row of the table, stops the call. *)
Theorem forward_by_index (training : bool) (n B moodSize : Z) (idx : list Z) :
  1 <= n -> 0 <= B ->
  forward training [n; 1; 64; 32] (ByIndex moodSize [B; 1] idx)
  = (if forallb (fun v => (- moodSize <=? v) && (v + 1 <? moodSize)) idx
     then if n =? 2 * B then Ok [n; OUTPUT_COUNT] else Raise RuntimeError
     else Raise RuntimeError)
  /\ ((forall v, In v idx -> 0 <= v < moodSize - 1) -> n = 2 * B ->
      forward training [n; 1; 64; 32] (ByIndex moodSize [B; 1] idx)
      = Ok [n; OUTPUT_COUNT])
  /\ (In (moodSize - 1) idx ->
      forward training [n; 1; 64; 32] (ByIndex moodSize [B; 1] idx)
      = Raise RuntimeError).
Proof.
  intros Hn HB.
  assert (Hrun : forward training [n; 1; 64; 32] (ByIndex moodSize [B; 1] idx)
                 = if forallb (fun v => (- moodSize <=? v) && (v + 1 <? moodSize)) idx
                   then if n =? 2 * B then Ok [n; OUTPUT_COUNT] else Raise RuntimeError
                   else Raise RuntimeError).
  { rewrite forward_unfold by lia. rewrite moodShape_of_index.
    destruct (forallb _ idx); [|reflexivity].
    unfold cat0_twice. cbn [hd tl app].
    rewrite view_exact by (apply no_hole_lead; [lia | reflexivity]).
    assert (Hnum : (numel [2 * B; 1; moodLen] =? numel [n; moodLen; 1; 1])
                   = (n =? 2 * B)).
    { cbn [numel fold_right]. unfold moodLen.
      destruct (Z.eqb_spec n (2 * B)) as [E|E]; [apply Z.eqb_eq | apply Z.eqb_neq]; lia. }
    rewrite Hnum. destruct (Z.eqb_spec n (2 * B)) as [E|E]; [|reflexivity].
    cbn [rbind].
    assert (Hexp : expand [n; moodLen; 1; 1] [n; moodLen; 64; 1]
                   = Ok [n; moodLen; 64; 1])
      by (cbn; now rewrite Z.eqb_refl).
    rewrite Hexp. cbn [rbind]. rewrite decoder_shape by lia.
    destruct (Z.eqb_spec n 1); [lia|]. now rewrite andb_false_r. }
  split; [exact Hrun|]. split.
  - intros Hin ->. rewrite Hrun, Z.eqb_refl.
    replace (forallb _ idx) with true; [reflexivity|].
    symmetry. apply forallb_forall. intros v Hv. specialize (Hin v Hv).
    apply andb_true_intro. split; [apply Z.leb_le | apply Z.ltb_lt]; lia.
  - intros Hin. rewrite Hrun.
    destruct (forallb _ idx) eqn:Hall; [|reflexivity].
    rewrite forallb_forall in Hall. specialize (Hall _ Hin).
    apply andb_prop in Hall. destruct Hall as [_ Hlt].
    apply Z.ltb_lt in Hlt. lia.
Qed.

Lemma forward_by_index_witness :
  forward true [4; 1; 64; 32] (ByIndex 60 [2; 1] [7; 58])
  = Ok [4; OUTPUT_COUNT].
Proof.
  apply (forward_by_index true 4 2 60 [7; 58]); try lia.
  intros v [<-|[<-|[]]]; lia.
Defined.

(** X13.  Conditioning by supplied mood vectors.  With [k >= 1] mood
    vectors for a batch of [n >= 1] tiles, [forward] accepts one vector
    (shared by all tiles) or one vector per tile, and raises
    RuntimeError for any other number.  When it accepts, evaluation mode
    returns [(n, OUTPUT_COUNT)] for every batch, while training mode
    raises ValueError on a batch of a single tile: the last block of
    [articulation] leaves one value per channel, which batch
    normalisation refuses. *)
Theorem forward_by_vector (training : bool) (n k : Z) :
  1 <= n -> 1 <= k ->
  forward training [n; 1; 64; 32] (ByVector [k; moodLen])
  = if (k =? n) || (k =? 1)
    then if training && (n =? 1) then Raise ValueError else Ok [n; OUTPUT_COUNT]
    else Raise RuntimeError.
Proof.
  intros Hn Hk. rewrite forward_unfold by lia.
  unfold moodShape_of.
  rewrite (view_lead k [moodLen] [moodLen]) by reflexivity.
  cbn [rbind hd].
  rewrite view_exact by (apply no_hole_lead; [lia | reflexivity]).
  assert (Hnum : (numel [k; moodLen] =? numel [k; moodLen; 1; 1]) = true)
    by (apply Z.eqb_eq; cbn [numel fold_right]; lia).
  rewrite Hnum. cbn [rbind].
  assert (Hexp : expand [k; moodLen; 1; 1] [n; moodLen; 64; 1]
                 = if (k =? n) || (k =? 1) then Ok [n; moodLen; 64; 1]
                   else Raise RuntimeError)
    by (cbn; destruct ((k =? n) || (k =? 1)); reflexivity).
  rewrite Hexp. destruct ((k =? n) || (k =? 1)); [|reflexivity].
  cbn [rbind]. now apply decoder_shape.
Qed.

Lemma forward_by_vector_witness :
  forward true [1; 1; 64; 32] (ByVector [1; moodLen])
  = if (1 =? 1) || (1 =? 1)
    then if true && (1 =? 1) then Raise ValueError else Ok [1; OUTPUT_COUNT]
    else Raise RuntimeError.
Proof. apply (forward_by_vector true 1 1); lia. Defined.

(** X14.  [forward] takes tiles of 64 rows only: the mood is expanded to
    64 rows whatever the input, so for a tile height [h >= 2] other than
    64 the concatenation of line 228 (or 238) raises RuntimeError, with
    a supplied mood vector as with an index, whatever the table and the
    indices. *)
Theorem forward_rejects_other_heights
    (training : bool) (n h B moodSize : Z) (idx : list Z) :
  1 <= n -> 2 <= h -> h <> 64 ->
  forward training [n; 1; h; 32] (ByVector [moodLen]) = Raise RuntimeError
  /\ forward training [n; 1; h; 32] (ByIndex moodSize [B; 1] idx)
     = Raise RuntimeError.
Proof.
  intros Hn Hh H64.
  assert (Hcat : cat1 [n; 256; h; 1] [n; moodLen; 64; 1] = Raise RuntimeError).
  { unfold cat1. rewrite Z.eqb_refl. cbn.
    destruct (Z.eqb_spec h 64); [contradiction | reflexivity]. }
  split; rewrite forward_unfold by lia.
  - unfold moodShape_of.
    change (flat <- Shape.view [moodLen] [-1; moodLen] ;;
            Shape.view [moodLen] [hd 0 flat; moodLen; 1; 1])
      with (Ok [1; moodLen; 1; 1]).
    cbn [rbind].
    assert (Hexp : expand [1; moodLen; 1; 1] [n; moodLen; 64; 1]
                   = Ok [n; moodLen; 64; 1])
      by (cbn; now rewrite orb_true_r).
    rewrite Hexp. cbn [rbind]. now rewrite Hcat.
  - rewrite moodShape_of_index.
    destruct (forallb _ idx); [|reflexivity].
    unfold cat0_twice. cbn [hd tl app].
    destruct (Shape.view [2 * B; 1; moodLen] [n; moodLen; 1; 1]) as [moodT|x] eqn:Hv.
    + cbn [rbind].
      assert (HmoodT : moodT = [n; moodLen; 1; 1]).
      { rewrite view_exact in Hv by (apply no_hole_lead; [lia | reflexivity]).
        destruct (_ =? _); congruence. }
      subst moodT.
      assert (Hexp : expand [n; moodLen; 1; 1] [n; moodLen; 64; 1]
                     = Ok [n; moodLen; 64; 1])
        by (cbn; now rewrite Z.eqb_refl).
      rewrite Hexp. cbn [rbind]. now rewrite Hcat.
    + rewrite view_exact in Hv by (apply no_hole_lead; [lia | reflexivity]).
      destruct (_ =? _); [discriminate|]. injection Hv as <-. reflexivity.
Qed.

Lemma forward_rejects_other_heights_witness :
  forward false [1; 1; 32; 32] (ByVector [moodLen]) = Raise RuntimeError
  /\ forward false [1; 1; 32; 32] (ByIndex 60 [1; 1] [7]) = Raise RuntimeError.
Proof. apply (forward_rejects_other_heights false 1 32 1 60 [7]); lia. Defined.

(** X15.  The decoder, stage by stage.  On the joined tensor
    [(n, 272, 64, 1)] the five blocks of [articulation] leave 32, 16, 8,
    4 and 1 rows, every block keeping the 272 channels; the two linear
    layers of [output] then map the 272 values of a tile to 128 and to
    [OUTPUT_COUNT].  In training mode this needs a batch of two tiles or
    more. *)
Theorem articulation_shape (training : bool) (n : Z) :
  (if training then 2 else 1) <= n ->
  sequential training (firstn 4 articulation) [n; 272; 64; 1] = Ok [n; 272; 32; 1]
  /\ sequential training (firstn 8 articulation) [n; 272; 64; 1] = Ok [n; 272; 16; 1]
  /\ sequential training (firstn 12 articulation) [n; 272; 64; 1] = Ok [n; 272; 8; 1]
  /\ sequential training (firstn 16 articulation) [n; 272; 64; 1] = Ok [n; 272; 4; 1]
  /\ sequential training articulation [n; 272; 64; 1] = Ok [n; 272; 1; 1]
  /\ sequential training (firstn 1 output) [n; 272] = Ok [n; 128]
  /\ sequential training output [n; 272] = Ok [n; OUTPUT_COUNT].
Proof.
  intros Hn. repeat split; destruct training; shapes.
Qed.

Lemma articulation_shape_witness :
  sequential true (firstn 4 articulation) [2; 272; 64; 1] = Ok [2; 272; 32; 1]
  /\ sequential true (firstn 8 articulation) [2; 272; 64; 1] = Ok [2; 272; 16; 1]
  /\ sequential true (firstn 12 articulation) [2; 272; 64; 1] = Ok [2; 272; 8; 1]
  /\ sequential true (firstn 16 articulation) [2; 272; 64; 1] = Ok [2; 272; 4; 1]
  /\ sequential true articulation [2; 272; 64; 1] = Ok [2; 272; 1; 1]
  /\ sequential true (firstn 1 output) [2; 272] = Ok [2; 128]
  /\ sequential true output [2; 272] = Ok [2; OUTPUT_COUNT].
Proof. apply (articulation_shape true 2). lia. Defined.

(* ================================================================== *)
(** ** Which mood row a tile gets *)
(* ================================================================== *)

(** A view cuts the payload where the rows were joined. *)
Lemma chunks_concat (w : nat) (rows : matrix) :
  wf_matrix w rows ->
  Torch.chunks (List.length rows) w (List.concat rows) = rows.
Proof.
  induction 1 as [|r rows Hr _ IH]; [reflexivity|].
  cbn [List.length Torch.chunks List.concat].
  rewrite <- Hr at 1 3.
  rewrite firstn_app, firstn_all, Nat.sub_diag, skipn_app, skipn_all, Nat.sub_diag.
  cbn [firstn skipn app]. rewrite app_nil_r. now rewrite IH.
Qed.

Lemma length_pairs {A B : Type} (f g : A -> B) (l : list A) :
  List.length (flat_map (fun x => [f x; g x]) l) = (2 * List.length l)%nat.
Proof.
  induction l as [|x l IH]; [reflexivity|].
  cbn [flat_map app List.length]. rewrite IH. lia.
Qed.

Lemma nth_pairs {A B : Type} (f g : A -> B) (l : list A) (k : nat) (a : A) (b : B) :
  (k < List.length l)%nat ->
  nth (2 * k) (flat_map (fun x => [f x; g x]) l) b = f (nth k l a)
  /\ nth (2 * k + 1) (flat_map (fun x => [f x; g x]) l) b = g (nth k l a).
Proof.
  revert k. induction l as [|x l IH]; intros k Hk; [cbn in Hk; lia|].
  destruct k as [|k]; [split; reflexivity|].
  cbn [List.length] in Hk.
  replace (2 * S k)%nat with (S (S (2 * k))) by lia.
  replace (S (S (2 * k)) + 1)%nat with (S (S (2 * k + 1))) by lia.
  cbn [flat_map app nth]. apply IH. lia.
Qed.

(** Line 287 on a batch whose items hold two tiles each: the tiles are
    the two halves of every item, item after item. *)
Lemma tiles_of_batch (inputs : matrix) :
  Forall (fun x => Z.of_nat (List.length x) = 2 * tile_len) inputs ->
  tiles (List.concat inputs)
  = Ok (flat_map (fun x => [firstn (Z.to_nat tile_len) x;
                            skipn (Z.to_nat tile_len) x]) inputs).
Proof.
  intros Hlen.
  set (halves := flat_map (fun x => [firstn (Z.to_nat tile_len) x;
                                     skipn (Z.to_nat tile_len) x]) inputs).
  assert (Hcat : List.concat halves = List.concat inputs).
  { unfold halves. clear Hlen. induction inputs as [|x l IH]; [reflexivity|].
    cbn [flat_map app List.concat]. rewrite IH, app_assoc, firstn_skipn.
    reflexivity. }
  assert (Hwf : wf_matrix (Z.to_nat tile_len) halves).
  { unfold halves. clear Hcat. induction Hlen as [|x l Hx _ IH]; [constructor|].
    cbn [flat_map app]. unfold tile_len in *.
    constructor; [rewrite length_firstn; lia|].
    constructor; [rewrite length_skipn; lia | exact IH]. }
  assert (Hn : Z.of_nat (List.length (List.concat inputs))
               = Z.of_nat (List.length halves) * tile_len).
  { rewrite <- Hcat, (length_concat_uniform _ _ Hwf).
    rewrite Nat2Z.inj_mul, Z2Nat.id by (unfold tile_len; lia). reflexivity. }
  unfold tiles. rewrite Hn.
  rewrite Z.mod_mul, Z.div_mul by (unfold tile_len; lia).
  cbn [Z.eqb]. rewrite Nat2Z.id, <- Hcat. now rewrite chunks_concat.
Qed.

(** The gather of rows that are all in the table. *)
Lemma gather_rows_inside (mood : matrix) (idx : list Z) :
  Forall (fun v => 0 <= v < Z.of_nat (List.length mood)) idx ->
  gather_rows mood idx = Ok (map (fun v => nth (Z.to_nat v) mood []) idx).
Proof.
  intros Hin. unfold gather_rows.
  replace (forallb _ idx) with true.
  - f_equal. apply map_ext_in. intros v Hv.
    rewrite Forall_forall in Hin. specialize (Hin v Hv).
    now rewrite Z.mod_small.
  - symmetry. apply forallb_forall. intros v Hv.
    rewrite Forall_forall in Hin. specialize (Hin v Hv).
    apply andb_true_intro. split; [apply Z.leb_le | apply Z.ltb_lt]; lia.
Qed.

Lemma wf_gathered (w : nat) (mood : matrix) (idx : list Z) :
  wf_matrix w mood ->
  Forall (fun v => 0 <= v < Z.of_nat (List.length mood)) idx ->
  wf_matrix w (map (fun v => nth (Z.to_nat v) mood []) idx).
Proof.
  intros Hwf Hin. apply Forall_map. revert Hin. apply Forall_impl.
  intros v Hv. unfold wf_matrix in Hwf. rewrite Forall_forall in Hwf.
  apply Hwf, nth_In. lia.
Qed.

(** Lines 241-246 on indices that are all in the table, with their
    successors: the rows of the indices, then the rows of the
    successors. *)
Lemma moodOfTiles_rows (mood : matrix) (idx : list Z) :
  wf_matrix (Z.to_nat moodLen) mood ->
  Forall (fun i => 0 <= i /\ i + 1 < Z.of_nat (List.length mood)) idx ->
  moodOfTiles mood idx (Z.of_nat (2 * List.length idx))
  = Ok (map (fun v => nth (Z.to_nat v) mood []) idx
        ++ map (fun v => nth (Z.to_nat (v + 1)) mood []) idx).
Proof.
  intros Hwf Hin.
  assert (H0 : Forall (fun v => 0 <= v < Z.of_nat (List.length mood)) idx).
  { revert Hin. apply Forall_impl. intros v Hv. lia. }
  assert (H1 : Forall (fun v => 0 <= v < Z.of_nat (List.length mood))
                 (map (fun v => v + 1) idx)).
  { apply Forall_map. revert Hin. apply Forall_impl. intros v Hv. lia. }
  unfold moodOfTiles.
  rewrite (gather_rows_inside mood idx H0). cbn [rbind].
  rewrite (gather_rows_inside mood _ H1). cbn [rbind].
  rewrite map_map. unfold Torch.cat.
  set (rows := map _ idx ++ map _ idx).
  assert (Hrows : wf_matrix (Z.to_nat moodLen) rows).
  { unfold rows. apply wf_matrix_app; [now apply wf_gathered|].
    rewrite <- (map_map (fun v => v + 1) (fun v => nth (Z.to_nat v) mood [])).
    now apply wf_gathered. }
  assert (Hlen : List.length rows = (2 * List.length idx)%nat).
  { unfold rows. rewrite length_app, !length_map. lia. }
  rewrite (length_concat_uniform _ _ Hrows), Hlen.
  rewrite Nat2Z.inj_mul, Z2Nat.id by (unfold moodLen; lia).
  rewrite Z.eqb_refl, Nat2Z.id, <- Hlen. now rewrite chunks_concat.
Qed.

Lemma batch_index_singletons (items : list sample) :
  Forall (fun s => List.length (index s) = 1%nat) items ->
  List.length (batch_index items) = List.length items.
Proof.
  unfold batch_index. induction 1 as [|s l Hs _ IH]; [reflexivity|].
  cbn [map List.concat List.length]. rewrite length_app, Hs, IH. reflexivity.
Qed.

(** X16.  Which mood row a tile is conditioned on, in a training batch
    of [B] items.  Item [k] holds two tiles, the window of the frame
    [i_k] and the window of the frame [i_k + 1]; line 287 lays the tiles
    out item after item, so tile [2k] is the first half of item [k] and
    tile [2k + 1] its second half.  Lines 241-246 lay the mood rows out
    block after block: tile [k] gets the table row [i_k] and tile
    [B + k] the row [i_k + 1].  In a batch of two items or more, tile 1,
    the window of the frame [i_0 + 1], is therefore conditioned on the
    row [i_1] of the next item, not on the row [i_0 + 1]. *)
Theorem tiles_and_mood_rows (mood : matrix) (items : list sample) :
  let B := List.length items in
  let moodIndex := batch_index items in
  let inputs := map (fun s => data (input s)) items in
  wf_matrix (Z.to_nat moodLen) mood ->
  Forall (fun s => List.length (index s) = 1%nat
                   /\ Z.of_nat (List.length (data (input s))) = 2 * tile_len) items ->
  Forall (fun i => 0 <= i /\ i + 1 < Z.of_nat (List.length mood)) moodIndex ->
  exists ts rows,
    tiles (batch_input items) = Ok ts
    /\ moodOfTiles mood moodIndex (Z.of_nat (List.length ts)) = Ok rows
    /\ List.length ts = (2 * B)%nat
    /\ List.length rows = (2 * B)%nat
    /\ (forall k, (k < B)%nat ->
          nth (2 * k) ts [] = firstn (Z.to_nat tile_len) (nth k inputs [])
          /\ nth (2 * k + 1) ts [] = skipn (Z.to_nat tile_len) (nth k inputs [])
          /\ nth k rows [] = nth (Z.to_nat (nth k moodIndex 0)) mood []
          /\ nth (B + k) rows [] = nth (Z.to_nat (nth k moodIndex 0 + 1)) mood [])
    /\ ((2 <= B)%nat ->
          nth 1 ts [] = skipn (Z.to_nat tile_len) (nth 0 inputs [])
          /\ nth 1 rows [] = nth (Z.to_nat (nth 1 moodIndex 0)) mood []).
Proof.
  intros B moodIndex inputs Hwf Hitems Hidx.
  assert (Hone : Forall (fun s => List.length (index s) = 1%nat) items).
  { revert Hitems. apply Forall_impl. intros s [H _]. exact H. }
  assert (Hin : Forall (fun x => Z.of_nat (List.length x) = 2 * tile_len) inputs).
  { unfold inputs. apply Forall_map. revert Hitems. apply Forall_impl.
    intros s [_ H]. exact H. }
  assert (HB : List.length moodIndex = B) by (apply batch_index_singletons; exact Hone).
  assert (HB' : List.length inputs = B) by (unfold inputs; apply length_map).
  pose proof (tiles_of_batch inputs Hin) as Ht.
  pose proof (moodOfTiles_rows mood moodIndex Hwf Hidx) as Hm.
  set (ts := flat_map _ inputs) in Ht.
  set (rows := _ ++ _) in Hm.
  assert (Lt : List.length ts = (2 * B)%nat)
    by (unfold ts; rewrite length_pairs, HB'; reflexivity).
  assert (Lr : List.length rows = (2 * B)%nat)
    by (unfold rows; rewrite length_app, !length_map, HB; lia).
  assert (Hrow : forall k, (k < B)%nat ->
             nth k rows [] = nth (Z.to_nat (nth k moodIndex 0)) mood []
             /\ nth (B + k) rows [] = nth (Z.to_nat (nth k moodIndex 0 + 1)) mood []).
  { intros k Hk. unfold rows. split.
    - rewrite app_nth1 by (rewrite length_map; lia).
      set (f := fun v => nth (Z.to_nat v) mood []).
      rewrite (nth_indep _ [] (f 0)) by (rewrite length_map; lia).
      now rewrite (map_nth f).
    - rewrite app_nth2 by (rewrite length_map; lia).
      rewrite length_map, HB.
      replace (B + k - B)%nat with k by lia.
      set (f := fun v => nth (Z.to_nat (v + 1)) mood []).
      rewrite (nth_indep _ [] (f 0)) by (rewrite length_map; lia).
      now rewrite (map_nth f). }
  assert (Htile : forall k, (k < B)%nat ->
             nth (2 * k) ts [] = firstn (Z.to_nat tile_len) (nth k inputs [])
             /\ nth (2 * k + 1) ts [] = skipn (Z.to_nat tile_len) (nth k inputs [])).
  { intros k Hk. unfold ts. apply nth_pairs. lia. }
  exists ts, rows.
  split; [exact Ht|]. split; [rewrite Lt, <- HB; exact Hm|].
  split; [exact Lt|]. split; [exact Lr|]. split.
  - intros k Hk. destruct (Htile k Hk) as [T0 T1]. destruct (Hrow k Hk) as [R0 R1].
    repeat split; assumption.
  - intros H2. split.
    + exact (proj2 (Htile 0%nat ltac:(lia))).
    + exact (proj1 (Hrow 1%nat ltac:(lia))).
Qed.

Lemma tiles_and_mood_rows_witness :
  exists ts rows,
    tiles (batch_input two_items) = Ok ts
    /\ moodOfTiles (mood_ramp 45) (batch_index two_items)
         (Z.of_nat (List.length ts)) = Ok rows
    /\ List.length ts = (2 * List.length two_items)%nat
    /\ List.length rows = (2 * List.length two_items)%nat
    /\ (forall k, (k < List.length two_items)%nat ->
          nth (2 * k) ts []
          = firstn (Z.to_nat tile_len)
              (nth k (map (fun s => data (input s)) two_items) [])
          /\ nth (2 * k + 1) ts []
             = skipn (Z.to_nat tile_len)
                 (nth k (map (fun s => data (input s)) two_items) [])
          /\ nth k rows []
             = nth (Z.to_nat (nth k (batch_index two_items) 0)) (mood_ramp 45) []
          /\ nth (List.length two_items + k) rows []
             = nth (Z.to_nat (nth k (batch_index two_items) 0 + 1)) (mood_ramp 45) [])
    /\ ((2 <= List.length two_items)%nat ->
          nth 1 ts []
          = skipn (Z.to_nat tile_len)
              (nth 0 (map (fun s => data (input s)) two_items) [])
          /\ nth 1 rows []
             = nth (Z.to_nat (nth 1 (batch_index two_items) 0)) (mood_ramp 45) []).
Proof.
  apply (tiles_and_mood_rows (mood_ramp 45) two_items).
  - apply Forall_forall. intros r Hr. apply in_map_iff in Hr.
    destruct Hr as [k [<- _]]. apply repeat_length.
  - repeat constructor.
  - repeat constructor; vm_compute; congruence.
Defined.

(** [two_items] holds the indices and the inputs of the items 3 and 20
    of [clip40]. *)
Example two_items_from_getitem :
  exists inp inp' tgt tgt' w w',
    two_items = [ mkSample [3] inp (mkTensor [2; 0] []);
                  mkSample [20] inp' (mkTensor [2; 0] []) ]
    /\ getitem (env_of false 45) clip40 3 w0 = (Ok (mkSample [3] inp tgt), w)
    /\ getitem (env_of false 45) clip40 20 w0 = (Ok (mkSample [20] inp' tgt'), w').
Proof.
  eexists. eexists. eexists. eexists. eexists. eexists.
  split; [reflexivity|]. split.
  - apply (getitem_train_ok (env_of false 45) clip40 3 w0 w0 2 3
             frame_file frame_file).
    + reflexivity.
    + apply wf_ramp.
    + vm_compute. lia.
    + vm_compute. reflexivity.
    + apply (disk_frames_hit "/surat" 45 4). lia.
    + apply (disk_frames_hit "/surat" 45 5). lia.
    + apply length_frame_file.
    + apply length_frame_file.
  - apply (getitem_train_ok (env_of false 45) clip40 20 w0 w0 17 18
             frame_file frame_file).
    + reflexivity.
    + apply wf_ramp.
    + vm_compute. lia.
    + vm_compute. reflexivity.
    + apply (disk_frames_hit "/surat" 45 21). lia.
    + apply (disk_frames_hit "/surat" 45 22). lia.
    + apply length_frame_file.
    + apply length_frame_file.
Qed.

(** On these two items: tile 1 shows the frame 4 and is conditioned on
    the mood row 20. *)
Example two_items_tile_1 :
  exists ts rows,
    tiles (batch_input two_items) = Ok ts
    /\ moodOfTiles (mood_ramp 45) (batch_index two_items) 4 = Ok rows
    /\ nth 1 ts [] = List.concat (circular_window (ramp 40) 3)
    /\ map (fun r => hd 0%Q r) rows = [3; 20; 4; 21]%Q.
Proof.
  eexists. eexists. split; [vm_compute; reflexivity|].
  split; [vm_compute; reflexivity|]. split; vm_compute; reflexivity.
Qed.

(* ================================================================== *)
(** ** The losses: sign, zero, offsets *)
(* ================================================================== *)

Lemma square_nonneg (x y : Q) : (0 <= (x - y) * (x - y))%Q.
Proof.
  destruct (Qlt_le_dec (x - y) 0) as [H|H].
  - setoid_replace ((x - y) * (x - y))%Q with ((- (x - y)) * (- (x - y)))%Q by ring.
    apply Qmult_le_0_compat; lra.
  - now apply Qmult_le_0_compat.
Qed.

Lemma qsum_nonneg (l : list Q) :
  Forall (fun x => (0 <= x)%Q) l -> (0 <= qsum l)%Q.
Proof.
  induction 1 as [|x l Hx _ IH]; cbn [qsum fold_right]; [lra|].
  fold (qsum l). lra.
Qed.

Lemma qsum_zero_iff (l : list Q) :
  Forall (fun x => (0 <= x)%Q) l -> ((qsum l == 0)%Q <-> all_zero l).
Proof.
  induction 1 as [|x l Hx Hl IH]; cbn [qsum fold_right].
  - split; [constructor | reflexivity].
  - fold (qsum l). pose proof (qsum_nonneg l Hl) as Hs. split.
    + intros H. constructor; [lra|]. apply IH. lra.
    + intros H. inversion H as [|? ? H1 H2]; subst. apply IH in H2. lra.
Qed.

Lemma squares_nonneg (a b : list Q) :
  Forall (fun x => (0 <= x)%Q) (zipWith (fun x y => ((x - y) * (x - y))%Q) a b).
Proof.
  revert b. induction a as [|x a IH]; intros [|y b]; try constructor.
  - apply square_nonneg.
  - apply IH.
Qed.

Lemma row_errors_nonneg (a b : matrix) :
  Forall (fun x => (0 <= x)%Q) (sum_last (MSENoReductionCriterion a b)).
Proof.
  revert b. induction a as [|r a IH]; intros [|r' b]; try constructor.
  - apply qsum_nonneg, squares_nonneg.
  - apply IH.
Qed.

Lemma mean_nonneg (l : list Q) (q : Q) :
  Forall (fun x => (0 <= x)%Q) l -> mean l = Some q -> (0 <= q)%Q.
Proof.
  intros Hl Hm. destruct l as [|x l]; [discriminate|].
  injection Hm as <-. pose proof (qsum_nonneg _ Hl) as Hs.
  apply Qle_shift_div_l.
  - unfold Qlt. cbn [Qnum Qden inject_Z List.length]. lia.
  - rewrite Qmult_0_l. exact Hs.
Qed.

(** X17.  The three losses are never negative (when the batch is empty
    they are undefined, the mean of no value). *)
Theorem losses_nonneg (modelResultPairView targetPairView : pairView)
    (mood_i mood_i1 : matrix) :
  match shapeLoss modelResultPairView targetPairView with
  | Some q => (0 <= q)%Q
  | None => modelResultPairView = [] \/ targetPairView = []
  end
  /\ match motionLoss modelResultPairView targetPairView with
     | Some q => (0 <= q)%Q
     | None => modelResultPairView = [] \/ targetPairView = []
     end
  /\ match emotionLoss mood_i mood_i1 with
     | Some q => (0 <= q)%Q
     | None => mood_i = [] \/ mood_i1 = []
     end.
Proof.
  assert (Hgen : forall a b : matrix,
             match mean (sum_last (MSENoReductionCriterion a b)) with
             | Some q => (0 <= q)%Q
             | None => a = [] \/ b = []
             end).
  { intros a b.
    destruct (mean _) as [q|] eqn:Hm.
    - exact (mean_nonneg _ q (row_errors_nonneg a b) Hm).
    - destruct a as [|r a]; [now left|]. destruct b as [|r' b]; [now right|].
      discriminate. }
  split; [|split].
  - pose proof (Hgen (frame0 modelResultPairView) (frame0 targetPairView)) as H.
    unfold shapeLoss. destruct (mean _); [exact H|].
    destruct H as [H|H]; [left | right];
      [destruct modelResultPairView | destruct targetPairView];
      (reflexivity || discriminate).
  - pose proof (Hgen (msub (frame1 modelResultPairView) (frame0 modelResultPairView))
                     (msub (frame1 targetPairView) (frame0 targetPairView))) as H.
    unfold motionLoss. destruct (mean _); [exact H|].
    destruct H as [H|H]; [left | right];
      [destruct modelResultPairView | destruct targetPairView];
      (reflexivity || discriminate).
  - apply Hgen.
Qed.

Lemma square_zero_iff (x y : Q) : (((x - y) * (x - y) == 0)%Q <-> (x == y)%Q).
Proof.
  split; intros H.
  - destruct (Qmult_integral _ _ H); lra.
  - rewrite H. ring.
Qed.

Lemma row_error_zero_iff (r r' : list Q) :
  List.length r = List.length r' ->
  ((qsum (zipWith (fun x y => ((x - y) * (x - y))%Q) r r') == 0)%Q
   <-> Forall2 Qeq r r').
Proof.
  intros Hlen. rewrite (qsum_zero_iff _ (squares_nonneg r r')).
  revert r' Hlen. induction r as [|x r IH]; intros [|y r'] Hlen; try discriminate.
  - split; constructor.
  - rewrite zipWith_cons. injection Hlen as Hlen. split.
    + intros H. inversion H as [|? ? H1 H2]; subst.
      constructor; [now apply square_zero_iff | now apply IH].
    + intros H. inversion H as [|? ? ? ? H1 H2]; subst.
      constructor; [now apply square_zero_iff | now apply IH].
Qed.

Lemma row_errors_zero_iff (a b : matrix) :
  same_shape a b ->
  (all_zero (sum_last (MSENoReductionCriterion a b)) <-> meq a b).
Proof.
  induction 1 as [|r r' a b Hr _ IH].
  - split; constructor.
  - unfold MSENoReductionCriterion. rewrite zipWith_cons. cbn [sum_last map]. split.
    + intros H. inversion H as [|? ? H1 H2]; subst.
      constructor; [now apply row_error_zero_iff | now apply IH].
    + intros H. inversion H as [|? ? ? ? H1 H2]; subst.
      constructor; [now apply row_error_zero_iff | now apply IH].
Qed.

Lemma Qdiv_zero_iff (s n : Q) : (0 < n)%Q -> ((s / n == 0)%Q <-> (s == 0)%Q).
Proof.
  intros Hn. pose proof (Qinv_lt_0_compat n Hn) as Hi. unfold Qdiv. split; intros H.
  - destruct (Qmult_integral _ _ H) as [H0|H0]; [exact H0 | lra].
  - rewrite H. ring.
Qed.

Lemma mean_zero_iff (l : list Q) (q : Q) :
  mean l = Some q -> ((q == 0)%Q <-> (qsum l == 0)%Q).
Proof.
  intros Hm. destruct l as [|x l]; [discriminate|]. injection Hm as <-.
  apply Qdiv_zero_iff.
  unfold Qlt. cbn [Qnum Qden inject_Z List.length]. lia.
Qed.

Lemma meq_same_shape (a b : matrix) : meq a b -> same_shape a b.
Proof.
  induction 1 as [|r r' a b Hr _ IH]; constructor; [|exact IH].
  exact (Forall2_length Hr).
Qed.

(** X18.  The shape loss looks at the first frame of every pair only,
    and vanishes when the predicted first frames are the target first
    frames: for a non-empty batch whose first frames agree entry by
    entry, the loss is defined and is zero, whatever the second frames
    are.  (Only this direction is stated: in float32 a squared error can
    round to zero, so a zero loss does not show that the frames
    agree.) *)
Theorem shapeLoss_zero_when_first_frames_agree
    (modelResultPairView targetPairView : pairView) :
  modelResultPairView <> [] ->
  meq (frame0 modelResultPairView) (frame0 targetPairView) ->
  exists q,
    shapeLoss modelResultPairView targetPairView = Some q
    /\ (q == 0)%Q
    /\ forall p' t',
         frame0 p' = frame0 modelResultPairView ->
         frame0 t' = frame0 targetPairView ->
         shapeLoss p' t' = Some q.
Proof.
  intros Hne Heq. unfold shapeLoss.
  destruct (mean (sum_last (MSENoReductionCriterion (frame0 modelResultPairView)
                              (frame0 targetPairView)))) as [q|] eqn:Hm.
  - exists q. split; [reflexivity|]. split.
    + rewrite (mean_zero_iff _ q Hm), (qsum_zero_iff _ (row_errors_nonneg _ _)).
      apply row_errors_zero_iff; [now apply meq_same_shape | exact Heq].
    + intros p' t' -> ->. exact Hm.
  - exfalso. destruct modelResultPairView as [|p ps]; [congruence|].
    destruct targetPairView as [|t ts]; [inversion Heq | discriminate].
Qed.

Lemma shapeLoss_zero_when_first_frames_agree_witness :
  exists q,
    shapeLoss half_right_prediction still_target = Some q
    /\ (q == 0)%Q
    /\ forall p' t',
         frame0 p' = frame0 half_right_prediction ->
         frame0 t' = frame0 still_target ->
         shapeLoss p' t' = Some q.
Proof.
  apply (shapeLoss_zero_when_first_frames_agree half_right_prediction still_target).
  - discriminate.
  - repeat constructor.
Defined.

Lemma offset_row_delta (c a b : list Q) :
  List.length c = List.length a -> List.length c = List.length b ->
  Forall2 Qeq (zipWith Qminus (zipWith Qplus b c) (zipWith Qplus a c))
              (zipWith Qminus b a).
Proof.
  revert a b. induction c as [|z c IH]; intros [|x a] [|y b] Ha Hb;
    try discriminate; [constructor|].
  rewrite !zipWith_cons. constructor; [ring|].
  apply IH; [now injection Ha | now injection Hb].
Qed.

Lemma squares_meq (r r' s : list Q) :
  Forall2 Qeq r r' ->
  Forall2 Qeq (zipWith (fun x y => ((x - y) * (x - y))%Q) r s)
              (zipWith (fun x y => ((x - y) * (x - y))%Q) r' s).
Proof.
  intros H. revert s. induction H as [|x x' r r' Hx _ IH]; intros [|y s];
    try (constructor; fail).
  rewrite !zipWith_cons. constructor; [now rewrite Hx | apply IH].
Qed.

Lemma qsum_meq (l l' : list Q) : Forall2 Qeq l l' -> (qsum l == qsum l')%Q.
Proof.
  induction 1 as [|x x' l l' Hx _ IH]; cbn [qsum fold_right]; [reflexivity|].
  fold (qsum l) (qsum l'). now rewrite Hx, IH.
Qed.

Lemma row_errors_meq (a a' b : matrix) :
  meq a a' ->
  Forall2 Qeq (sum_last (MSENoReductionCriterion a b))
              (sum_last (MSENoReductionCriterion a' b)).
Proof.
  intros H. revert b. induction H as [|r r' a a' Hr _ IH]; intros [|s b];
    try (constructor; fail).
  unfold MSENoReductionCriterion. rewrite !zipWith_cons. cbn [sum_last map].
  constructor; [apply qsum_meq; now apply squares_meq | apply IH].
Qed.

Lemma mean_meq (l l' : list Q) :
  Forall2 Qeq l l' -> loss_eq (mean l) (mean l').
Proof.
  intros H. pose proof (qsum_meq l l' H) as Hs.
  pose proof (Forall2_length H) as Hlen.
  destruct H as [|x x' l l' Hx Hl]; [exact I|].
  cbn [mean loss_eq]. rewrite Hs, Hlen. reflexivity.
Qed.

(** X19.  The motion loss sees displacements only.  Adding to both
    predicted frames of each pair the same row of offsets (one row per
    pair, of the width of the frames) leaves the motion loss unchanged,
    whatever the targets. *)
Theorem motionLoss_ignores_offsets
    (cs : matrix) (modelResultPairView targetPairView : pairView) :
  Forall2 (fun c p => List.length c = List.length (fst p)
                      /\ List.length c = List.length (snd p))
          cs modelResultPairView ->
  loss_eq (motionLoss (offset_pairs cs modelResultPairView) targetPairView)
          (motionLoss modelResultPairView targetPairView).
Proof.
  intros H. unfold motionLoss. apply mean_meq, row_errors_meq.
  induction H as [|c p cs ps [Ha Hb] _ IH]; [constructor|].
  unfold offset_pairs, msub, frame1, frame0 in *.
  rewrite zipWith_cons. cbn [map fst snd]. rewrite !zipWith_cons.
  constructor; [|exact IH]. now apply offset_row_delta.
Qed.

Lemma motionLoss_ignores_offsets_witness :
  loss_eq (motionLoss (offset_pairs pair_offsets moving_prediction) still_target)
          (motionLoss moving_prediction still_target).
Proof.
  apply (motionLoss_ignores_offsets pair_offsets moving_prediction still_target).
  repeat constructor.
Defined.

(* ================================================================== *)
(** ** train: the whole trace, epoch by epoch *)
(* ================================================================== *)

Section TrainTrace.

Variable state_dict : Type.
Variable run_epoch : Z -> state_dict -> result (state_dict * (Q * Q * Q)).
Variables (modelDir runStr : string).
Variable st : Z -> state_dict.
Variable ls : Z -> Q * Q * Q.
Variable budget : Z.
Hypothesis steps :
  forall j, 0 <= j < budget -> run_epoch j (st j) = Ok (st (j + 1), ls j).

(** The loop over the epochs [a, a + len), started in the state [st a]. *)
Lemma epoch_loop_trace (len : nat) :
  forall (a : nat) (trace : list (event state_dict)),
    Z.of_nat (a + len) <= budget ->
    epoch_loop run_epoch modelDir runStr (map Z.of_nat (seq a len))
      (st (Z.of_nat a)) trace
    = (Ok (st (Z.of_nat (a + len))),
       trace ++ flat_map (fun j => epoch_events modelDir runStr j (st (j + 1)) (ls j))
                  (map Z.of_nat (seq a len))).
Proof.
  induction len as [|len IH]; intros a trace Hle.
  - cbn [seq map epoch_loop flat_map]. now rewrite Nat.add_0_r, app_nil_r.
  - cbn [seq map epoch_loop flat_map].
    rewrite (steps (Z.of_nat a)) by lia.
    replace (Z.of_nat a + 1) with (Z.of_nat (S a)) by lia.
    rewrite (IH (S a)) by lia. rewrite <- app_assoc. do 3 f_equal. lia.
Qed.

Lemma epoch_loop_app (l l' : list Z) (m : state_dict) (trace : list (event state_dict)) :
  epoch_loop run_epoch modelDir runStr (l ++ l') m trace
  = match epoch_loop run_epoch modelDir runStr l m trace with
    | (Ok m', trace') => epoch_loop run_epoch modelDir runStr l' m' trace'
    | (Raise x, trace') => (Raise x, trace')
    end.
Proof.
  revert m trace. induction l as [|k l IH]; intros m trace; [reflexivity|].
  cbn [app epoch_loop]. destruct (run_epoch k m) as [[m' losses]|x]; [apply IH|reflexivity].
Qed.

End TrainTrace.

Lemma scalars_app {state_dict} (t1 t2 : list (event state_dict)) :
  scalars (t1 ++ t2) = scalars t1 ++ scalars t2.
Proof. apply flat_map_app. Qed.

Lemma scalars_of_epochs {state_dict} (modelDir runStr : string)
    (st : Z -> state_dict) (ls : Z -> Q * Q * Q) (l : list Z) :
  scalars (flat_map (fun j => epoch_events modelDir runStr j (st (j + 1)) (ls j)) l)
  = flat_map (expected_scalars ls) l.
Proof.
  induction l as [|j l IH]; [reflexivity|].
  cbn [flat_map]. rewrite scalars_app, IH. f_equal.
  unfold epoch_events, expected_scalars. destruct (ls j) as [[emotion motion] shape_].
  destruct ((j + 1) mod 50 =? 0); reflexivity.
Qed.

Lemma saves_of_epochs {state_dict} (root runStr : string)
    (st : Z -> state_dict) (ls : Z -> Q * Q * Q) (l : list Z) :
  saves (flat_map (fun j => epoch_events (path_join root ["model"; runStr]%string)
                              runStr j (st (j + 1)) (ls j)) l)
  = flat_map (expected_checkpoint root runStr st) (map (fun j => j + 1) l).
Proof.
  induction l as [|j l IH]; [reflexivity|].
  cbn [flat_map map]. rewrite saves_app, IH. f_equal.
  unfold epoch_events, expected_checkpoint, checkpoint_path.
  destruct (ls j) as [[emotion motion] shape_].
  destruct ((j + 1) mod 50 =? 0); reflexivity.
Qed.

Lemma epoch_numbers_range (n : Z) :
  map (fun j => j + 1) (range n) = epoch_numbers n.
Proof.
  unfold range, epoch_numbers. rewrite <- seq_shift, !map_map.
  apply map_ext. intros k. lia.
Qed.

(** X20.  What a completed run logs.  When every epoch returns (epoch
    index [j] taking the state [st j] to [st (j + 1)] with the losses
    [ls j] of its last batch), [train] writes for each of the 50000
    epochs, in order, exactly three scalars, tagged emotion, motion and
    shape in this order, all three at the step [j + 1] (epochs are
    numbered from one in the log); that is 150000 scalars. *)
Theorem train_scalars
    (state_dict : Type)
    (run_epoch : Z -> state_dict -> result (state_dict * (Q * Q * Q)))
    (root runStr : string) (st : Z -> state_dict) (ls : Z -> Q * Q * Q) :
  (forall j, 0 <= j < epochCount -> run_epoch j (st j) = Ok (st (j + 1), ls j)) ->
  exists trace,
    train run_epoch root runStr (st 0) = (Ok tt, trace)
    /\ scalars trace = flat_map (expected_scalars ls) (range epochCount)
    /\ Z.of_nat (List.length (scalars trace)) = 150000.
Proof.
  intros Hsteps. unfold train, train_for.
  pose proof (epoch_loop_trace state_dict run_epoch
                (path_join root ["model"; runStr]%string) runStr st ls epochCount
                Hsteps (Z.to_nat epochCount) 0 []) as Hrun.
  unfold range. change (Z.of_nat 0) with 0 in Hrun.
  rewrite Hrun by (unfold epochCount; lia).
  eexists. split; [reflexivity|].
  assert (Hsc : scalars
                  (([] ++ flat_map
                      (fun j => epoch_events (path_join root ["model"; runStr]%string)
                                  runStr j (st (j + 1)) (ls j))
                      (map Z.of_nat (seq 0 (Z.to_nat epochCount))))
                   ++ [save (st (Z.of_nat (0 + Z.to_nat epochCount)))
                         (final_path (path_join root ["model"; runStr]%string) runStr)])
                = flat_map (expected_scalars ls)
                    (map Z.of_nat (seq 0 (Z.to_nat epochCount)))).
  { rewrite scalars_app. cbn [app]. rewrite scalars_of_epochs.
    cbn [scalars flat_map]. now rewrite app_nil_r. }
  split; [exact Hsc|]. rewrite Hsc.
  assert (Hlen : forall l, List.length (flat_map (expected_scalars ls) l)
                           = (3 * List.length l)%nat).
  { induction l as [|j l IH]; [reflexivity|].
    cbn [flat_map]. rewrite length_app, IH. unfold expected_scalars.
    destruct (ls j) as [[emotion motion] shape_]. cbn [List.length]. lia. }
  rewrite Hlen, length_map, length_seq. unfold epochCount. lia.
Qed.

Lemma train_scalars_witness :
  exists trace,
    train counting_epoch "/surat" "run" 0 = (Ok tt, trace)
    /\ scalars trace
       = flat_map (expected_scalars (fun _ => (0, 0, 0)%Q)) (range epochCount)
    /\ Z.of_nat (List.length (scalars trace)) = 150000.
Proof.
  apply (train_scalars Z counting_epoch "/surat" "run" (fun j => j)
           (fun _ => (0, 0, 0)%Q)).
  intros j Hj. reflexivity.
Defined.

(** X21.  A run that breaks down.  When the epochs of index 0 to [k - 1]
    return and the epoch of index [k] raises, [train] raises the same
    exception at once: the scalars and the numbered checkpoints of the
    epochs 1 to [k] have been written, nothing is written for the
    failing epoch, and the final checkpoint is never saved. *)
Theorem train_stops_at_the_failing_epoch
    (state_dict : Type)
    (run_epoch : Z -> state_dict -> result (state_dict * (Q * Q * Q)))
    (root runStr : string) (st : Z -> state_dict) (ls : Z -> Q * Q * Q)
    (k : Z) (x : exn) :
  0 <= k < epochCount ->
  (forall j, 0 <= j < k -> run_epoch j (st j) = Ok (st (j + 1), ls j)) ->
  run_epoch k (st k) = Raise x ->
  exists trace,
    train run_epoch root runStr (st 0) = (Raise x, trace)
    /\ scalars trace = flat_map (expected_scalars ls) (range k)
    /\ saves trace
       = flat_map (expected_checkpoint root runStr st) (epoch_numbers k).
Proof.
  intros Hk Hsteps Hfail. unfold train, train_for.
  set (modelDir := path_join root ["model"; runStr]%string).
  set (b := (Z.to_nat epochCount - S (Z.to_nat k))%nat).
  assert (Hb : Z.to_nat epochCount = (Z.to_nat k + S b)%nat)
    by (unfold b, epochCount in *; lia).
  assert (Hsplit : range epochCount
                   = map Z.of_nat (seq 0 (Z.to_nat k))
                     ++ k :: map Z.of_nat (seq (S (Z.to_nat k)) b)).
  { unfold range. rewrite Hb, seq_app, map_app. cbn [seq map Nat.add]. f_equal.
    rewrite Z2Nat.id by lia. reflexivity. }
  rewrite Hsplit, epoch_loop_app.
  pose proof (epoch_loop_trace state_dict run_epoch modelDir runStr st ls k
                Hsteps (Z.to_nat k) 0 []) as Hrun.
  change (Z.of_nat 0) with 0 in Hrun. rewrite Hrun by lia.
  cbn [epoch_loop].
  replace (Z.of_nat (0 + Z.to_nat k)) with k by lia. rewrite Hfail.
  eexists. split; [reflexivity|]. cbn [app]. split.
  - apply scalars_of_epochs.
  - unfold modelDir. rewrite saves_of_epochs.
    fold (range k). now rewrite epoch_numbers_range.
Qed.

Lemma failing_epoch_steps (k j : Z) :
  0 <= j < k -> failing_epoch k j j = Ok (j + 1, (0, 0, 0)%Q).
Proof.
  intros Hj. unfold failing_epoch.
  destruct (Z.eqb_spec j k); [lia | reflexivity].
Qed.

Lemma train_stops_at_the_failing_epoch_witness :
  exists trace,
    train (failing_epoch 120) "/surat" "run" 0 = (Raise RuntimeError, trace)
    /\ scalars trace
       = flat_map (expected_scalars (fun _ => (0, 0, 0)%Q)) (range 120)
    /\ saves trace
       = flat_map (expected_checkpoint "/surat" "run" (fun j => j)) (epoch_numbers 120).
Proof.
  apply (train_stops_at_the_failing_epoch Z (failing_epoch 120) "/surat" "run"
           (fun j => j) (fun _ => (0, 0, 0)%Q) 120 RuntimeError).
  - vm_compute. split; [discriminate | reflexivity].
  - intros j Hj. apply failing_epoch_steps. exact Hj.
  - reflexivity.
Defined.

(* ================================================================== *)
(** ** File names *)
(* ================================================================== *)

Lemma append_inj_l (s a b : string) : (s ++ a = s ++ b)%string -> a = b.
Proof.
  induction s as [|c s IH]; cbn [String.append]; intros H; [exact H|].
  injection H as H. now apply IH.
Qed.

Lemma append_inj_r (a b t : string) :
  String.length a = String.length b -> (a ++ t = b ++ t)%string -> a = b.
Proof.
  revert b. induction a as [|c a IH]; intros [|c' b] Hlen H;
    try discriminate; [reflexivity|].
  cbn [String.append] in H. injection H as -> H. injection Hlen as Hlen.
  f_equal. now apply IH.
Qed.

Lemma append_assoc (a b c : string) : ((a ++ b) ++ c = a ++ (b ++ c))%string.
Proof.
  induction a as [|x a IH]; cbn [String.append]; [reflexivity|]. now rewrite IH.
Qed.

(** Joining a directory with a relative name puts a prefix, which depends
    on the directory only, in front of the name. *)
Lemma join2_relative (path : string) :
  exists P, forall s, starts_with_sep s = false -> join2 path s = (P ++ s)%string.
Proof.
  destruct (String.eqb path EmptyString || ends_with_sep path) eqn:Hsep.
  - exists path. intros s Hs. unfold join2. now rewrite Hs, Hsep.
  - exists (path ++ "/")%string. intros s Hs. unfold join2.
    rewrite Hs, Hsep. now rewrite append_assoc.
Qed.

(** The same with a fixed beginning [run] of the name, which may itself be
    absolute. *)
Lemma join2_named (path run : string) :
  exists P, forall s, starts_with_sep s = false ->
                      join2 path (run ++ s) = (P ++ s)%string.
Proof.
  destruct run as [|c run].
  - destruct (join2_relative path) as [P HP]. exists P. intros s Hs.
    cbn [String.append]. now apply HP.
  - destruct (Ascii.eqb c "/") eqn:Hc.
    + exists (String c run). intros s Hs. unfold join2.
      cbn [String.append starts_with_sep]. now rewrite Hc.
    + destruct (join2_relative path) as [P HP]. exists (P ++ String c run)%string.
      intros s Hs. rewrite append_assoc. apply HP.
      cbn [String.append starts_with_sep]. exact Hc.
Qed.

Lemma format_05d_inj (a b : Z) (t : string) :
  0 <= a < 100000 -> 0 <= b < 100000 ->
  (format_05d a ++ t = format_05d b ++ t)%string -> a = b.
Proof.
  intros Ha Hb H.
  destruct (format_05d_frame a Ha) as [La Fa].
  destruct (format_05d_frame b Hb) as [Lb Fb].
  apply append_inj_r in H; [|congruence].
  rewrite H in Fa. congruence.
Qed.

(** X22.  Distinct frames are stored in distinct files: for frame numbers
    below 100000 (those that fit the five digits of the name), two
    frames have the same path only when they are the same frame,
    whatever the root. *)
Theorem mask_path_distinct (root : string) (a b : Z) :
  0 <= a < 100000 -> 0 <= b < 100000 ->
  (mask_path root a = mask_path root b <-> a = b).
Proof.
  intros Ha Hb. split; [|now intros ->].
  unfold mask_path, path_join. cbn [fold_left].
  destruct (join2_relative (join2 (join2 (join2 root "data") "samSoar") "maskSeq"))
    as [P HP].
  rewrite !HP by reflexivity. intros H.
  apply append_inj_l in H. apply (append_inj_l "mask.") in H.
  exact (format_05d_inj a b ".npy" Ha Hb H).
Qed.

Lemma mask_path_distinct_witness :
  mask_path "/surat" 4 = mask_path "/surat" 5 <-> 4 = 5.
Proof.
  apply (mask_path_distinct "/surat" 4 5).
  - lia.
  - lia.
Defined.

(* ================================================================== *)
(** ** How many checkpoints, and under which names *)
(* ================================================================== *)

Lemma div_50_succ (n : Z) :
  0 <= n ->
  (n + 1) / 50 = n / 50 + (if (n + 1) mod 50 =? 0 then 1 else 0).
Proof.
  intros Hn.
  pose proof (Z.div_mod n 50 ltac:(lia)) as Hd.
  pose proof (Z.mod_pos_bound n 50 ltac:(lia)) as Hm.
  destruct (Z.eq_dec (n mod 50) 49) as [E|E].
  - assert (Hmod : (n + 1) mod 50 = 0)
      by (symmetry; apply (Z.mod_unique (n + 1) 50 (n / 50 + 1) 0); lia).
    assert (Hdiv : (n + 1) / 50 = n / 50 + 1)
      by (symmetry; apply (Z.div_unique (n + 1) 50 (n / 50 + 1) 0); lia).
    rewrite Hmod, Hdiv. reflexivity.
  - assert (Hmod : (n + 1) mod 50 = n mod 50 + 1)
      by (symmetry; apply (Z.mod_unique (n + 1) 50 (n / 50) (n mod 50 + 1)); lia).
    assert (Hdiv : (n + 1) / 50 = n / 50)
      by (symmetry; apply (Z.div_unique (n + 1) 50 (n / 50) (n mod 50 + 1)); lia).
    rewrite Hmod, Hdiv.
    destruct (Z.eqb_spec (n mod 50 + 1) 0); lia.
Qed.

Lemma length_expected_checkpoints {state_dict} (root runStr : string)
    (st : Z -> state_dict) (n : nat) :
  Z.of_nat (List.length (flat_map (expected_checkpoint root runStr st)
                           (map Z.of_nat (seq 1 n))))
  = Z.of_nat n / 50.
Proof.
  induction n as [|n IH]; [reflexivity|].
  rewrite seq_S, map_app, flat_map_app, length_app, Nat2Z.inj_add, IH.
  cbn [Nat.add map flat_map]. rewrite app_nil_r.
  replace (Z.of_nat (S n)) with (Z.of_nat n + 1) by lia.
  rewrite div_50_succ by lia. f_equal.
  unfold expected_checkpoint. destruct (_ =? 0); reflexivity.
Qed.

Lemma checkpoint_names {state_dict} (root runStr : string) (st : Z -> state_dict) :
  exists P,
    (forall l, map fst (flat_map (expected_checkpoint root runStr st) l)
               = map (fun e => (P ++ "_E" ++ format_05d e ++ ".pth")%string)
                   (filter (fun e => e mod 50 =? 0) l))
    /\ path_join (path_join root ["model"; runStr]%string) [runStr ++ "_fin.pth"]%string
       = (P ++ "_fin.pth")%string.
Proof.
  destruct (join2_named (path_join root ["model"; runStr]%string) runStr) as [P HP].
  exists P. split.
  - induction l as [|e l IH]; [reflexivity|].
    cbn [flat_map filter]. rewrite map_app, IH. unfold expected_checkpoint.
    destruct (e mod 50 =? 0); [|reflexivity].
    cbn [map fst app path_join fold_left]. now rewrite HP by reflexivity.
  - cbn [path_join fold_left]. now apply HP.
Qed.

(** X23.  No checkpoint overwrites another.  A run of [train] that
    completes saves 1001 files (one every 50 epochs, and the final one),
    and their paths are pairwise different, whatever the root and the
    run name. *)
Theorem train_checkpoint_paths_distinct
    (state_dict : Type)
    (run_epoch : Z -> state_dict -> result (state_dict * (Q * Q * Q)))
    (root runStr : string) (m0 : state_dict) (st : Z -> state_dict) :
  (forall j, 0 <= j <= epochCount -> state_after run_epoch m0 j = Ok (st j)) ->
  exists trace,
    train run_epoch root runStr m0 = (Ok tt, trace)
    /\ Z.of_nat (List.length (saves trace)) = 1001
    /\ NoDup (map fst (saves trace)).
Proof.
  intros Hst.
  destruct (train_for_saves state_dict run_epoch root runStr m0 st epochCount Hst)
    as [trace [Hrun Hsaves]]; [unfold epochCount; lia|].
  exists trace. split; [exact Hrun|]. rewrite Hsaves. split.
  - rewrite length_app, Nat2Z.inj_add. unfold epoch_numbers.
    rewrite length_expected_checkpoints. unfold epochCount.
    rewrite Z2Nat.id by lia. reflexivity.
  - rewrite map_app. cbn [map fst].
    destruct (checkpoint_names root runStr st) as [P [Hnames Hfin]].
    rewrite Hnames, Hfin.
    assert (Hin : forall e, In e (filter (fun e => e mod 50 =? 0)
                                    (epoch_numbers epochCount))
                            -> 0 <= e < 100000).
    { intros e He. apply filter_In in He. destruct He as [He _].
      unfold epoch_numbers in He. apply in_map_iff in He.
      destruct He as [k [<- Hk]]. apply in_seq in Hk. unfold epochCount in Hk. lia. }
    apply NoDup_app.
    + apply NoDup_map_NoDup_ForallPairs.
      * intros a b Ha Hb H. apply append_inj_l in H.
        apply (append_inj_l "_E") in H.
        exact (format_05d_inj a b ".pth" (Hin a Ha) (Hin b Hb) H).
      * apply NoDup_filter. unfold epoch_numbers.
        apply NoDup_map_NoDup_ForallPairs; [|apply seq_NoDup].
        intros a b _ _. apply Nat2Z.inj.
    + repeat constructor. intros [].
    + intros p Hp [Hq|[]]. apply in_map_iff in Hp. destruct Hp as [e [He _]].
      rewrite <- Hq in He. apply append_inj_l in He. discriminate.
Qed.

Lemma train_checkpoint_paths_distinct_witness :
  exists trace,
    train counting_epoch "/surat" "run" 0 = (Ok tt, trace)
    /\ Z.of_nat (List.length (saves trace)) = 1001
    /\ NoDup (map fst (saves trace)).
Proof.
  apply (train_checkpoint_paths_distinct Z counting_epoch "/surat" "run" 0
           (fun j => j)).
  intros j Hj. apply counting_state_after. lia.
Defined.

(* ================================================================== *)
(** ** Consecutive items *)
(* ================================================================== *)

(** X24.  Without augmentation, consecutive items overlap by one frame:
    the second window of item [i] is the first window of item [i + 1],
    and the second row of its target is the first row of the target of
    item [i + 1]. *)
Theorem consecutive_items_overlap
    (e : env) (d : Data) (i : Z) (w w' : world) (v1 v2 v3 : list Q) :
  preview d = false ->
  shiftRandom d = false ->
  wf_matrix 32 (MFCC d) ->
  (32 <= List.length (MFCC d))%nat ->
  MFCCLen d < 2 ^ 53 ->
  0 < count d < 2 ^ 53 ->
  0 <= i -> i + 2 < 2 ^ 53 ->
  disk e (mask_path (ROOT_PATH e) (i + 1)) = Some v1 ->
  disk e (mask_path (ROOT_PATH e) (i + 2)) = Some v2 ->
  disk e (mask_path (ROOT_PATH e) (i + 3)) = Some v3 ->
  Z.of_nat (List.length v1) = OUTPUT_COUNT ->
  Z.of_nat (List.length v2) = OUTPUT_COUNT ->
  Z.of_nat (List.length v3) = OUTPUT_COUNT ->
  exists s s' w1 w1',
    getitem e d i w = (Ok s, w1)
    /\ getitem e d (i + 1) w' = (Ok s', w1')
    /\ skipn 2048 (data (input s)) = firstn 2048 (data (input s'))
    /\ skipn (List.length v1) (data (target s))
       = firstn (List.length v2) (data (target s')).
Proof.
  intros Hp Hs Hwf HT HT' Hc Hi Hi' D1 D2 D3 L1 L2 L3.
  assert (Hw : wrap_index d i = i) by (apply wrap_index_nonneg; lia).
  assert (Hw' : wrap_index d (i + 1) = i + 1) by (apply wrap_index_nonneg; lia).
  destruct (audioIdx_total d i 0 ltac:(lia) ltac:(lia) Hc HT') as [a Ha].
  destruct (audioIdx_total d (i + 1) 0 ltac:(lia) ltac:(lia) Hc HT') as [a' Ha'].
  destruct (audioIdx_total d (i + 1 + 1) 0 ltac:(lia) ltac:(lia) Hc HT') as [a'' Ha''].
  assert (Hidx : audioIdxPair e d (wrap_index d i) w
                 = (Ok (a, a'), mkWorld (draws w) (opened w))).
  { rewrite audioIdxPair_run, Hs, Hw, Ha, Ha'. reflexivity. }
  assert (Hidx' : audioIdxPair e d (wrap_index d (i + 1)) w'
                  = (Ok (a', a''), mkWorld (draws w') (opened w'))).
  { rewrite audioIdxPair_run, Hs, Hw', Ha', Ha''. reflexivity. }
  assert (E1 : disk e (mask_path (ROOT_PATH e) (wrap_index d i + 1)) = Some v1)
    by (rewrite Hw; exact D1).
  assert (E2 : disk e (mask_path (ROOT_PATH e) (wrap_index d i + 2)) = Some v2)
    by (rewrite Hw; exact D2).
  assert (E2' : disk e (mask_path (ROOT_PATH e) (wrap_index d (i + 1) + 1)) = Some v2)
    by (rewrite Hw'; replace (i + 1 + 1) with (i + 2) by lia; exact D2).
  assert (E3 : disk e (mask_path (ROOT_PATH e) (wrap_index d (i + 1) + 2)) = Some v3)
    by (rewrite Hw'; replace (i + 1 + 2) with (i + 3) by lia; exact D3).
  eexists. eexists. eexists. eexists. split; [|split].
  - apply (getitem_train_ok e d i w _ a a' v1 v2 Hp Hwf HT Hidx E1 E2 L1 L2).
  - apply (getitem_train_ok e d (i + 1) w' _ a' a'' v2 v3 Hp Hwf HT Hidx' E2' E3 L2 L3).
  - cbn [input target data Torch.scale]. split.
    + rewrite !concat_app.
      rewrite <- (length_concat_window (MFCC d) a Hwf ltac:(lia)) at 1.
      rewrite skipn_app, skipn_all, Nat.sub_diag. cbn [skipn app].
      rewrite <- (length_concat_window (MFCC d) a' Hwf ltac:(lia)) at 1.
      rewrite firstn_app, firstn_all, Nat.sub_diag. cbn [firstn].
      now rewrite app_nil_r.
    + rewrite !map_app.
      set (g := fun v => Torch.float32 (v * Torch.float32 (1 # 2))%Q).
      replace (List.length v1) with (List.length (map g (map Torch.float32 v1)))
        by (now rewrite !length_map).
      rewrite skipn_app, skipn_all, Nat.sub_diag. cbn [skipn app].
      replace (List.length v2) with (List.length (map g (map Torch.float32 v2)))
        by (now rewrite !length_map).
      rewrite firstn_app, firstn_all, Nat.sub_diag. cbn [firstn].
      now rewrite app_nil_r.
Qed.

Lemma consecutive_items_overlap_witness :
  exists s s' w1 w1',
    getitem (env_of false 45) clip40 3 w0 = (Ok s, w1)
    /\ getitem (env_of false 45) clip40 (3 + 1) w0 = (Ok s', w1')
    /\ skipn 2048 (data (input s)) = firstn 2048 (data (input s'))
    /\ skipn (List.length frame_file) (data (target s))
       = firstn (List.length frame_file) (data (target s')).
Proof.
  apply (consecutive_items_overlap (env_of false 45) clip40 3 w0 w0
           frame_file frame_file frame_file).
  - reflexivity.
  - reflexivity.
  - apply wf_ramp.
  - vm_compute. lia.
  - vm_compute. reflexivity.
  - vm_compute. split; reflexivity.
  - lia.
  - vm_compute. reflexivity.
  - apply (disk_frames_hit "/surat" 45 4). lia.
  - apply (disk_frames_hit "/surat" 45 5). lia.
  - apply (disk_frames_hit "/surat" 45 6). lia.
  - apply length_frame_file.
  - apply length_frame_file.
  - apply length_frame_file.
Defined.
